(** * lastore-daemon: the job manager (job_manager.go)

    A shallow embedding of [JobManager], [JobQueue] and [JobList] of
    src/lastore-daemon/job_manager.go.

    Go's [*Job] pointers are kept as pointers: jobs live in a heap and the
    queues, the result of [PendingJobs] and the [next] field hold addresses,
    so that a mutation through one reference ([job.retry--], a status
    transition) is seen through every other one.

    [range m.queues] visits a Go map in an unspecified order; every function
    that ranges over the queues takes the order of the visit as a list of
    queue names.

    The backend ([m.system]) is a pair of functions giving the outcome of
    [Abort] and of the start of a job; the calls that reach it are kept on
    record in the manager. The timer loop [Dispatch] and the progress
    callback [handleJobProgressInfo] are outside the model: nothing below
    is stated about them. *)

From stdpp Require Import base gmap strings list fin_maps sorting.
From Stdlib Require Import ZArith Lia.

Local Open Scope Z_scope.
Local Open Scope nat_scope.

(** ** Package [system]: job types, statuses, errors *)

(** Modelled from the spec: the job type constants of package [system]
    (section 3, [Type]). [jobType] is a Go string, so every other string is
    a job type too: [OtherJobType]. *)
Inductive JobType :=
  | DownloadJobType
  | InstallJobType
  | RemoveJobType
  | UpdateJobType
  | DistUpgradeJobType
  | UpdateSourceJobType
  | OtherJobType (s : string).

(** Modelled from the spec: the status constants of package [system]
    (section 3, [Status]). *)
Inductive Status :=
  | ReadyStatus
  | RunningStatus
  | FailedStatus
  | SucceedStatus
  | PausedStatus
  | EndStatus.

(** [system.NotFoundError], [system.NotSupportError], the error built by
    [fmt.Errorf("exists job %q:%q", ...)] in [JobQueue.Add], and an error
    handed back by the backend. *)
Inductive Error :=
  | NotFoundError
  | NotSupportError
  | ExistsJobError (t : JobType) (packages : list string)
  | SystemError (msg : string).

Global Instance JobType_eq_dec : EqDecision JobType.
Proof. solve_decision. Defined.
Global Instance Status_eq_dec : EqDecision Status.
Proof. solve_decision. Defined.
Global Instance Error_eq_dec : EqDecision Error.
Proof. solve_decision. Defined.

(** ** Jobs and the heap *)

Definition ptr := nat.

(** Modelled from the spec: the [Job] struct (section 3). [Progress],
    [Description] and [Speed] are display fields that job_manager.go never
    reads; they are left out. [Typ] is Go's [Type]. *)
Record Job := mkJob {
  Id : string;
  Name : string;
  Packages : list string;
  CreateTime : Z;
  Typ : JobType;
  Status_ : Status;
  Cancelable : bool;
  queueName : string;
  retry : Z;
  next : option ptr
}.

Definition with_Id (j : Job) (v : string) : Job :=
  mkJob v (Name j) (Packages j) (CreateTime j) (Typ j) (Status_ j)
        (Cancelable j) (queueName j) (retry j) (next j).
Definition with_Status (j : Job) (v : Status) : Job :=
  mkJob (Id j) (Name j) (Packages j) (CreateTime j) (Typ j) v
        (Cancelable j) (queueName j) (retry j) (next j).
Definition with_retry (j : Job) (v : Z) : Job :=
  mkJob (Id j) (Name j) (Packages j) (CreateTime j) (Typ j) (Status_ j)
        (Cancelable j) (queueName j) v (next j).
Definition with_next (j : Job) (v : option ptr) : Job :=
  mkJob (Id j) (Name j) (Packages j) (CreateTime j) (Typ j) (Status_ j)
        (Cancelable j) (queueName j) (retry j) v.

(** The heap: what each [*Job] points to. *)
Definition Heap := ptr -> Job.

Definition set_job (h : Heap) (p : ptr) (j : Job) : Heap :=
  fun q => if Nat.eqb q p then j else h q.

(** [strings.Join(packages, "")] *)
Definition fingerprint (packages : list string) : string :=
  String.concat "" packages.

(** ** JobList: [Len], [Less], [Swap] and [sort.Sort] *)

(** [JobList.Less(i, j)], on the two jobs at these indexes. *)
Definition Less (h : Heap) (a b : ptr) : bool :=
  bool_decide (Typ (h a) = UpdateSourceJobType)
  || (CreateTime (h a) <? CreateTime (h b))%Z.

(** [JobList.Swap(i, j)]; Go panics out of range, where the list is left
    as it is here. *)
Definition Swap (l : list ptr) (i j : nat) : list ptr :=
  match l !! i, l !! j with
  | Some a, Some b => <[j := a]> (<[i := b]> l)
  | _, _ => l
  end.

(** The inner loop of Go's [insertionSort]:
    [for j := i; j > a && data.Less(j, j-1); j-- { data.Swap(j, j-1) }].
    [rpre] is the part of the slice before index [i], nearest element
    first; the result is the part up to and including [i], last element
    first. *)
Fixpoint sift (less : ptr -> ptr -> bool) (x : ptr) (rpre : list ptr)
  : list ptr :=
  match rpre with
  | [] => [x]
  | y :: ys => if less x y then y :: sift less x ys else x :: rpre
  end.

(** [sort.Sort] of the Go library, as it runs on short slices: for fewer
    than seven elements every Go release sorts with [insertionSort] alone
    (longer slices first go through quickSort or pdqsort, which end in the
    same insertion sort on short ranges). *)
Definition sort_Sort (less : ptr -> ptr -> bool) (l : list ptr) : list ptr :=
  rev (fold_left (fun rpre x => sift less x rpre) l []).

(** ** JobQueue *)

Record JobQueue := mkJobQueue {
  QName : string;
  Jobs : list ptr;
  Cap : Z
}.

Definition with_Jobs (l : JobQueue) (v : list ptr) : JobQueue :=
  mkJobQueue (QName l) v (Cap l).

Definition NewJobQueue (name : string) (cap : Z) : JobQueue :=
  mkJobQueue name [] cap.

(** The scan of [PendingJobs] over [l.Jobs]: the heap changes under it
    ([job.retry--]). *)
Fixpoint scanPending (h : Heap) (jobs : list ptr) (numRunning : Z)
  (readyJobs : list ptr) : Heap * Z * list ptr :=
  match jobs with
  | [] => (h, numRunning, readyJobs)
  | job :: rest =>
    match Status_ (h job) with
    | FailedStatus =>
      if (0 <? retry (h job))%Z then
        scanPending (set_job h job (with_retry (h job) (retry (h job) - 1)%Z))
                    rest numRunning (readyJobs ++ [job])
      else scanPending h rest numRunning readyJobs
    | RunningStatus => scanPending h rest (numRunning + 1)%Z readyJobs
    | ReadyStatus => scanPending h rest numRunning (readyJobs ++ [job])
    | _ => scanPending h rest numRunning readyJobs
    end
  end.

(** [for space > 0 && numPending > 0 { space--; numPending--; n++ }] *)
Fixpoint countPending (space : Z) (numPending : nat) : nat :=
  match numPending with
  | O => O
  | S k => if (0 <? space)%Z then S (countPending (space - 1)%Z k) else O
  end.

Definition PendingJobs (h : Heap) (l : JobQueue) : Heap * list ptr :=
  let '(h', numRunning, readyJobs) := scanPending h (Jobs l) 0%Z [] in
  let space := (Cap l - numRunning)%Z in
  let n := countPending space (length readyJobs) in
  (h', sort_Sort (Less h') (take n readyJobs)).

Definition RunningJobs (h : Heap) (l : JobQueue) : list ptr :=
  filter (fun job => Status_ (h job) = RunningStatus) (Jobs l).

(** The [(Type, fingerprint)] test of [Add] and [guest]. *)
Definition sameWork (h : Heap) (job : ptr) (t : JobType) (pList : string)
  : bool :=
  bool_decide (Typ (h job) = t)
  && String.eqb (fingerprint (Packages (h job))) pList.

Definition Add (h : Heap) (l : JobQueue) (j : ptr)
  : JobQueue * option Error :=
  match List.find
          (fun job => sameWork h job (Typ (h j)) (fingerprint (Packages (h j))))
          (Jobs l) with
  | Some job => (l, Some (ExistsJobError (Typ (h job)) (Packages (h job))))
  | None => (with_Jobs l (sort_Sort (Less h) (Jobs l ++ [j])), None)
  end.

(** The index loops of [Remove] and [Raise]: first index whose job has
    this id. *)
Fixpoint indexOf (h : Heap) (id : string) (jobs : list ptr) : option nat :=
  match jobs with
  | [] => None
  | job :: rest =>
    if String.eqb (Id (h job)) id then Some O
    else option_map S (indexOf h id rest)
  end.

(** Modelled from the spec: [DestroyJob] releases what the backend holds
    for the job; nothing of the job or the queues changes. *)
Definition Remove (h : Heap) (l : JobQueue) (id : string)
  : JobQueue * option Error :=
  match indexOf h id (Jobs l) with
  | None => (l, Some NotFoundError)
  | Some index =>
    (with_Jobs l (sort_Sort (Less h)
                            (take index (Jobs l) ++ drop (S index) (Jobs l))),
     None)
  end.

Definition Raise (h : Heap) (l : JobQueue) (jobId : string)
  : JobQueue * option Error :=
  match indexOf h jobId (Jobs l) with
  | None => (l, Some NotFoundError)
  | Some p => (with_Jobs l (Swap (Jobs l) 0 p), None)
  end.

Definition Find (h : Heap) (l : JobQueue) (id : string) : option ptr :=
  List.find (fun job => String.eqb (Id (h job)) id) (Jobs l).

(** ** JobManager *)

Definition DownloadQueue : string := "download".
Definition DownloadQueueCap : Z := 3.
Definition SystemChangeQueue : string := "system change".
Definition SystemChangeQueueCap : Z := 1.
Definition LockQueue : string := "lock".

(** A call that reached the backend ([m.system]). *)
Inductive SysCall :=
  | AbortCall (jobId : string)
  | StartCall (job : ptr).

(** [brk] is the first address [NewJob] has not handed out yet;
    [notified] counts the calls of [m.notify]; [calls] is the record of the
    backend calls, latest first. *)
Record JobManager := mkJobManager {
  heap : Heap;
  brk : ptr;
  queues : gmap string JobQueue;
  changed : bool;
  notified : nat;
  calls : list SysCall
}.

Definition with_heap (m : JobManager) (v : Heap) : JobManager :=
  mkJobManager v (brk m) (queues m) (changed m) (notified m) (calls m).
Definition with_queues (m : JobManager) (v : gmap string JobQueue)
  : JobManager :=
  mkJobManager (heap m) (brk m) v (changed m) (notified m) (calls m).
Definition with_changed (m : JobManager) (v : bool) : JobManager :=
  mkJobManager (heap m) (brk m) (queues m) v (notified m) (calls m).
Definition with_call (m : JobManager) (c : SysCall) : JobManager :=
  mkJobManager (heap m) (brk m) (queues m) (changed m) (notified m)
               (c :: calls m).

Definition nilJob : Job :=
  mkJob "" "" [] 0%Z (OtherJobType "") EndStatus false "" 0%Z None.

Definition createJobList (qs : gmap string JobQueue) (name : string)
  (cap : Z) : gmap string JobQueue :=
  <[name := NewJobQueue name cap]> qs.

Definition NewJobManager : JobManager :=
  mkJobManager (fun _ => nilJob) 0
    (createJobList
       (createJobList
          (createJobList ∅ DownloadQueue DownloadQueueCap)
          SystemChangeQueue SystemChangeQueueCap)
       LockQueue 1%Z)
    false 0 [].

(** What [NewJob] draws from outside its arguments: the generated id, the
    clock, and the retry budget a new job starts with. *)
Record JobSeed := mkJobSeed {
  seedId : string;
  seedTime : Z;
  seedRetry : Z
}.

(** Modelled from the spec: [NewJob] (job.go is not among the sources)
    builds a Ready job from its arguments at a new address. *)
Definition NewJob (m : JobManager) (s : JobSeed) (jobName : string)
  (packages : list string) (jobType : JobType) (queue : string)
  : JobManager * ptr :=
  let j := mkJob (seedId s) jobName packages (seedTime s) jobType
                 ReadyStatus true queue (seedRetry s) None in
  (mkJobManager (set_job (heap m) (brk m) j) (S (brk m)) (queues m)
                (changed m) (notified m) (calls m),
   brk m).

(** Modelled from the spec: the transition table of section 3
    ([ValidTransitionJobState], job.go is not among the sources). *)
Definition ValidTransitionJobState (from to : Status) : bool :=
  match from, to with
  | ReadyStatus, (RunningStatus | PausedStatus | EndStatus) => true
  | RunningStatus,
    (SucceedStatus | FailedStatus | PausedStatus | EndStatus) => true
  | FailedStatus, (ReadyStatus | EndStatus) => true
  | PausedStatus, (ReadyStatus | EndStatus) => true
  | SucceedStatus, EndStatus => true
  | _, _ => false
  end.

(** Modelled from the spec: [TransitionJobState] (section 4.2; job.go is
    not among the sources). An illegal transition is NotSupport and leaves
    the job as it is; on the way to End from a status other than Succeed
    the successor is dropped; the manager is marked changed. *)
Definition TransitionJobState (m : JobManager) (job : ptr) (to : Status)
  : JobManager * option Error :=
  let j := heap m job in
  if ValidTransitionJobState (Status_ j) to then
    let j1 :=
      if bool_decide (to = EndStatus)
         && negb (bool_decide (Status_ j = SucceedStatus))
      then with_next j None else j in
    (with_changed (with_heap m (set_job (heap m) job (with_Status j1 to)))
                  true,
     None)
  else (m, Some NotSupportError).

(** The jobs of the queues [names], in the order of the visit. *)
Definition jobsOf (qs : gmap string JobQueue) (names : list string)
  : list ptr :=
  flat_map (fun name => match qs !! name with
                        | Some queue => Jobs queue
                        | None => []
                        end) names.

Fixpoint findIn (h : Heap) (qs : gmap string JobQueue)
  (names : list string) (jobId : string) : option ptr :=
  match names with
  | [] => None
  | name :: rest =>
    match qs !! name with
    | Some queue =>
      match Find h queue jobId with
      | Some job => Some job
      | None => findIn h qs rest jobId
      end
    | None => findIn h qs rest jobId
    end
  end.

(** The loop of [guest] over [m.List()]. The empty string is Go's [""]
    for no match. *)
Fixpoint guestIn (h : Heap) (jobType : JobType) (pList : string)
  (l : list ptr) : string :=
  match l with
  | [] => ""
  | job :: rest =>
    if sameWork h job jobType pList then Id (h job)
    else match next (h job) with
         | None => guestIn h jobType pList rest
         | Some nx =>
           if sameWork h nx jobType pList then Id (h job)
           else guestIn h jobType pList rest
         end
  end.

Section Manager.

(** The order in which [range m.queues] visits the queues in [find] and
    [List]. *)
Variable ord : list string.

(** The backend: [m.system.Abort(id)] and the start of a job, each
    giving [nil] ([None]) or an error. *)
Variable sysAbort : string -> option Error.
Variable sysStart : Job -> option Error.

Definition List_ (m : JobManager) : list ptr :=
  sort_Sort (Less (heap m)) (jobsOf (queues m) ord).

Definition guest (m : JobManager) (jobType : JobType)
  (packages : list string) : string :=
  guestIn (heap m) jobType (fingerprint packages) (List_ m).

Definition find (m : JobManager) (jobId : string) : option ptr :=
  findIn (heap m) (queues m) ord jobId.

Definition MarkStart (m : JobManager) (jobId : string)
  : JobManager * option Error :=
  match find m jobId with
  | None => (m, Some NotFoundError)
  | Some job =>
    let '(m1, err) :=
      if bool_decide (Status_ (heap m job) = ReadyStatus) then (m, None)
      else TransitionJobState m job ReadyStatus in
    match err with
    | Some e => (m1, Some e)
    | None =>
      match queues m1 !! queueName (heap m1 job) with
      | None => (m1, Some NotFoundError)
      | Some queue =>
        let '(queue', err) := Raise (heap m1) queue jobId in
        (with_queues m1 (<[queueName (heap m1 job) := queue']> (queues m1)),
         err)
      end
    end
  end.

Definition PauseJob (m : JobManager) (jobId : string)
  : JobManager * option Error :=
  match find m jobId with
  | None => (m, Some NotFoundError)
  | Some job =>
    if negb (ValidTransitionJobState (Status_ (heap m job)) PausedStatus)
    then (m, Some NotSupportError)
    else
      let m1 := with_call m (AbortCall (Id (heap m job))) in
      match sysAbort (Id (heap m job)) with
      | Some e => (m1, Some e)
      | None => TransitionJobState m1 job PausedStatus
      end
  end.

Definition CleanJob (m : JobManager) (jobId : string)
  : JobManager * option Error :=
  match find m jobId with
  | None => (m, Some NotFoundError)
  | Some job =>
    let m1 :=
      if bool_decide (Status_ (heap m job) = RunningStatus)
         && Cancelable (heap m job)
      then fst (PauseJob m jobId) else m in
    let m2 :=
      if ValidTransitionJobState (Status_ (heap m1 job)) EndStatus
      then with_heap m1 (set_job (heap m1) job
                                 (with_next (heap m1 job) None))
      else m1 in
    TransitionJobState m2 job EndStatus
  end.

Definition addJob (m : JobManager) (j : ptr) : JobManager * option Error :=
  match queues m !! queueName (heap m j) with
  | None => (m, Some NotFoundError)
  | Some queue =>
    match Add (heap m) queue j with
    | (_, Some e) => (m, Some e)
    | (queue', None) =>
      (with_changed
         (with_queues m (<[queueName (heap m j) := queue']> (queues m)))
         true,
       None)
    end
  end.

Definition removeJob (m : JobManager) (jobId : string) (queue : string)
  : JobManager * option Error :=
  match queues m !! queue with
  | None => (m, Some NotFoundError)
  | Some q =>
    match Remove (heap m) q jobId with
    | (_, Some e) => (m, Some e)
    | (q', None) =>
      (with_changed (with_queues m (<[queue := q']> (queues m))) true, None)
    end
  end.

(** [job.Id = job.next.Id] *)
Definition shareNextId (m : JobManager) (job nx : ptr) : JobManager :=
  with_heap m (set_job (heap m) job
                       (with_Id (with_next (heap m job) (Some nx))
                                (Id (heap m nx)))).

(** The [switch jobType] of [CreateJob]; [s1] and [s2] feed the first
    and the second [NewJob]. [None] is the [default] branch. *)
Definition newJobOfType (m : JobManager) (s1 s2 : JobSeed)
  (jobName : string) (jobType : JobType) (packages : list string)
  : option (JobManager * ptr) :=
  match jobType with
  | DownloadJobType =>
    Some (NewJob m s1 jobName packages DownloadJobType DownloadQueue)
  | InstallJobType =>
    let '(m1, job) :=
      NewJob m s1 jobName packages DownloadJobType DownloadQueue in
    let '(m2, nx) :=
      NewJob m1 s2 jobName packages InstallJobType SystemChangeQueue in
    Some (shareNextId m2 job nx, job)
  | RemoveJobType =>
    Some (NewJob m s1 jobName packages RemoveJobType SystemChangeQueue)
  | UpdateSourceJobType =>
    Some (NewJob m s1 jobName [] UpdateSourceJobType LockQueue)
  | DistUpgradeJobType =>
    Some (NewJob m s1 jobName packages DistUpgradeJobType LockQueue)
  | UpdateJobType =>
    Some (NewJob m s1 jobName packages UpdateJobType SystemChangeQueue)
  | OtherJobType _ => None
  end.

Definition CreateJob (m : JobManager) (s1 s2 : JobSeed) (jobName : string)
  (jobType : JobType) (packages : list string)
  : JobManager * option ptr * option Error :=
  match find m (guest m jobType packages) with
  | Some job =>
    let '(m1, err) := MarkStart m (Id (heap m job)) in (m1, Some job, err)
  | None =>
    match newJobOfType m s1 s2 jobName jobType packages with
    | None => (m, None, Some NotSupportError)
    | Some (m1, job) =>
      let m2 := fst (addJob m1 job) in
      let '(m3, err) := MarkStart m2 (Id (heap m2 job)) in
      (m3, Some job, err)
    end
  end.

(** Modelled from the spec: [StartSystemJob] (section 4.3, Schedule; not
    among the sources) takes the job to Running through
    [TransitionJobState] and hands it to the backend; when the backend
    fails at once the job goes on to Failed. *)
Definition StartSystemJob (m : JobManager) (job : ptr)
  : JobManager * option Error :=
  match TransitionJobState m job RunningStatus with
  | (m1, Some e) => (m1, Some e)
  | (m1, None) =>
    let m2 := with_call m1 (StartCall job) in
    match sysStart (heap m2 job) with
    | None => (m2, None)
    | Some e => (fst (TransitionJobState m2 job FailedStatus), Some e)
    end
  end.

(** *** dispatch *)

(** First loop of [dispatch]: the jobs with EndStatus, queue by queue. *)
Definition endJobs (m : JobManager) (names : list string) : list ptr :=
  flat_map (fun name =>
              match queues m !! name with
              | Some queue =>
                filter (fun job => Status_ (heap m job) = EndStatus)
                       (Jobs queue)
              | None => []
              end) names.

(** Body of the loop over [pendingDeleteJobs]. *)
Definition reapJob (m : JobManager) (job : ptr) : JobManager :=
  let m1 :=
    fst (removeJob m (Id (heap m job)) (queueName (heap m job))) in
  match next (heap m1 job) with
  | None => m1
  | Some nx =>
    let m2 := fst (addJob m1 nx) in
    fst (MarkStart m2 (Id (heap m2 nx)))
  end.

Definition reap (ordReap : list string) (m : JobManager) : JobManager :=
  fold_left reapJob (endJobs m ordReap) m.

(** [len(m.queues[LockQueue].RunningJobs())]; the lock queue is there
    from [NewJobManager] on (Go would dereference nil without it). *)
Definition lockRunning (m : JobManager) : nat :=
  match queues m !! LockQueue with
  | Some queue => length (RunningJobs (heap m) queue)
  | None => 0
  end.

(** Body of the loop over the pending jobs of one queue. *)
Definition startJob (m : JobManager) (job : ptr) : JobManager :=
  let m1 :=
    if bool_decide (Status_ (heap m job) = FailedStatus)
    then fst (MarkStart m (Id (heap m job))) else m in
  fst (StartSystemJob m1 job).

(** Body of the scheduling loop, for the queue called [name]. *)
Definition scheduleQueue (m : JobManager) (name : string) : JobManager :=
  match queues m !! name with
  | None => m
  | Some queue =>
    if negb (String.eqb name LockQueue) && negb (Nat.eqb (lockRunning m) 0)
    then m
    else
      let '(h', jobs) := PendingJobs (heap m) queue in
      fold_left startJob jobs (with_heap m h')
  end.

Definition schedule (ordSched : list string) (m : JobManager)
  : JobManager :=
  fold_left scheduleQueue ordSched m.

(** [if m.changed && m.notify != nil { m.changed = false; m.notify() }] *)
Definition notifyChanged (m : JobManager) : JobManager :=
  if changed m then
    mkJobManager (heap m) (brk m) (queues m) false (S (notified m))
                 (calls m)
  else m.

(** One tick; [ordReap] and [ordSched] are the orders of its two ranges
    over [m.queues]. *)
Definition dispatch (ordReap ordSched : list string) (m : JobManager)
  : JobManager :=
  notifyChanged (schedule ordSched (reap ordReap m)).

End Manager.

(** ** Orderings and well-formedness used in the statements *)

(** Ascending creation time. *)
Definition byTime (h : Heap) (a b : ptr) : Prop :=
  (CreateTime (h a) <= CreateTime (h b))%Z.

Definition notUpdateSource (h : Heap) (job : ptr) : Prop :=
  Typ (h job) <> UpdateSourceJobType.

(** The order the job lists are meant to have: every UpdateSource job
    before every other job, and the other jobs by ascending creation
    time. *)
Definition globalOrder (h : Heap) (a b : ptr) : Prop :=
  Typ (h a) = UpdateSourceJobType
  \/ (Typ (h b) <> UpdateSourceJobType
      /\ (CreateTime (h a) <= CreateTime (h b))%Z).

(** A job [PendingJobs] may start: Ready, or Failed with retries left. *)
Definition candidate (h : Heap) (job : ptr) : bool :=
  match Status_ (h job) with
  | ReadyStatus => true
  | FailedStatus => (0 <? retry (h job))%Z
  | _ => false
  end.

(** A Failed job with retries left: [PendingJobs] takes one retry away. *)
Definition retriable (h : Heap) (job : ptr) : bool :=
  bool_decide (Status_ (h job) = FailedStatus) && (0 <? retry (h job))%Z.


(** The heaps differ in the [retry] of jobs at most. *)
Definition retryOnly (h h' : Heap) : Prop :=
  forall p, h' p = with_retry (h p) (retry (h' p)).

(** The heaps differ in the [Status] and the [retry] of jobs at most. *)
Definition softOnly (h h' : Heap) : Prop :=
  forall p,
    h' p = with_retry (with_Status (h p) (Status_ (h' p))) (retry (h' p)).


(** The test of the loop of [guest] on one job of the list: the job
    itself, or else its [next], is the work asked for. *)
Definition matchesJob (h : Heap) (jobType : JobType) (pList : string)
  (job : ptr) : bool :=
  sameWork h job jobType pList
  || match next (h job) with
     | Some nx => sameWork h nx jobType pList
     | None => false
     end.

(** A job held by one of the queues that [range m.queues] visits. *)
Definition queued (ord : list string) (m : JobManager) (job : ptr) : Prop :=
  job ∈ jobsOf (queues m) ord.

(** States as the manager builds them: [range m.queues] visits every
    queue; a job sits in the queue its [queueName] says; no two queued
    jobs share an [Id] and no [Id] is empty; queued jobs and their
    successors are addresses that [NewJob] has handed out. *)
Definition wf (ord : list string) (m : JobManager) : Prop :=
  map_Forall (fun name _ => name ∈ ord) (queues m)
  /\ map_Forall
       (fun name q => Forall (fun p => queueName (heap m p) = name) (Jobs q))
       (queues m)
  /\ NoDup ((fun p => Id (heap m p)) <$> jobsOf (queues m) ord)
  /\ Forall (fun p => Id (heap m p) <> "") (jobsOf (queues m) ord)
  /\ Forall (fun p => p < brk m
                      /\ forall s, next (heap m p) = Some s -> s < brk m)
            (jobsOf (queues m) ord).

(** The queues hold the same jobs, up to their order. *)
Definition qperm (qs qs' : gmap string JobQueue) : Prop :=
  forall name,
    match qs !! name, qs' !! name with
    | Some q, Some q' =>
      Jobs q' ≡ₚ Jobs q /\ Cap q' = Cap q /\ QName q' = QName q
    | None, None => True
    | _, _ => False
    end.

(** The heaps differ in the [Status] of jobs at most. *)
Definition statusOnly (h h' : Heap) : Prop :=
  forall p, h' p = with_Status (h p) (Status_ (h' p)).

(** ** States used as examples *)

Module Examples.

Definition ord3 : list string :=
  [DownloadQueue; SystemChangeQueue; LockQueue].

Definition seed (id : string) (t : Z) : JobSeed := mkJobSeed id t 3%Z.

Definition afterCreate (ord : list string) (m : JobManager) (s1 s2 : JobSeed)
  (jobType : JobType) (packages : list string) : JobManager :=
  fst (fst (CreateJob ord m s1 s2 "job" jobType packages)).

(** One Download job for foo, created at time 1. *)
Definition downloadFoo : JobManager :=
  afterCreate ord3 NewJobManager (seed "1" 1) (seed "1'" 1)
              DownloadJobType ["foo"].

(** DistUpgrade at 1, UpdateSource at 2, DistUpgrade of x at 3. *)
Definition lockThree : JobManager :=
  afterCreate ord3
    (afterCreate ord3
       (afterCreate ord3 NewJobManager (seed "1" 1) (seed "1'" 1)
                    DistUpgradeJobType [])
       (seed "2" 2) (seed "2'" 2) UpdateSourceJobType [])
    (seed "3" 3) (seed "3'" 3) DistUpgradeJobType ["x"].

(** A lock queue holding an UpdateSource job (address 0, created at 2)
    before a DistUpgrade job (address 1, created at 1); address 2 is a
    DistUpgrade job for x created at 3, in no queue yet. *)
Definition lockHeap : Heap := fun p =>
  match p with
  | 0 => mkJob "2" "update" [] 2 UpdateSourceJobType ReadyStatus true
               LockQueue 3 None
  | 1 => mkJob "1" "upgrade" [] 1 DistUpgradeJobType ReadyStatus true
               LockQueue 3 None
  | _ => mkJob "3" "upgrade" ["x"] 3 DistUpgradeJobType ReadyStatus true
               LockQueue 3 None
  end.

Definition lockQueue : JobQueue := mkJobQueue LockQueue [0; 1] 1.

(** A download queue holding one Running job that is not cancelable. *)
Definition runningFixed : JobManager :=
  mkJobManager
    (fun _ => mkJob "1" "job" ["foo"] 1 DownloadJobType RunningStatus
                    false DownloadQueue 3 None)
    1
    (<[DownloadQueue := mkJobQueue DownloadQueue [0] DownloadQueueCap]>
       (queues NewJobManager))
    false 0 [].

(** Four Download jobs a, b, c, d created at times 1 to 4. *)
Definition fourDownloads : JobManager :=
  afterCreate ord3
    (afterCreate ord3
       (afterCreate ord3
          (afterCreate ord3 NewJobManager (seed "1" 1) (seed "1'" 1)
                       DownloadJobType ["a"])
          (seed "2" 2) (seed "2'" 2) DownloadJobType ["b"])
       (seed "3" 3) (seed "3'" 3) DownloadJobType ["c"])
    (seed "4" 4) (seed "4'" 4) DownloadJobType ["d"].


(** A lock queue with a Running DistUpgrade job (address 0) and a
    download queue with a Ready Download job (address 1). *)
Definition lockBusy : JobManager :=
  mkJobManager
    (fun p => match p with
              | 0 => mkJob "1" "upgrade" [] 1 DistUpgradeJobType RunningStatus
                           true LockQueue 3 None
              | _ => mkJob "2" "job" ["bar"] 2 DownloadJobType ReadyStatus
                           true DownloadQueue 3 None
              end)
    2
    (<[LockQueue := mkJobQueue LockQueue [0] 1]>
       (<[DownloadQueue := mkJobQueue DownloadQueue [1] DownloadQueueCap]>
          (queues NewJobManager)))
    false 0 [].

(** An Install of foo: the Download job at address 0 with the Install job
    at address 1 as its [next]; both have the id 2. *)
Definition installFoo : JobManager :=
  afterCreate ord3 NewJobManager (seed "1" 1) (seed "2" 2)
              InstallJobType ["foo"].

(** The Download job of [installFoo] went Running, Succeed, End. *)
Definition chainEnded : JobManager :=
  fst (TransitionJobState
         (fst (TransitionJobState
                 (fst (TransitionJobState installFoo 0 RunningStatus))
                 0 SucceedStatus))
         0 EndStatus).

(** A download queue holding a Ready job for b (address 1) before a
    Running job for a (address 0). *)
Definition twoDownloads : JobManager :=
  mkJobManager
    (fun p => match p with
              | 0 => mkJob "1" "job" ["a"] 1 DownloadJobType RunningStatus
                           true DownloadQueue 3 None
              | _ => mkJob "2" "job" ["b"] 2 DownloadJobType ReadyStatus
                           true DownloadQueue 3 None
              end)
    2
    (<[DownloadQueue := mkJobQueue DownloadQueue [1; 0] DownloadQueueCap]>
       (queues NewJobManager))
    false 0 [].

(** A backend that starts every job. *)
Definition startOk : Job -> option Error := fun _ => None.

(** A backend whose [Abort] succeeds, and one whose [Abort] fails. *)
Definition abortOk : string -> option Error := fun _ => None.
Definition abortFails : string -> option Error :=
  fun _ => Some (SystemError "abort").

End Examples.

(** Well-formedness of a concrete state: the first four parts are decided
    by evaluation, the last one job by job. *)
Ltac wf_by_evaluation :=
  split; [apply (bool_decide_unpack _); by vm_compute|];
  split; [apply (bool_decide_unpack _); by vm_compute|];
  split; [apply (bool_decide_unpack _); by vm_compute|];
  split; [apply (bool_decide_unpack _); by vm_compute|];
  repeat (apply Forall_cons; split;
          [split; [vm_compute; lia
                  |let s := fresh "s" in
                   intros s; vm_compute; intros [= <-]; lia]|]);
  apply Forall_nil_2.

(** ** Further notions used in the statements *)

(** What [Add] compares: the type and the package fingerprint of a job. *)
Definition workKey (h : Heap) (job : ptr) : JobType * string :=
  (Typ (h job), fingerprint (Packages (h job))).

(** No two jobs of the queue are of the same type and fingerprint. *)
Definition distinctWork (h : Heap) (l : JobQueue) : Prop :=
  NoDup (workKey h <$> Jobs l).

(** The queues have the same names and hold no job they did not hold
    before. *)
Definition qsub (qs qs' : gmap string JobQueue) : Prop :=
  forall name,
    match qs !! name, qs' !! name with
    | Some q, Some q' => Jobs q' ⊆+ Jobs q
    | None, None => True
    | _, _ => False
    end.

(** The heaps agree on what identifies a job and says where it lives; a
    [next] is kept or cleared. *)
Definition keepsIdentity (h h' : Heap) : Prop :=
  forall p,
    Id (h' p) = Id (h p) /\ queueName (h' p) = queueName (h p)
    /\ Typ (h' p) = Typ (h p) /\ Packages (h' p) = Packages (h p)
    /\ CreateTime (h' p) = CreateTime (h p)
    /\ (next (h' p) = next (h p) \/ next (h' p) = None).

(** Between two states, [m.notify] was not called and a set [changed]
    flag was not cleared. *)
Definition flagKept (m m' : JobManager) : Prop :=
  notified m' = notified m /\ (changed m = true -> changed m' = true).

(** The status a Ready job has after [StartSystemJob]: Running, or Failed
    when the backend refuses the job. *)
Definition startOutcome (sysStart : Job -> option Error) (j : Job)
  : Status :=
  match sysStart (with_Status j RunningStatus) with
  | None => RunningStatus
  | Some _ => FailedStatus
  end.

(** The state is well-formed and the successors of the queued jobs are
    as [CreateJob] makes them: jobs outside the queues, with the id of
    their predecessor and no successor of their own, each the successor
    of one queued job only. *)
Definition chained (ord : list string) (m : JobManager) : Prop :=
  wf ord m
  /\ (forall p s,
        queued ord m p -> next (heap m p) = Some s ->
        ~ queued ord m s /\ Id (heap m s) = Id (heap m p)
        /\ next (heap m s) = None)
  /\ (forall p p' s,
        queued ord m p -> queued ord m p' ->
        next (heap m p) = Some s -> next (heap m p') = Some s -> p = p').

(** What has to stay of the jobs below the address [n]: the id, the queue
    name, and the successor unless it is dropped. *)
Definition keepsBelow (n : ptr) (h h' : Heap) : Prop :=
  forall p,
    p < n ->
    Id (h' p) = Id (h p) /\ queueName (h' p) = queueName (h p)
    /\ (next (h' p) = next (h p) \/ next (h' p) = None).

(** The id of the seed is not empty and no queued job has it. *)
Definition freshSeed (ord : list string) (m : JobManager) (s : JobSeed)
  : Prop :=
  seedId s <> "" /\ forall x, queued ord m x -> Id (heap m x) <> seedId s.

Definition with_Cancelable (j : Job) (v : bool) : Job :=
  mkJob (Id j) (Name j) (Packages j) (CreateTime j) (Typ j) (Status_ j)
        v (queueName j) (retry j) (next j).

(** Modelled from the spec: [_UpdateInfo] (section 4.3,
    handleJobProgressInfo; job.go is not among the sources). Of the fields
    a callback carries the model has [Cancelable] and [Status]; a new
    status is routed through [TransitionJobState], which drops an illegal
    one. The result tells whether something of the job changed. *)
Definition UpdateInfo (m : JobManager) (j : ptr) (c : bool) (to : Status)
  : JobManager * bool :=
  let m1 :=
    with_heap m (set_job (heap m) j (with_Cancelable (heap m j) c)) in
  let '(m2, err) := TransitionJobState m1 j to in
  (m2,
   negb (Bool.eqb (Cancelable (heap m j)) c)
   || match err with None => true | Some _ => false end).

(** [handleJobProgressInfo], for a callback with the id [jobId]. *)
Definition handleJobProgressInfo (ord : list string) (m : JobManager)
  (jobId : string) (c : bool) (to : Status) : JobManager :=
  match find ord m jobId with
  | None => m
  | Some j =>
    let '(m1, ch) := UpdateInfo m j c to in
    if ch then with_changed m1 true else m1
  end.

(** The states the manager gets into: from [NewJobManager], by the calls
    of its methods with ids from [NewJob] that are new, by ticks of
    [dispatch] and by callbacks of the backend; each call ranges over the
    map of queues in an order [o] of its own. *)
Inductive reachable (ord : list string) : JobManager -> Prop :=
  | reach_NewJobManager : reachable ord NewJobManager
  | reach_CreateJob m o s1 s2 jobName jobType packages :
      reachable ord m -> o ≡ₚ ord ->
      freshSeed ord m s1 -> freshSeed ord m s2 ->
      reachable ord
        (fst (fst (CreateJob o m s1 s2 jobName jobType packages)))
  | reach_MarkStart m o id :
      reachable ord m -> o ≡ₚ ord -> reachable ord (fst (MarkStart o m id))
  | reach_PauseJob m o sysAbort id :
      reachable ord m -> o ≡ₚ ord ->
      reachable ord (fst (PauseJob o sysAbort m id))
  | reach_CleanJob m o sysAbort id :
      reachable ord m -> o ≡ₚ ord ->
      reachable ord (fst (CleanJob o sysAbort m id))
  | reach_dispatch m o sysStart ordReap ordSched :
      reachable ord m -> o ≡ₚ ord -> ordReap ≡ₚ ord -> ordSched ≡ₚ ord ->
      reachable ord (dispatch o sysStart ordReap ordSched m)
  | reach_progress m o jobId c to :
      reachable ord m -> o ≡ₚ ord ->
      reachable ord (handleJobProgressInfo o m jobId c to).

Ltac chained_by_evaluation :=
  split; [wf_by_evaluation|];
  split;
  [ let p := fresh "p" in
    let s := fresh "s" in
    let Hp := fresh "Hp" in
    let Hs := fresh "Hs" in
    intros p s Hp Hs; unfold queued in Hp; vm_compute in Hp;
    apply list_elem_of_singleton in Hp; subst p;
    vm_compute in Hs; injection Hs as <-;
    split;
    [ let H := fresh "H" in
      unfold queued; vm_compute; intros H;
      apply list_elem_of_singleton in H; discriminate H
    | by vm_compute ]
  | let p := fresh "p" in
    let p' := fresh "p'" in
    let s := fresh "s" in
    let Hp := fresh "Hp" in
    let Hp' := fresh "Hp'" in
    intros p p' s Hp Hp' _ _; unfold queued in Hp, Hp';
    vm_compute in Hp; vm_compute in Hp';
    apply list_elem_of_singleton in Hp; apply list_elem_of_singleton in Hp';
    congruence ].

(** * Properties *)

(** ** The heap *)

Lemma set_job_eq (h : Heap) p j : set_job h p j p = j.
Proof. unfold set_job. by rewrite Nat.eqb_refl. Qed.

Lemma set_job_ne (h : Heap) p q j : q <> p -> set_job h p j q = h q.
Proof.
  intros Hne. unfold set_job.
  destruct (Nat.eqb q p) eqn:E; [|done].
  apply Nat.eqb_eq in E. congruence.
Qed.

(** ** sort.Sort *)

Lemma sift_perm less x l : sift less x l ≡ₚ x :: l.
Proof.
  induction l as [|y ys IH]; simpl; [done|].
  destruct (less x y); [|done].
  rewrite IH. apply Permutation_swap.
Qed.

Lemma sift_fold_perm less l acc :
  fold_left (fun rpre x => sift less x rpre) l acc ≡ₚ l ++ acc.
Proof.
  revert acc. induction l as [|x l IH]; intros acc; simpl; [done|].
  rewrite IH, sift_perm. by rewrite Permutation_middle.
Qed.

Lemma sort_Sort_perm less l : sort_Sort less l ≡ₚ l.
Proof.
  unfold sort_Sort. rewrite <- Permutation_rev, sift_fold_perm.
  by rewrite app_nil_r.
Qed.

Lemma sort_Sort_length less l : length (sort_Sort less l) = length l.
Proof. apply Permutation_length, sort_Sort_perm. Qed.

Lemma sort_Sort_elem less l p : p ∈ sort_Sort less l <-> p ∈ l.
Proof. by rewrite sort_Sort_perm. Qed.

Lemma sift_sorted h x l :
  notUpdateSource h x ->
  StronglySorted (flip (byTime h)) l ->
  StronglySorted (flip (byTime h)) (sift (Less h) x l).
Proof.
  intros Hx. induction 1 as [|y ys Hs IH Hall]; simpl.
  - repeat constructor.
  - unfold Less at 1. rewrite bool_decide_eq_false_2 by done. simpl.
    destruct (Z.ltb_spec (CreateTime (h x)) (CreateTime (h y))) as [Hlt|Hge].
    + constructor; [done|].
      rewrite sift_perm. constructor; [|done].
      unfold flip, byTime. lia.
    + constructor; [by constructor|].
      constructor; [done|].
      eapply Forall_impl; [exact Hall|].
      unfold flip, byTime. intros z Hz. lia.
Qed.

Lemma sift_fold_sorted h l acc :
  Forall (notUpdateSource h) l ->
  StronglySorted (flip (byTime h)) acc ->
  StronglySorted (flip (byTime h))
                 (fold_left (fun rpre x => sift (Less h) x rpre) l acc).
Proof.
  intros Hl. revert acc. induction Hl as [|x l Hx Hl IH]; intros acc Hacc.
  - done.
  - simpl. apply IH. by apply sift_sorted.
Qed.

Lemma StronglySorted_rev_flip {A} (R : A -> A -> Prop) (l : list A) :
  StronglySorted (flip R) l -> StronglySorted R (rev l).
Proof.
  induction 1 as [|x l Hs IH Hall]; simpl; [constructor|].
  apply StronglySorted_app_2; [|done|repeat constructor].
  intros a b Ha Hb. apply list_elem_of_singleton in Hb. subst b.
  apply list_elem_of_In, in_rev, list_elem_of_In in Ha.
  rewrite Forall_forall in Hall. by apply Hall.
Qed.

(** On jobs that are not of type UpdateSource [Less] is the order of the
    creation times, and [sort.Sort] sorts by it. *)
Lemma sort_Sort_sorted h l :
  Forall (notUpdateSource h) l ->
  StronglySorted (byTime h) (sort_Sort (Less h) l).
Proof.
  intros Hl. unfold sort_Sort. apply StronglySorted_rev_flip.
  apply sift_fold_sorted; [done|constructor].
Qed.

(** ** Errors of the manager *)

Lemma TransitionJobState_error m job to m' e :
  TransitionJobState m job to = (m', Some e) ->
  e = NotSupportError /\ m' = m.
Proof.
  unfold TransitionJobState.
  destruct (ValidTransitionJobState _ _); intros [= <- <-]; done.
Qed.

Lemma Raise_error h l id l' e :
  Raise h l id = (l', Some e) -> e = NotFoundError.
Proof.
  unfold Raise. destruct (indexOf h id (Jobs l)); by intros [= <- <-].
Qed.

Lemma MarkStart_error ord m id m' e :
  MarkStart ord m id = (m', Some e) ->
  e = NotFoundError \/ e = NotSupportError.
Proof.
  unfold MarkStart. destruct (find ord m id) as [job|]; [|intros [= <- <-]; auto].
  destruct (bool_decide _).
  - destruct (queues m !! _) as [queue|]; [|intros [= <- <-]; auto].
    destruct (Raise (heap m) queue id) as [queue' err] eqn:ER.
    intros [= <- ->]. left. by eapply Raise_error.
  - destruct (TransitionJobState m job ReadyStatus) as [m1 [e1|]] eqn:ET.
    + intros [= <- <-]. right. by eapply TransitionJobState_error.
    + destruct (queues m1 !! _) as [queue|]; [|intros [= <- <-]; auto].
      destruct (Raise (heap m1) queue id) as [queue' err] eqn:ER.
      intros [= <- ->]. left. by eapply Raise_error.
Qed.

Lemma CreateJob_error ord m s1 s2 jobName jobType packages e :
  snd (CreateJob ord m s1 s2 jobName jobType packages) = Some e ->
  e = NotFoundError \/ e = NotSupportError.
Proof.
  unfold CreateJob. destruct (find ord m _) as [job|].
  - destruct (MarkStart ord m (Id (heap m job))) as [m1 err] eqn:EM. simpl.
    intros ->. by eapply MarkStart_error.
  - destruct (newJobOfType m s1 s2 jobName jobType packages) as [[m1 job]|].
    + destruct (MarkStart ord _ _) as [m3 err] eqn:EM. simpl.
      intros ->. by eapply MarkStart_error.
    + simpl. intros [= <-]. auto.
Qed.

(** C10. [CreateJob] drops the result of the admission. With a Download
    job for foo in the download queue, [CreateJob] of type Install for foo
    finds no duplicate (the types differ) and builds the job; [addJob]
    gives the conflict error of [JobQueue.Add]; [CreateJob] returns that
    job although no queue holds it, with NotFound from [MarkStart]. For
    every input, the error of [CreateJob] is NotFound or NotSupport, never
    the conflict error. *)
Theorem CreateJob_drops_admission_error :
  (let m := Examples.downloadFoo in
   let r := CreateJob Examples.ord3 m (Examples.seed "2" 2)
                      (Examples.seed "3" 3) "job" InstallJobType ["foo"] in
   find Examples.ord3 m (guest Examples.ord3 m InstallJobType ["foo"]) = None
   /\ (exists mb job,
         newJobOfType m (Examples.seed "2" 2) (Examples.seed "3" 3) "job"
                      InstallJobType ["foo"] = Some (mb, job)
         /\ snd (addJob mb job)
            = Some (ExistsJobError DownloadJobType ["foo"])
         /\ snd (fst r) = Some job
         /\ job ∉ jobsOf (queues (fst (fst r))) Examples.ord3)
   /\ snd r = Some NotFoundError
   /\ jobsOf (queues (fst (fst r))) Examples.ord3
      = jobsOf (queues m) Examples.ord3)
  /\ (forall ord m s1 s2 jobName jobType packages t ps,
        snd (CreateJob ord m s1 s2 jobName jobType packages)
        <> Some (ExistsJobError t ps)).
Proof.
  split.
  - cbv zeta. split; [by vm_compute|]. split.
    + eexists _, _. split; [reflexivity|].
      split; [by vm_compute|]. split; [by vm_compute|].
      vm_compute. intros H. by repeat (inversion H as [|? ? ? H']; subst; clear H; rename H' into H).
    + split; by vm_compute.
  - intros ord m s1 s2 jobName jobType packages t ps H.
    apply CreateJob_error in H. by destruct H.
Qed.

(** ** The order of the job lists *)

(** C9. [JobList.Less] does not realise UpdateSource-first-then-CreateTime:
    it answers true both ways for an UpdateSource job and an older job of
    another type. A lock queue sorted in the global order (UpdateSource
    job of time 2, DistUpgrade job of time 1) is no longer sorted after
    [Add] of a DistUpgrade job of time 3, and [List] after three
    [CreateJob] calls (DistUpgrade, UpdateSource, DistUpgrade of x) puts
    a DistUpgrade job before the UpdateSource job. *)
Theorem Less_breaks_UpdateSource_first :
  (Less Examples.lockHeap 0 1 = true /\ Less Examples.lockHeap 1 0 = true)
  /\ (StronglySorted (globalOrder Examples.lockHeap)
                     (Jobs Examples.lockQueue)
      /\ Add Examples.lockHeap Examples.lockQueue 2
         = (with_Jobs Examples.lockQueue [1; 0; 2], None)
      /\ ~ Sorted (globalOrder Examples.lockHeap) [1; 0; 2])
  /\ (let m := Examples.lockThree in
      List_ Examples.ord3 m = [0; 1; 2]
      /\ Typ (heap m 0) = DistUpgradeJobType
      /\ Typ (heap m 1) = UpdateSourceJobType
      /\ ~ Sorted (globalOrder (heap m)) (List_ Examples.ord3 m)).
Proof.
  split; [by vm_compute|]. split.
  - split.
    + repeat constructor.
    + split; [by vm_compute|].
      intros H. apply Sorted_inv in H as [_ H]. apply HdRel_inv in H.
      destruct H as [H|[H _]]; [discriminate H|]. by apply H.
  - cbv zeta. assert (EL : List_ Examples.ord3 Examples.lockThree = [0; 1; 2])
      by by vm_compute.
    rewrite EL. split; [done|]. split; [by vm_compute|].
    split; [by vm_compute|].
    intros H. apply Sorted_inv in H as [_ H]. apply HdRel_inv in H.
    destruct H as [H|[H _]]; [vm_compute in H; discriminate H|].
    apply H. by vm_compute.
Qed.

(** ** Frames: what the operations leave alone *)

Lemma qperm_refl qs : qperm qs qs.
Proof. intros name. by destruct (qs !! name). Qed.

Lemma qperm_trans qs1 qs2 qs3 : qperm qs1 qs2 -> qperm qs2 qs3 -> qperm qs1 qs3.
Proof.
  intros H12 H23 name. specialize (H12 name). specialize (H23 name).
  destruct (qs1 !! name), (qs2 !! name), (qs3 !! name); try done.
  destruct H12 as (P1 & C1 & N1), H23 as (P2 & C2 & N2).
  split; [by rewrite P2|]. split; congruence.
Qed.

Lemma qperm_insert (qs : gmap string JobQueue) name q q' :
  qs !! name = Some q ->
  Jobs q' ≡ₚ Jobs q -> Cap q' = Cap q -> QName q' = QName q ->
  qperm qs (<[name := q']> qs).
Proof.
  intros Hq HP HC HN n. destruct (decide (name = n)) as [->|Hne].
  - rewrite lookup_insert_eq, Hq. done.
  - rewrite lookup_insert_ne by done. by destruct (qs !! n).
Qed.

Lemma qperm_Some (qs qs' : gmap string JobQueue) name q :
  qperm qs qs' -> qs !! name = Some q ->
  exists q', qs' !! name = Some q' /\ Jobs q' ≡ₚ Jobs q /\ Cap q' = Cap q.
Proof.
  intros H Hq. specialize (H name). rewrite Hq in H.
  destruct (qs' !! name) as [q'|]; [|done]. exists q'.
  destruct H as (P & C & _). done.
Qed.

Lemma qperm_Some_inv (qs qs' : gmap string JobQueue) name q' :
  qperm qs qs' -> qs' !! name = Some q' ->
  exists q, qs !! name = Some q /\ Jobs q' ≡ₚ Jobs q /\ Cap q' = Cap q.
Proof.
  intros H Hq. specialize (H name). rewrite Hq in H.
  destruct (qs !! name) as [q|]; [|done]. exists q.
  destruct H as (P & C & _). done.
Qed.

Lemma statusOnly_refl h : statusOnly h h.
Proof. intros p. by destruct (h p). Qed.

Lemma statusOnly_trans h1 h2 h3 :
  statusOnly h1 h2 -> statusOnly h2 h3 -> statusOnly h1 h3.
Proof.
  intros H12 H23 p. rewrite (H23 p) at 1. rewrite (H12 p) at 1. done.
Qed.

Lemma statusOnly_set h p s : statusOnly h (set_job h p (with_Status (h p) s)).
Proof.
  intros q. unfold set_job. destruct (Nat.eqb_spec q p) as [->|Hne].
  - done.
  - by destruct (h q).
Qed.

Lemma statusOnly_fields h h' p :
  statusOnly h h' ->
  Id (h' p) = Id (h p) /\ Typ (h' p) = Typ (h p)
  /\ Packages (h' p) = Packages (h p)
  /\ CreateTime (h' p) = CreateTime (h p)
  /\ queueName (h' p) = queueName (h p)
  /\ next (h' p) = next (h p) /\ retry (h' p) = retry (h p)
  /\ Cancelable (h' p) = Cancelable (h p).
Proof. intros H. rewrite (H p). done. Qed.

Lemma Swap_head_perm (l : list ptr) p : Swap l 0 p ≡ₚ l.
Proof.
  unfold Swap. destruct l as [|x l]; [done|]. simpl.
  destruct p as [|k]; simpl; [done|].
  destruct (l !! k) as [b|] eqn:Hk; [|done]. simpl.
  rewrite insert_take_drop by (by eapply lookup_lt_Some).
  rewrite <- (take_drop_middle l k b Hk) at 3.
  rewrite <- !Permutation_middle. apply Permutation_swap.
Qed.

Lemma Raise_perm h l id l' err :
  Raise h l id = (l', err) ->
  Jobs l' ≡ₚ Jobs l /\ Cap l' = Cap l /\ QName l' = QName l.
Proof.
  unfold Raise. destruct (indexOf h id (Jobs l)); intros [= <- <-]; simpl.
  - split; [apply Swap_head_perm|done].
  - done.
Qed.

Lemma TransitionJobState_frame m job to m' err :
  TransitionJobState m job to = (m', err) ->
  queues m' = queues m /\ brk m' = brk m /\ calls m' = calls m
  /\ notified m' = notified m
  /\ (forall p, p <> job -> heap m' p = heap m p).
Proof.
  unfold TransitionJobState.
  destruct (ValidTransitionJobState _ _); intros [= <- <-]; simpl; [|done].
  repeat split; try done. intros p Hp. by apply set_job_ne.
Qed.

Lemma TransitionJobState_ok m job to m' :
  TransitionJobState m job to = (m', None) ->
  ValidTransitionJobState (Status_ (heap m job)) to = true
  /\ Status_ (heap m' job) = to
  /\ (to <> EndStatus -> statusOnly (heap m) (heap m')).
Proof.
  unfold TransitionJobState.
  destruct (ValidTransitionJobState _ _) eqn:EV; intros [= <-]; simpl.
  split; [done|]. rewrite set_job_eq. split; [done|].
  intros Hto. rewrite bool_decide_eq_false_2 by done. simpl.
  apply statusOnly_set.
Qed.

Lemma MarkStart_frame ord m id m' err :
  MarkStart ord m id = (m', err) ->
  qperm (queues m) (queues m') /\ statusOnly (heap m) (heap m')
  /\ brk m' = brk m /\ calls m' = calls m
  /\ (forall p, Status_ (heap m' p) = Status_ (heap m p)
                \/ (find ord m id = Some p
                    /\ Status_ (heap m' p) = ReadyStatus
                    /\ ValidTransitionJobState (Status_ (heap m p))
                                               ReadyStatus = true)).
Proof.
  unfold MarkStart. destruct (find ord m id) as [job|] eqn:EF.
  2:{ intros [= <- <-]. repeat split; auto using qperm_refl, statusOnly_refl. }
  destruct (bool_decide (Status_ (heap m job) = ReadyStatus)) eqn:ER.
  - destruct (queues m !! queueName (heap m job)) as [queue|] eqn:EQ.
    2:{ intros [= <- <-]. repeat split; auto using qperm_refl, statusOnly_refl. }
    destruct (Raise (heap m) queue id) as [queue' e] eqn:ERa.
    intros [= <- <-]. simpl. apply Raise_perm in ERa as (P & C & N).
    repeat split; auto using statusOnly_refl. by eapply qperm_insert.
  - destruct (TransitionJobState m job ReadyStatus) as [m1 [e1|]] eqn:ET.
    + apply TransitionJobState_error in ET as [-> ->]. intros [= <- <-].
      repeat split; auto using qperm_refl, statusOnly_refl.
    + pose proof (TransitionJobState_frame _ _ _ _ _ ET)
        as (Hq & Hb & Hc & _ & Hoth).
      apply TransitionJobState_ok in ET as (HV & HS & HSO).
      specialize (HSO ltac:(done)).
      assert (Hst : forall p,
                 Status_ (heap m1 p) = Status_ (heap m p)
                 \/ (Some job = Some p /\ Status_ (heap m1 p) = ReadyStatus
                     /\ ValidTransitionJobState (Status_ (heap m p))
                                                ReadyStatus = true)).
      { intros p. destruct (decide (p = job)) as [->|Hne]; [by right|].
        left. by rewrite Hoth. }
      destruct (queues m1 !! queueName (heap m1 job)) as [queue|] eqn:EQ.
      2:{ intros [= <- <-]. rewrite Hq. repeat split; auto using qperm_refl. }
      destruct (Raise (heap m1) queue id) as [queue' e] eqn:ERa.
      intros [= <- <-]. simpl. apply Raise_perm in ERa as (P & C & N).
      repeat split; auto. rewrite <- Hq. by eapply qperm_insert.
Qed.

Lemma addJob_frame m j m' err :
  addJob m j = (m', err) ->
  heap m' = heap m /\ brk m' = brk m /\ calls m' = calls m.
Proof.
  unfold addJob. destruct (queues m !! _) as [queue|]; [|by intros [= <- <-]].
  destruct (Add (heap m) queue j) as [queue' [e|]]; by intros [= <- <-].
Qed.

Lemma find_none_Forall {A} (f : A -> bool) (l : list A) :
  (forall x, x ∈ l -> f x = false) -> List.find f l = None.
Proof.
  induction l as [|x l IH]; intros H; simpl; [done|].
  rewrite (H x) by apply list_elem_of_here.
  apply IH. intros y Hy. apply H. by apply list_elem_of_further.
Qed.

Lemma addJob_admits m j q :
  queues m !! queueName (heap m j) = Some q ->
  (forall p, p ∈ Jobs q ->
     sameWork (heap m) p (Typ (heap m j))
              (fingerprint (Packages (heap m j))) = false) ->
  exists q', addJob m j
             = (with_changed
                  (with_queues m (<[queueName (heap m j) := q']> (queues m)))
                  true, None)
             /\ Jobs q' ≡ₚ j :: Jobs q /\ Cap q' = Cap q
             /\ QName q' = QName q.
Proof.
  intros Hq Hno. unfold addJob, Add. rewrite Hq.
  rewrite find_none_Forall by done.
  eexists. split; [reflexivity|]. simpl.
  rewrite sort_Sort_perm. split; [|done].
  by rewrite <- Permutation_cons_append.
Qed.

(** ** CreateJob: the Install chain *)

(** C6. [CreateJob] of type Install, when the scan for a duplicate finds
    nothing, builds a primary job of type Download assigned to the
    download queue whose [next] is a job of type Install assigned to the
    system change queue; both carry the packages of the call and the same
    [Id]. When no job of the download queue is a Download of the same
    packages, the primary is admitted: the download queue holds it. *)
Theorem CreateJob_Install_chain ord m s1 s2 jobName packages :
  find ord m (guest ord m InstallJobType packages) = None ->
  exists m' job nx err,
    CreateJob ord m s1 s2 jobName InstallJobType packages
    = (m', Some job, err)
    /\ Typ (heap m' job) = DownloadJobType
    /\ queueName (heap m' job) = DownloadQueue
    /\ Packages (heap m' job) = packages
    /\ next (heap m' job) = Some nx
    /\ Typ (heap m' nx) = InstallJobType
    /\ queueName (heap m' nx) = SystemChangeQueue
    /\ Packages (heap m' nx) = packages
    /\ Id (heap m' job) = Id (heap m' nx)
    /\ (forall q,
          queues m !! DownloadQueue = Some q ->
          (forall p, p ∈ Jobs q ->
             p < brk m
             /\ sameWork (heap m) p DownloadJobType (fingerprint packages)
                = false) ->
          exists q', queues m' !! DownloadQueue = Some q'
                     /\ Jobs q' ≡ₚ job :: Jobs q).
Proof.
  intros Hfind. unfold CreateJob. rewrite Hfind. simpl.
  set (J1 := mkJob (seedId s1) jobName packages (seedTime s1)
                   DownloadJobType ReadyStatus true DownloadQueue
                   (seedRetry s1) None).
  set (J2 := mkJob (seedId s2) jobName packages (seedTime s2)
                   InstallJobType ReadyStatus true SystemChangeQueue
                   (seedRetry s2) None).
  remember (shareNextId _ _ _) as mb eqn:Emb.
  assert (Hjob : heap mb (brk m)
                 = with_Id (with_next J1 (Some (S (brk m)))) (seedId s2)).
  { subst mb. unfold shareNextId. simpl. rewrite !set_job_eq.
    rewrite set_job_ne by lia. by rewrite set_job_eq. }
  assert (Hnx : heap mb (S (brk m)) = J2).
  { subst mb. unfold shareNextId. simpl. rewrite set_job_ne by lia.
    by rewrite set_job_eq. }
  assert (Hold : forall p, p < brk m -> heap mb p = heap m p).
  { intros p Hp. subst mb. unfold shareNextId. simpl.
    by rewrite !set_job_ne by lia. }
  assert (Hqs : queues mb = queues m) by by subst mb.
  clear Emb.
  destruct (addJob mb (brk m)) as [ma ea] eqn:EA.
  pose proof (addJob_frame _ _ _ _ EA) as (Hh & _ & _). simpl.
  destruct (MarkStart ord ma (Id (heap ma (brk m)))) as [m3 err] eqn:EM.
  pose proof (MarkStart_frame _ _ _ _ _ EM) as (HQ & HS & _).
  exists m3, (brk m), (S (brk m)), err. split; [done|].
  pose proof (statusOnly_fields _ _ (brk m) HS) as (E1 & E2 & E3 & _ & E5 & E6 & _).
  pose proof (statusOnly_fields _ _ (S (brk m)) HS) as (F1 & F2 & F3 & _ & F5 & _).
  rewrite E1, E2, E3, E5, E6, F1, F2, F3, F5, Hh, Hjob, Hnx. simpl.
  repeat (split; [done|]).
  intros q Hq Hno.
  destruct (addJob_admits mb (brk m) q) as (q' & EA' & P & _).
  { rewrite Hjob, Hqs. exact Hq. }
  { intros p Hp. destruct (Hno p Hp) as [Hlt Hsw].
    rewrite Hjob. simpl. rewrite <- Hsw. unfold sameWork.
    by rewrite (Hold p Hlt). }
  rewrite EA in EA'. injection EA' as ->.
  destruct (qperm_Some _ _ DownloadQueue q' HQ) as (q3 & E3' & P3 & _).
  { simpl. rewrite Hjob. simpl. by rewrite lookup_insert_eq. }
  exists q3. split; [done|]. by rewrite P3.
Qed.

Lemma CreateJob_Install_chain_witness :
  find Examples.ord3 NewJobManager
       (guest Examples.ord3 NewJobManager InstallJobType ["foo"]) = None
  /\ exists m' job nx,
       fst (CreateJob Examples.ord3 NewJobManager (Examples.seed "1" 1)
                      (Examples.seed "2" 2) "job" InstallJobType ["foo"])
       = (m', Some job)
       /\ next (heap m' job) = Some nx
       /\ Id (heap m' job) = Id (heap m' nx).
Proof.
  split; [by vm_compute|].
  destruct (CreateJob_Install_chain Examples.ord3 NewJobManager
              (Examples.seed "1" 1) (Examples.seed "2" 2) "job" ["foo"])
    as (m' & job & nx & err & E & _ & _ & _ & Hn & _ & _ & _ & Hid & _).
  - by vm_compute.
  - exists m', job, nx. rewrite E. done.
Defined.

(** ** PauseJob *)

(** C7, as the code has it. For a job found by id, [PauseJob] gives
    NotSupport and changes nothing when the transition to Paused is not
    valid. Otherwise it calls the backend's [Abort] whatever the status
    (Ready or Running) and whatever [Cancelable] says; when [Abort] gives
    an error, that error is returned and no job changes; when [Abort]
    succeeds, the job becomes Paused. *)
Theorem PauseJob_aborts_then_pauses ord sysAbort m jobId job :
  find ord m jobId = Some job ->
  let r := PauseJob ord sysAbort m jobId in
  (ValidTransitionJobState (Status_ (heap m job)) PausedStatus = false ->
   r = (m, Some NotSupportError))
  /\ (ValidTransitionJobState (Status_ (heap m job)) PausedStatus = true ->
      calls (fst r) = AbortCall (Id (heap m job)) :: calls m
      /\ (forall e, sysAbort (Id (heap m job)) = Some e ->
            snd r = Some e /\ heap (fst r) = heap m)
      /\ (sysAbort (Id (heap m job)) = None ->
            snd r = None /\ Status_ (heap (fst r) job) = PausedStatus)).
Proof.
  intros Hfind r. subst r. unfold PauseJob. rewrite Hfind. split.
  - by intros ->.
  - intros HV. rewrite HV. simpl.
    destruct (sysAbort (Id (heap m job))) as [e|] eqn:EA.
    + split; [done|]. split; [|done]. by intros e' [= <-].
    + unfold TransitionJobState. simpl. rewrite HV. simpl.
      rewrite set_job_eq. split; [done|]. split; [done|]. done.
Qed.

Lemma PauseJob_aborts_then_pauses_witness :
  find Examples.ord3 Examples.downloadFoo "1" = Some 0
  /\ ValidTransitionJobState
       (Status_ (heap Examples.downloadFoo 0)) PausedStatus = true
  /\ calls (fst (PauseJob Examples.ord3 Examples.abortOk
                          Examples.downloadFoo "1"))
     = AbortCall (Id (heap Examples.downloadFoo 0))
       :: calls Examples.downloadFoo.
Proof.
  split; [by vm_compute|]. split; [by vm_compute|].
  destruct (PauseJob_aborts_then_pauses Examples.ord3 Examples.abortOk
              Examples.downloadFoo "1" 0) as [_ H].
  - by vm_compute.
  - apply H. by vm_compute.
Defined.

(** C7 as stated fails. A Ready job is paused through the backend: the
    call of [Abort] is on record, and when [Abort] fails the Ready job is
    not paused. A Running job that is not cancelable is paused as soon as
    [Abort] succeeds. *)
Lemma PauseJob_counterexample :
  (Status_ (heap Examples.downloadFoo 0) = ReadyStatus
   /\ find Examples.ord3 Examples.downloadFoo "1" = Some 0
   /\ calls (fst (PauseJob Examples.ord3 Examples.abortOk
                           Examples.downloadFoo "1")) = [AbortCall "1"]
   /\ snd (PauseJob Examples.ord3 Examples.abortFails
                    Examples.downloadFoo "1") = Some (SystemError "abort")
   /\ Status_ (heap (fst (PauseJob Examples.ord3 Examples.abortFails
                                   Examples.downloadFoo "1")) 0)
      = ReadyStatus)
  /\ (Status_ (heap Examples.runningFixed 0) = RunningStatus
      /\ Cancelable (heap Examples.runningFixed 0) = false
      /\ find Examples.ord3 Examples.runningFixed "1" = Some 0
      /\ PauseJob Examples.ord3 Examples.abortOk Examples.runningFixed "1"
         = (fst (PauseJob Examples.ord3 Examples.abortOk
                          Examples.runningFixed "1"), None)
      /\ Status_ (heap (fst (PauseJob Examples.ord3 Examples.abortOk
                                      Examples.runningFixed "1")) 0)
         = PausedStatus).
Proof.
  split.
  - repeat split; by vm_compute.
  - repeat split; by vm_compute.
Qed.

(** ** PendingJobs *)

Lemma filter_ext_elem {A} (P Q : A -> Prop)
  `{forall x, Decision (P x)} `{forall x, Decision (Q x)} (l : list A) :
  (forall x, x ∈ l -> P x <-> Q x) -> filter P l = filter Q l.
Proof.
  induction l as [|x l IH]; intros HPQ; [done|].
  rewrite !filter_cons.
  assert (Hx : P x <-> Q x) by (apply HPQ, list_elem_of_here).
  rewrite IH by (intros y Hy; apply HPQ; by apply list_elem_of_further).
  destruct (decide (P x)), (decide (Q x)); tauto.
Qed.

Lemma countPending_min space k :
  countPending space k
  = Z.to_nat (Z.min (Z.max space 0) (Z.of_nat k)).
Proof.
  revert space. induction k as [|k IH]; intros space; simpl.
  - lia.
  - destruct (Z.ltb_spec 0 space) as [Hpos|Hneg].
    + rewrite IH. lia.
    + lia.
Qed.

Lemma scanPending_spec h jobs nr ready :
  NoDup jobs ->
  exists h',
    scanPending h jobs nr ready
    = (h',
       (nr + Z.of_nat
               (length (filter (fun p => Status_ (h p) = RunningStatus)
                               jobs)))%Z,
       ready ++ filter (fun p => candidate h p = true) jobs)
    /\ forall p,
         h' p = if bool_decide (p ∈ jobs) && retriable h p
                then with_retry (h p) (retry (h p) - 1)%Z else h p.
Proof.
  intros Hnd. revert h nr ready.
  induction Hnd as [|job rest Hnotin Hnd IH]; intros h nr ready.
  - exists h. split.
    + simpl. by rewrite Z.add_0_r, app_nil_r.
    + intros p. rewrite bool_decide_eq_false_2; [done|].
      apply not_elem_of_nil.
  - assert (Hkeep : forall h1 : Heap,
               (forall p, p <> job -> h1 p = h p) ->
               filter (fun p => Status_ (h1 p) = RunningStatus) rest
               = filter (fun p => Status_ (h p) = RunningStatus) rest
               /\ filter (fun p => candidate h1 p = true) rest
                  = filter (fun p => candidate h p = true) rest).
    { intros h1 Hh1. split; apply filter_ext_elem; intros x Hx;
        unfold candidate; rewrite Hh1; try done; by intros ->. }
    assert (Hmem : forall p, p <> job ->
               bool_decide (p ∈ job :: rest) = bool_decide (p ∈ rest)).
    { intros p Hp. apply bool_decide_ext. rewrite elem_of_cons. tauto. }
    assert (Hjob : bool_decide (job ∈ job :: rest) = true).
    { apply bool_decide_eq_true_2, list_elem_of_here. }
    assert (Hjob' : bool_decide (job ∈ rest) = false).
    { by apply bool_decide_eq_false_2. }
    assert (Hcand : candidate h job = true -> forall l0,
               l0 ++ filter (fun p => candidate h p = true) (job :: rest)
               = (l0 ++ [job]) ++ filter (fun p => candidate h p = true) rest).
    { intros Hc l0. rewrite filter_cons_True by done.
      by rewrite <- app_assoc. }
    assert (Hnocand : candidate h job = false ->
               filter (fun p => candidate h p = true) (job :: rest)
               = filter (fun p => candidate h p = true) rest).
    { intros Hc. apply filter_cons_False. by rewrite Hc. }
    assert (Hnorun : Status_ (h job) <> RunningStatus ->
               filter (fun p => Status_ (h p) = RunningStatus) (job :: rest)
               = filter (fun p => Status_ (h p) = RunningStatus) rest).
    { intros Hc. by apply filter_cons_False. }
    assert (Hother : forall (h' : Heap),
               retriable h job = false ->
               (forall p, h' p = if bool_decide (p ∈ rest) && retriable h p
                                 then with_retry (h p) (retry (h p) - 1)%Z
                                 else h p) ->
               forall p, h' p = if bool_decide (p ∈ job :: rest)
                                   && retriable h p
                                then with_retry (h p) (retry (h p) - 1)%Z
                                else h p).
    { intros h' Hr Hh' p. rewrite Hh'.
      destruct (decide (p = job)) as [->|Hne].
      - by rewrite Hjob, Hjob', Hr.
      - by rewrite Hmem. }
    cbn [scanPending].
    destruct (Status_ (h job)) eqn:ES.
    + (* Ready *)
      destruct (IH h nr (ready ++ [job])) as (h' & E & Hh').
      exists h'. rewrite E, Hnorun by congruence.
      rewrite Hcand by (unfold candidate; by rewrite ES).
      split; [done|]. apply Hother; [|done].
      unfold retriable. by rewrite ES.
    + (* Running *)
      destruct (IH h (nr + 1)%Z ready) as (h' & E & Hh').
      exists h'. rewrite E, Hnocand by (unfold candidate; by rewrite ES).
      assert (Hrun : filter (fun p => Status_ (h p) = RunningStatus)
                            (job :: rest)
                     = job :: filter (fun p => Status_ (h p) = RunningStatus)
                                     rest)
        by by apply filter_cons_True.
      rewrite Hrun.
      split; [f_equal; f_equal; simpl; lia|]. apply Hother; [|done].
      unfold retriable. by rewrite ES.
    + (* Failed *)
      destruct (Z.ltb_spec 0 (retry (h job))) as [Hpos|Hneg].
      * set (h1 := set_job h job (with_retry (h job) (retry (h job) - 1)%Z)).
        assert (Hh1 : forall p, p <> job -> h1 p = h p).
        { intros p Hp. by apply set_job_ne. }
        destruct (Hkeep h1 Hh1) as [ER EC].
        destruct (IH h1 nr (ready ++ [job])) as (h' & E & Hh').
        exists h'. rewrite E, ER, EC, Hnorun by congruence.
        rewrite Hcand.
        2:{ unfold candidate. rewrite ES. by apply Z.ltb_lt. }
        split; [done|]. intros p. rewrite Hh'.
        destruct (decide (p = job)) as [->|Hne].
        -- rewrite Hjob, Hjob'. simpl. subst h1. rewrite set_job_eq.
           unfold retriable. rewrite ES. simpl.
           destruct (Z.ltb_spec 0 (retry (h job))); [done|lia].
        -- rewrite Hmem by done. unfold retriable. by rewrite Hh1.
      * destruct (IH h nr ready) as (h' & E & Hh').
        assert (Hlt : (0 <? retry (h job))%Z = false) by by apply Z.ltb_ge.
        exists h'. rewrite E, Hnorun by congruence.
        rewrite Hnocand by (unfold candidate; by rewrite ES).
        split; [done|]. apply Hother; [|done].
        unfold retriable. by rewrite ES, Hlt.
    + destruct (IH h nr ready) as (h' & E & Hh').
      exists h'. rewrite E, Hnorun by congruence.
      rewrite Hnocand by (unfold candidate; by rewrite ES).
      split; [done|]. apply Hother; [|done].
      unfold retriable. by rewrite ES.
    + destruct (IH h nr ready) as (h' & E & Hh').
      exists h'. rewrite E, Hnorun by congruence.
      rewrite Hnocand by (unfold candidate; by rewrite ES).
      split; [done|]. apply Hother; [|done].
      unfold retriable. by rewrite ES.
    + destruct (IH h nr ready) as (h' & E & Hh').
      exists h'. rewrite E, Hnorun by congruence.
      rewrite Hnocand by (unfold candidate; by rewrite ES).
      split; [done|]. apply Hother; [|done].
      unfold retriable. by rewrite ES.
Qed.

Lemma PendingJobs_unfold h l :
  NoDup (Jobs l) ->
  exists h',
    PendingJobs h l
    = (h',
       sort_Sort (Less h')
         (take (Z.to_nat
                  (Z.min (Z.max (Cap l - Z.of_nat (length (RunningJobs h l))) 0)
                         (Z.of_nat
                            (length (filter (fun p => candidate h p = true)
                                            (Jobs l))))))
               (filter (fun p => candidate h p = true) (Jobs l))))
    /\ forall p,
         h' p = if bool_decide (p ∈ Jobs l) && retriable h p
                then with_retry (h p) (retry (h p) - 1)%Z else h p.
Proof.
  intros Hnd. unfold PendingJobs.
  destruct (scanPending_spec h (Jobs l) 0%Z [] Hnd) as (h' & E & Hh').
  exists h'. rewrite E. split; [|done].
  rewrite countPending_min. simpl. unfold RunningJobs. done.
Qed.











(** ** The scheduling phase of dispatch *)

Lemma softOnly_refl h : softOnly h h.
Proof. intros p. by destruct (h p). Qed.

Lemma softOnly_trans h1 h2 h3 :
  softOnly h1 h2 -> softOnly h2 h3 -> softOnly h1 h3.
Proof.
  intros H12 H23 p. rewrite (H23 p) at 1. rewrite (H12 p) at 1. done.
Qed.

Lemma statusOnly_soft h h' : statusOnly h h' -> softOnly h h'.
Proof.
  intros H p. specialize (H p). destruct (h p), (h' p).
  unfold with_Status, with_retry in *. simpl in *. congruence.
Qed.

Lemma retryOnly_soft h h' : retryOnly h h' -> softOnly h h'.
Proof.
  intros H p. specialize (H p). destruct (h p), (h' p).
  unfold with_Status, with_retry in *. simpl in *. congruence.
Qed.

Lemma softOnly_fields h h' p :
  softOnly h h' ->
  Id (h' p) = Id (h p) /\ Typ (h' p) = Typ (h p)
  /\ Packages (h' p) = Packages (h p)
  /\ CreateTime (h' p) = CreateTime (h p)
  /\ queueName (h' p) = queueName (h p)
  /\ next (h' p) = next (h p)
  /\ Cancelable (h' p) = Cancelable (h p).
Proof. intros H. rewrite (H p). done. Qed.

Lemma retryOnly_refl h : retryOnly h h.
Proof. intros p. by destruct (h p). Qed.

Lemma retryOnly_trans h1 h2 h3 :
  retryOnly h1 h2 -> retryOnly h2 h3 -> retryOnly h1 h3.
Proof.
  intros H12 H23 p. rewrite (H23 p) at 1. rewrite (H12 p) at 1. done.
Qed.

Lemma retryOnly_set h p v : retryOnly h (set_job h p (with_retry (h p) v)).
Proof.
  intros q. unfold set_job. destruct (Nat.eqb_spec q p) as [->|Hne].
  - done.
  - by destruct (h q).
Qed.

Lemma retryOnly_Status h h' p : retryOnly h h' -> Status_ (h' p) = Status_ (h p).
Proof. intros H. by rewrite (H p). Qed.

(** Without any assumption on the queue: the scan changes [retry] fields
    only, and what it collects are jobs of the queue. *)
Lemma scanPending_frame h jobs nr ready h' nr' ready' :
  scanPending h jobs nr ready = (h', nr', ready') ->
  retryOnly h h' /\ forall p, p ∈ ready' -> p ∈ ready \/ p ∈ jobs.
Proof.
  revert h nr ready. induction jobs as [|job rest IH]; intros h nr ready.
  - intros [= <- <- <-]. split; [apply retryOnly_refl|auto].
  - cbn [scanPending]. intros E.
    assert (Hgo : forall h1 nr1 ready1,
               scanPending h1 rest nr1 ready1 = (h', nr', ready') ->
               retryOnly h h1 ->
               (forall p, p ∈ ready1 -> p ∈ ready \/ p = job) ->
               retryOnly h h'
               /\ forall p, p ∈ ready' -> p ∈ ready \/ p ∈ job :: rest).
    { intros h1 nr1 ready1 E1 Hr Hsub. destruct (IH _ _ _ E1) as [Hr' Hin].
      split; [by eapply retryOnly_trans|].
      intros p Hp. rewrite elem_of_cons.
      destruct (Hin p Hp) as [Hp'|Hp']; [|tauto].
      destruct (Hsub p Hp'); tauto. }
    assert (Happ : forall p, p ∈ ready ++ [job] -> p ∈ ready \/ p = job).
    { intros p. rewrite elem_of_app, list_elem_of_singleton. tauto. }
    destruct (Status_ (h job));
      try (eapply Hgo; [exact E|apply retryOnly_refl|auto]; fail).
    destruct (0 <? retry (h job))%Z.
    + eapply Hgo; [exact E|apply retryOnly_set|done].
    + eapply Hgo; [exact E|apply retryOnly_refl|auto].
Qed.

Lemma PendingJobs_frame h l h' jobs :
  PendingJobs h l = (h', jobs) ->
  retryOnly h h' /\ forall p, p ∈ jobs -> p ∈ Jobs l.
Proof.
  unfold PendingJobs.
  destruct (scanPending h (Jobs l) 0%Z []) as [[h1 nr] ready] eqn:E.
  intros [= <- <-]. apply scanPending_frame in E as [Hr Hin].
  split; [done|]. intros p Hp. apply sort_Sort_elem in Hp.
  apply elem_of_take in Hp as (i & Hi & _).
  apply list_elem_of_lookup_2 in Hi.
  destruct (Hin p Hi) as [H|H]; [|done]. by apply not_elem_of_nil in H.
Qed.

Lemma StartSystemJob_frame sysStart m job m' err :
  StartSystemJob sysStart m job = (m', err) ->
  queues m' = queues m /\ brk m' = brk m
  /\ statusOnly (heap m) (heap m')
  /\ (forall p, p <> job -> heap m' p = heap m p)
  /\ (forall p, Status_ (heap m p) = RunningStatus ->
                Status_ (heap m' p) = RunningStatus).
Proof.
  unfold StartSystemJob.
  destruct (TransitionJobState m job RunningStatus) as [m1 [e1|]] eqn:E1.
  - apply TransitionJobState_error in E1 as [-> ->]. intros [= <- <-].
    repeat split; auto using statusOnly_refl.
  - pose proof (TransitionJobState_frame _ _ _ _ _ E1)
      as (Hq1 & Hb1 & _ & _ & Ho1).
    apply TransitionJobState_ok in E1 as (HV1 & HS1 & HSO1).
    specialize (HSO1 ltac:(done)).
    assert (Hrun1 : forall p, Status_ (heap m p) = RunningStatus ->
                              Status_ (heap m1 p) = RunningStatus).
    { intros p Hp. destruct (decide (p = job)) as [->|Hne]; [done|].
      by rewrite Ho1. }
    destruct (sysStart _) as [e|].
    + destruct (TransitionJobState (with_call m1 (StartCall job)) job
                                   FailedStatus) as [m2 e2] eqn:E2.
      intros [= <- <-]. simpl.
      pose proof (TransitionJobState_frame _ _ _ _ _ E2)
        as (Hq2 & Hb2 & _ & _ & Ho2). simpl in *.
      assert (HSO2 : statusOnly (heap m1) (heap m2)).
      { destruct e2 as [e2|].
        - apply TransitionJobState_error in E2 as [_ ->].
          apply statusOnly_refl.
        - by apply TransitionJobState_ok in E2 as (_ & _ & H); apply H. }
      split; [congruence|]. split; [congruence|].
      split; [by eapply statusOnly_trans|].
      split.
      * intros p Hp. by rewrite Ho2, Ho1.
      * intros p Hp. destruct (decide (p = job)) as [->|Hne].
        -- rewrite Hp in HV1. done.
        -- rewrite Ho2, Ho1; done.
    + intros [= <- <-]. simpl. repeat split; auto.
Qed.

Lemma MarkStart_running ord m id m' err p :
  MarkStart ord m id = (m', err) ->
  (Status_ (heap m p) = RunningStatus <-> Status_ (heap m' p) = RunningStatus).
Proof.
  intros E. apply MarkStart_frame in E as (_ & _ & _ & _ & H).
  destruct (H p) as [->|(_ & HR & HV)]; [done|].
  rewrite HR. split; [|done]. intros Hp. rewrite Hp in HV. done.
Qed.

Lemma startJob_frame ord sysStart m job :
  let m' := startJob ord sysStart m job in
  qperm (queues m) (queues m') /\ brk m' = brk m
  /\ statusOnly (heap m) (heap m')
  /\ (forall p, Status_ (heap m p) = RunningStatus ->
                Status_ (heap m' p) = RunningStatus)
  /\ (forall p, Status_ (heap m' p) = RunningStatus ->
                Status_ (heap m p) = RunningStatus \/ p = job).
Proof.
  unfold startJob.
  set (m1 := if bool_decide _ then _ else m).
  assert (H1 : qperm (queues m) (queues m1) /\ brk m1 = brk m
               /\ statusOnly (heap m) (heap m1)
               /\ forall p, Status_ (heap m p) = RunningStatus
                            <-> Status_ (heap m1 p) = RunningStatus).
  { subst m1. destruct (bool_decide _).
    - destruct (MarkStart ord m (Id (heap m job))) as [mm e] eqn:EM. simpl.
      pose proof (MarkStart_frame _ _ _ _ _ EM) as (HQ & HS & Hb & _).
      split; [done|]. split; [done|]. split; [done|].
      intros p. by eapply MarkStart_running.
    - split; [apply qperm_refl|]. split; [done|].
      split; [apply statusOnly_refl|done]. }
  destruct H1 as (HQ & Hb & HS & Hrun).
  destruct (StartSystemJob sysStart m1 job) as [m2 e2] eqn:E2. simpl.
  apply StartSystemJob_frame in E2 as (Hq2 & Hb2 & HS2 & Ho2 & Hrun2).
  split; [by rewrite Hq2|]. split; [congruence|].
  split; [by eapply statusOnly_trans|]. split.
  - intros p Hp. by apply Hrun2, Hrun.
  - intros p Hp. destruct (decide (p = job)) as [->|Hne]; [by right|].
    left. apply Hrun. by rewrite <- Ho2.
Qed.

Lemma startJobs_frame ord sysStart jobs m :
  let m' := fold_left (startJob ord sysStart) jobs m in
  qperm (queues m) (queues m') /\ brk m' = brk m
  /\ statusOnly (heap m) (heap m')
  /\ (forall p, Status_ (heap m p) = RunningStatus ->
                Status_ (heap m' p) = RunningStatus)
  /\ (forall p, Status_ (heap m' p) = RunningStatus ->
                Status_ (heap m p) = RunningStatus \/ p ∈ jobs).
Proof.
  revert m. induction jobs as [|job jobs IH]; intros m; simpl.
  - repeat split; auto using qperm_refl, statusOnly_refl.
  - destruct (startJob_frame ord sysStart m job) as (HQ & Hb & HS & Hk & Hn).
    destruct (IH (startJob ord sysStart m job))
      as (HQ' & Hb' & HS' & Hk' & Hn').
    split; [by eapply qperm_trans|]. split; [congruence|].
    split; [by eapply statusOnly_trans|]. split; [auto|].
    intros p Hp. rewrite elem_of_cons.
    destruct (Hn' p Hp) as [H|H]; [|tauto].
    destruct (Hn p H); tauto.
Qed.

(** One round of the scheduling loop: queues keep their jobs, jobs keep
    everything but [Status] and [retry], Running jobs stay Running, and a
    job that becomes Running is a job of the queue of this round, which
    was not skipped. *)
Lemma scheduleQueue_frame ord sysStart m name :
  let m' := scheduleQueue ord sysStart m name in
  qperm (queues m) (queues m') /\ brk m' = brk m
  /\ softOnly (heap m) (heap m')
  /\ (forall p, Status_ (heap m p) = RunningStatus ->
                Status_ (heap m' p) = RunningStatus)
  /\ (forall p, Status_ (heap m' p) = RunningStatus ->
                Status_ (heap m p) = RunningStatus
                \/ exists q, queues m !! name = Some q /\ p ∈ Jobs q
                             /\ (name = LockQueue \/ lockRunning m = 0)).
Proof.
  unfold scheduleQueue.
  destruct (queues m !! name) as [queue|] eqn:EQ.
  2:{ repeat split; auto using qperm_refl, softOnly_refl. }
  destruct (negb (name =? LockQueue)%string && negb (lockRunning m =? 0))
    eqn:Eskip.
  { repeat split; auto using qperm_refl, softOnly_refl. }
  assert (Hrun : name = LockQueue \/ lockRunning m = 0).
  { apply andb_false_iff in Eskip as [H|H]; apply negb_false_iff in H.
    - left. by apply String.eqb_eq.
    - right. by apply Nat.eqb_eq. }
  destruct (PendingJobs (heap m) queue) as [h' jobs] eqn:EP.
  apply PendingJobs_frame in EP as [Hr Hin].
  destruct (startJobs_frame ord sysStart jobs (with_heap m h'))
    as (HQ & Hb & HS & Hk & Hn). simpl in *.
  split; [done|]. split; [done|].
  split.
  { eapply softOnly_trans; [by apply retryOnly_soft|by apply statusOnly_soft]. }
  split.
  - intros p Hp. apply Hk. by rewrite (retryOnly_Status _ _ p Hr).
  - intros p Hp. destruct (Hn p Hp) as [H|H].
    + left. by rewrite <- (retryOnly_Status _ _ p Hr).
    + right. exists queue. auto.
Qed.

Lemma removeJob_frame m jobId queue m' err :
  removeJob m jobId queue = (m', err) ->
  heap m' = heap m /\ brk m' = brk m /\ calls m' = calls m.
Proof.
  unfold removeJob. destruct (queues m !! queue) as [q|]; [|by intros [= <- <-]].
  destruct (Remove (heap m) q jobId) as [q' [e|]]; by intros [= <- <-].
Qed.

Lemma reapJob_heap ord m job :
  statusOnly (heap m) (heap (reapJob ord m job))
  /\ forall p, Status_ (heap m p) = RunningStatus
               <-> Status_ (heap (reapJob ord m job) p) = RunningStatus.
Proof.
  unfold reapJob.
  destruct (removeJob m _ _) as [m1 e1] eqn:E1. simpl.
  apply removeJob_frame in E1 as (Hh1 & _).
  destruct (next (heap m1 job)) as [nx|].
  - destruct (addJob m1 nx) as [m2 e2] eqn:E2. simpl.
    apply addJob_frame in E2 as (Hh2 & _).
    destruct (MarkStart ord m2 (Id (heap m2 nx))) as [m3 e3] eqn:E3. simpl.
    pose proof (MarkStart_frame _ _ _ _ _ E3) as (_ & HS & _).
    rewrite Hh2, Hh1 in HS. split; [done|]. intros p.
    rewrite <- (MarkStart_running _ _ _ _ _ p E3). by rewrite Hh2, Hh1.
  - rewrite Hh1. split; [apply statusOnly_refl|done].
Qed.

Lemma reap_heap ord ordReap m :
  statusOnly (heap m) (heap (reap ord ordReap m))
  /\ forall p, Status_ (heap m p) = RunningStatus
               <-> Status_ (heap (reap ord ordReap m) p) = RunningStatus.
Proof.
  unfold reap. generalize (endJobs m ordReap) as jobs. intros jobs.
  revert m. induction jobs as [|job jobs IH]; intros m; simpl.
  - split; [apply statusOnly_refl|done].
  - destruct (reapJob_heap ord m job) as [HS Hr].
    destruct (IH (reapJob ord m job)) as [HS' Hr'].
    split; [by eapply statusOnly_trans|]. intros p. by rewrite Hr, Hr'.
Qed.

Lemma lockRunning_pos m lockq r :
  queues m !! LockQueue = Some lockq -> r ∈ Jobs lockq ->
  Status_ (heap m r) = RunningStatus -> lockRunning m <> 0.
Proof.
  intros Hq Hin HS. unfold lockRunning, RunningJobs. rewrite Hq.
  assert (Hr : r ∈ filter (fun job => Status_ (heap m job) = RunningStatus)
                          (Jobs lockq)) by by apply list_elem_of_filter.
  destruct (filter _ _); [by apply not_elem_of_nil in Hr|done].
Qed.

Lemma schedule_locked ord sysStart names m lockq r :
  queues m !! LockQueue = Some lockq -> r ∈ Jobs lockq ->
  Status_ (heap m r) = RunningStatus ->
  let m' := schedule ord sysStart names m in
  qperm (queues m) (queues m')
  /\ (forall p, Status_ (heap m p) = RunningStatus ->
                Status_ (heap m' p) = RunningStatus)
  /\ (forall p, Status_ (heap m' p) = RunningStatus ->
                Status_ (heap m p) = RunningStatus \/ p ∈ Jobs lockq).
Proof.
  revert m lockq. induction names as [|name names IH];
    intros m lockq Hq Hin HS; simpl.
  - split; [apply qperm_refl|auto].
  - destruct (scheduleQueue_frame ord sysStart m name)
      as (HQ & _ & _ & Hk & Hn).
    set (m2 := scheduleQueue ord sysStart m name) in *.
    destruct (qperm_Some _ _ LockQueue lockq HQ Hq) as (lockq2 & Hq2 & P2 & _).
    destruct (IH m2 lockq2 Hq2) as (HQ' & Hk' & Hn').
    { by rewrite P2. }
    { by apply Hk. }
    split; [by eapply qperm_trans|]. split; [auto|].
    intros p Hp. destruct (Hn' p Hp) as [H|H].
    + destruct (Hn p H) as [H'|(q & Eq & Hpq & [->|H0])]; [by left| |].
      * right. congruence.
      * by apply (lockRunning_pos m lockq r) in H0.
    + right. by rewrite <- P2.
Qed.

Lemma filter_length_perm {A} (P Q : A -> Prop)
  `{forall x, Decision (P x)} `{forall x, Decision (Q x)} (l l' : list A) :
  l' ≡ₚ l -> (forall x, x ∈ l -> P x <-> Q x) ->
  length (filter Q l') = length (filter P l).
Proof.
  intros HP HPQ. rewrite HP. f_equal. symmetry. by apply filter_ext_elem.
Qed.

(** ** Lock-queue exclusion *)

(** C1. In a dispatch tick, when the lock queue holds a Running job at the
    start of the scheduling phase (that is, after the reap phase), a job
    that is Running at the end of the tick was Running before the tick or
    is a job of the lock queue. So every other queue, sharing no job with
    the lock queue, keeps its jobs, none of them turns Running, and its
    count of Running jobs at the end of the tick is the one at the start
    of the scheduling phase. *)
Theorem dispatch_lock_exclusion ord sysStart ordReap ordSched m lockq r :
  let m0 := reap ord ordReap m in
  let m1 := dispatch ord sysStart ordReap ordSched m in
  queues m0 !! LockQueue = Some lockq ->
  r ∈ Jobs lockq ->
  Status_ (heap m0 r) = RunningStatus ->
  (forall p, Status_ (heap m1 p) = RunningStatus ->
             Status_ (heap m p) = RunningStatus \/ p ∈ Jobs lockq)
  /\ (forall name q,
        name <> LockQueue ->
        queues m0 !! name = Some q ->
        (forall p, p ∈ Jobs q -> p ∉ Jobs lockq) ->
        exists q',
          queues m1 !! name = Some q'
          /\ Jobs q' ≡ₚ Jobs q
          /\ (forall p, p ∈ Jobs q' ->
                Status_ (heap m1 p) = RunningStatus ->
                Status_ (heap m p) = RunningStatus)
          /\ length (RunningJobs (heap m1) q')
             = length (RunningJobs (heap m0) q)).
Proof.
  intros m0 m1 Hq Hin HS.
  destruct (schedule_locked ord sysStart ordSched m0 lockq r Hq Hin HS)
    as (HQ & Hk & Hn).
  destruct (reap_heap ord ordReap m) as [_ Hreap]. fold m0 in Hreap.
  assert (Hh : heap m1 = heap (schedule ord sysStart ordSched m0)).
  { subst m1. unfold dispatch, notifyChanged. by destruct (changed _). }
  assert (Hqs : queues m1 = queues (schedule ord sysStart ordSched m0)).
  { subst m1. unfold dispatch, notifyChanged. by destruct (changed _). }
  rewrite Hh, Hqs. split.
  - intros p Hp. destruct (Hn p Hp) as [H|H]; [left|by right].
    by apply Hreap.
  - intros name q Hname Hqn Hdisj.
    destruct (qperm_Some _ _ name q HQ Hqn) as (q' & Hq' & P & _).
    exists q'. split; [done|]. split; [done|]. split.
    + intros p Hp HR. rewrite P in Hp.
      destruct (Hn p HR) as [H|H]; [by apply Hreap|].
      by destruct (Hdisj p Hp).
    + unfold RunningJobs. apply filter_length_perm; [done|].
      intros p Hp. split; [apply Hk|].
      intros HR. destruct (Hn p HR) as [H|H]; [done|].
      by destruct (Hdisj p Hp).
Qed.

Lemma dispatch_lock_exclusion_witness :
  queues (reap Examples.ord3 Examples.ord3 Examples.lockBusy) !! LockQueue
  = Some (mkJobQueue LockQueue [0] 1)
  /\ 0 ∈ Jobs (mkJobQueue LockQueue [0] 1)
  /\ Status_ (heap (reap Examples.ord3 Examples.ord3 Examples.lockBusy) 0)
     = RunningStatus
  /\ forall p,
       Status_ (heap (dispatch Examples.ord3 Examples.startOk Examples.ord3
                               Examples.ord3 Examples.lockBusy) p)
       = RunningStatus ->
       Status_ (heap Examples.lockBusy p) = RunningStatus
       \/ p ∈ Jobs (mkJobQueue LockQueue [0] 1).
Proof.
  assert (H1 : queues (reap Examples.ord3 Examples.ord3 Examples.lockBusy)
               !! LockQueue = Some (mkJobQueue LockQueue [0] 1))
    by by vm_compute.
  assert (H2 : 0 ∈ Jobs (mkJobQueue LockQueue [0] 1))
    by apply list_elem_of_here.
  assert (H3 : Status_ (heap (reap Examples.ord3 Examples.ord3
                                   Examples.lockBusy) 0) = RunningStatus)
    by by vm_compute.
  split; [exact H1|]. split; [exact H2|]. split; [exact H3|].
  exact (proj1 (dispatch_lock_exclusion Examples.ord3 Examples.startOk
                  Examples.ord3 Examples.ord3 Examples.lockBusy
                  (mkJobQueue LockQueue [0] 1) 0 H1 H2 H3)).
Defined.

(** ** The reap phase of dispatch *)

Lemma Remove_members h l id l' err p :
  Remove h l id = (l', err) -> p ∈ Jobs l' -> p ∈ Jobs l.
Proof.
  unfold Remove. destruct (indexOf h id (Jobs l)) as [i|];
    intros [= <- <-]; simpl; [|done].
  rewrite sort_Sort_elem, elem_of_app. intros [H|H].
  - apply elem_of_take in H as (k & Hk & _). by eapply list_elem_of_lookup_2.
  - apply list_elem_of_lookup_1 in H as [k Hk]. rewrite lookup_drop in Hk.
    by eapply list_elem_of_lookup_2.
Qed.

Lemma removeJob_members m jobId queue name q' p :
  queues (fst (removeJob m jobId queue)) !! name = Some q' -> p ∈ Jobs q' ->
  exists q, queues m !! name = Some q /\ p ∈ Jobs q.
Proof.
  unfold removeJob. destruct (queues m !! queue) as [q0|] eqn:E0; [|eauto].
  destruct (Remove (heap m) q0 jobId) as [q1 [e|]] eqn:ER; [eauto|]. simpl.
  destruct (decide (queue = name)) as [->|Hne].
  - rewrite lookup_insert_eq. intros [= <-] Hp. exists q0. split; [done|].
    by eapply Remove_members.
  - rewrite lookup_insert_ne by done. eauto.
Qed.

Lemma Add_members h l j l' err p :
  Add h l j = (l', err) -> p ∈ Jobs l' -> p ∈ Jobs l \/ p = j.
Proof.
  unfold Add. destruct (List.find _ _); intros [= <- <-]; simpl; [auto|].
  rewrite sort_Sort_elem, elem_of_app, list_elem_of_singleton. tauto.
Qed.

Lemma addJob_members m j name q' p :
  queues (fst (addJob m j)) !! name = Some q' -> p ∈ Jobs q' ->
  (exists q, queues m !! name = Some q /\ p ∈ Jobs q) \/ p = j.
Proof.
  unfold addJob.
  destruct (queues m !! queueName (heap m j)) as [q0|] eqn:E0; [|eauto].
  destruct (Add (heap m) q0 j) as [q1 [e|]] eqn:EA; [eauto|]. simpl.
  destruct (decide (queueName (heap m j) = name)) as [Heq|Hne].
  - rewrite Heq, lookup_insert_eq. intros [= <-] Hp.
    destruct (Add_members _ _ _ _ _ _ EA Hp); [left|by right].
    exists q0. by rewrite <- Heq.
  - rewrite lookup_insert_ne by done. eauto.
Qed.

Lemma qperm_members qs qs' name q' p :
  qperm qs qs' -> qs' !! name = Some q' -> p ∈ Jobs q' ->
  exists q, qs !! name = Some q /\ p ∈ Jobs q.
Proof.
  intros HQ Hq Hp. destruct (qperm_Some_inv _ _ _ _ HQ Hq) as (q & E & P & _).
  exists q. by rewrite <- P.
Qed.

Lemma reapJob_members ord m job name q' p :
  queues (reapJob ord m job) !! name = Some q' -> p ∈ Jobs q' ->
  (exists q, queues m !! name = Some q /\ p ∈ Jobs q)
  \/ next (heap m job) = Some p.
Proof.
  unfold reapJob.
  destruct (removeJob m _ _) as [m1 e1] eqn:E1. simpl.
  pose proof (removeJob_frame _ _ _ _ _ E1) as (Hh1 & _).
  assert (Hrm : forall q1, queues m1 !! name = Some q1 -> p ∈ Jobs q1 ->
                  exists q, queues m !! name = Some q /\ p ∈ Jobs q).
  { intros q1 Hq1 Hp.
    eapply (removeJob_members m _ _ name q1 p); by rewrite ?E1. }
  rewrite Hh1. destruct (next (heap m job)) as [nx|]; [|eauto].
  destruct (addJob m1 nx) as [m2 e2] eqn:E2. simpl.
  destruct (MarkStart ord m2 (Id (heap m2 nx))) as [m3 e3] eqn:E3. simpl.
  apply MarkStart_frame in E3 as (HQ & _).
  intros Hq' Hp.
  destruct (qperm_members _ _ _ _ _ HQ Hq' Hp) as (q2 & Hq2 & Hp2).
  assert (Hadd : (exists q1, queues m1 !! name = Some q1 /\ p ∈ Jobs q1)
                 \/ p = nx).
  { apply (addJob_members m1 nx name q2 p); [by rewrite E2|done]. }
  destruct Hadd as [(q1 & Hq1 & Hp1)| ->]; [left; eauto|by right].
Qed.

(** The reap phase puts into the queues nothing but successors of the
    jobs it reaps, which are queued jobs in EndStatus. *)
Lemma reapJobs_members ord jobs m name q' p :
  queues (fold_left (reapJob ord) jobs m) !! name = Some q' -> p ∈ Jobs q' ->
  (exists q, queues m !! name = Some q /\ p ∈ Jobs q)
  \/ exists pred, pred ∈ jobs /\ next (heap m pred) = Some p.
Proof.
  revert m. induction jobs as [|job jobs IH]; intros m; simpl; [eauto|].
  intros Hq' Hp. destruct (IH _ Hq' Hp) as [(q1 & Hq1 & Hp1)|(pred & Hin & Hn)].
  - destruct (reapJob_members _ _ _ _ _ _ Hq1 Hp1) as [H|H]; [by left|].
    right. exists job. split; [apply list_elem_of_here|done].
  - right. exists pred. split; [by apply list_elem_of_further|].
    destruct (reapJob_heap ord m job) as [HS _].
    destruct (statusOnly_fields _ _ pred HS) as (_ & _ & _ & _ & _ & Hnx & _).
    by rewrite <- Hnx.
Qed.

Lemma endJobs_spec m names p :
  p ∈ endJobs m names <->
  exists name q, name ∈ names /\ queues m !! name = Some q /\ p ∈ Jobs q
                 /\ Status_ (heap m p) = EndStatus.
Proof.
  unfold endJobs. rewrite list_elem_of_In, in_flat_map. split.
  - intros (name & Hname & Hp). apply list_elem_of_In in Hname.
    destruct (queues m !! name) as [q|] eqn:E; [|by apply in_nil in Hp].
    apply list_elem_of_In, list_elem_of_filter in Hp as [HS Hp]. eauto 10.
  - intros (name & q & Hname & E & Hp & HS). exists name.
    split; [by apply list_elem_of_In|]. rewrite E.
    by apply list_elem_of_In, list_elem_of_filter.
Qed.

Lemma schedule_frame ord sysStart names m :
  qperm (queues m) (queues (schedule ord sysStart names m))
  /\ softOnly (heap m) (heap (schedule ord sysStart names m)).
Proof.
  revert m. induction names as [|name names IH]; intros m; simpl.
  - split; [apply qperm_refl|apply softOnly_refl].
  - destruct (scheduleQueue_frame ord sysStart m name) as (HQ & _ & HS & _).
    destruct (IH (scheduleQueue ord sysStart m name)) as [HQ' HS'].
    split; [by eapply qperm_trans|by eapply softOnly_trans].
Qed.

(** A dispatch tick puts into the queues nothing but the successors of
    the queued jobs it found in EndStatus. *)
Lemma dispatch_members ord sysStart ordReap ordSched m name q' s :
  queues (dispatch ord sysStart ordReap ordSched m) !! name = Some q' ->
  s ∈ Jobs q' ->
  (exists q, queues m !! name = Some q /\ s ∈ Jobs q)
  \/ exists pred, pred ∈ endJobs m ordReap /\ next (heap m pred) = Some s.
Proof.
  intros Hq' Hs.
  assert (Hqs : queues (dispatch ord sysStart ordReap ordSched m)
                = queues (schedule ord sysStart ordSched (reap ord ordReap m))).
  { unfold dispatch, notifyChanged. by destruct (changed _). }
  rewrite Hqs in Hq'.
  destruct (schedule_frame ord sysStart ordSched (reap ord ordReap m))
    as [HQ _].
  destruct (qperm_members _ _ _ _ _ HQ Hq' Hs) as (q1 & Hq1 & Hs1).
  by eapply reapJobs_members.
Qed.

(** ** CleanJob *)

Lemma CleanJob_ends ord sysAbort m jobId job :
  find ord m jobId = Some job ->
  Status_ (heap m job) <> EndStatus ->
  let r := CleanJob ord sysAbort m jobId in
  snd r = None
  /\ Status_ (heap (fst r) job) = EndStatus
  /\ next (heap (fst r) job) = None
  /\ queues (fst r) = queues m
  /\ (forall p, p <> job -> heap (fst r) p = heap m p).
Proof.
  intros Hfind HS. unfold CleanJob. rewrite Hfind.
  set (m1 := if _ && _ then _ else m).
  assert (H1 : queues m1 = queues m
               /\ Status_ (heap m1 job) <> EndStatus
               /\ forall p, p <> job -> heap m1 p = heap m p).
  { subst m1. destruct (bool_decide_reflect
                          (Status_ (heap m job) = RunningStatus)) as [HR|HR];
      simpl; [|done].
    destruct (Cancelable (heap m job)); [|done].
    unfold PauseJob. rewrite Hfind, HR. simpl.
    destruct (sysAbort _); simpl; [by rewrite HR|].
    unfold TransitionJobState. simpl. rewrite HR. simpl.
    rewrite set_job_eq. split; [done|]. split; [done|].
    intros p Hp. by apply set_job_ne. }
  destruct H1 as (Hq1 & HS1 & Ho1).
  assert (HV : ValidTransitionJobState (Status_ (heap m1 job)) EndStatus
               = true) by by destruct (Status_ (heap m1 job)).
  rewrite HV. unfold TransitionJobState. simpl.
  rewrite !set_job_eq. simpl. rewrite HV. simpl. rewrite !set_job_eq.
  split; [done|]. split; [done|].
  split; [by destruct (negb (bool_decide _))|]. split; [done|].
  intros p Hp. rewrite !set_job_ne by done. by apply Ho1.
Qed.

(** C8. For a job found by id: when it is Running and Cancelable,
    [CleanJob] first calls [PauseJob], which reaches the backend's [Abort]
    and leaves the job Paused when [Abort] succeeds. Then, from any status
    other than End (the statuses from which End is a valid transition),
    [CleanJob] returns no error and leaves the job in EndStatus with its
    [next] cleared, the queues as they were. In a later dispatch tick a job
    enters a queue only as the successor of another queued job in
    EndStatus: the cleaned job hands nothing on. *)
Theorem CleanJob_abandons_successor ord sysAbort m jobId job :
  find ord m jobId = Some job ->
  let r := CleanJob ord sysAbort m jobId in
  (Status_ (heap m job) = RunningStatus ->
   Cancelable (heap m job) = true ->
   calls (fst r) = AbortCall (Id (heap m job)) :: calls m
   /\ (sysAbort (Id (heap m job)) = None ->
       Status_ (heap (fst (PauseJob ord sysAbort m jobId)) job)
       = PausedStatus))
  /\ (Status_ (heap m job) <> EndStatus ->
      snd r = None
      /\ Status_ (heap (fst r) job) = EndStatus
      /\ next (heap (fst r) job) = None
      /\ queues (fst r) = queues m
      /\ forall sysStart ordReap ordSched name q' s,
           queues (dispatch ord sysStart ordReap ordSched (fst r)) !! name
           = Some q' ->
           s ∈ Jobs q' ->
           (exists q, queues m !! name = Some q /\ s ∈ Jobs q)
           \/ exists pred,
                pred <> job /\ pred ∈ endJobs (fst r) ordReap
                /\ next (heap (fst r) pred) = Some s).
Proof.
  intros Hfind r. split.
  - intros HR HC. subst r. unfold CleanJob, PauseJob.
    rewrite Hfind, HR, HC. simpl.
    destruct (sysAbort (Id (heap m job))) as [e|] eqn:EA; simpl.
    + rewrite HR. simpl. unfold TransitionJobState. simpl.
      rewrite set_job_eq. simpl. rewrite HR. simpl. done.
    + unfold TransitionJobState. simpl. rewrite HR. simpl.
      rewrite !set_job_eq. simpl. rewrite !set_job_eq. simpl.
      split; [done|]. done.
  - intros HS.
    destruct (CleanJob_ends ord sysAbort m jobId job Hfind HS)
      as (He & HE & Hn & Hq & Ho).
    fold r in He, HE, Hn, Hq, Ho.
    split; [done|]. split; [done|]. split; [done|]. split; [done|].
    intros sysStart ordReap ordSched name q' s Hq' Hs.
    destruct (dispatch_members _ _ _ _ _ _ _ _ Hq' Hs)
      as [(q & Eq & Hsq)|(pred & Hpred & Hnx)].
    + left. exists q. by rewrite <- Hq.
    + right. exists pred. split; [|done].
      intros ->. rewrite Hn in Hnx. done.
Qed.

Lemma CleanJob_abandons_successor_witness :
  find Examples.ord3 Examples.installFoo "2" = Some 0
  /\ next (heap Examples.installFoo 0) = Some 1
  /\ next (heap (fst (CleanJob Examples.ord3 Examples.abortOk
                               Examples.installFoo "2")) 0) = None.
Proof.
  assert (Hf : find Examples.ord3 Examples.installFoo "2" = Some 0)
    by by vm_compute.
  split; [exact Hf|]. split; [by vm_compute|].
  destruct (CleanJob_abandons_successor Examples.ord3 Examples.abortOk
              Examples.installFoo "2" 0 Hf) as [_ H].
  apply H. by vm_compute.
Defined.

(** ** Finding jobs in well-formed states *)

Lemma jobsOf_spec (qs : gmap string JobQueue) names p :
  p ∈ jobsOf qs names <->
  exists name q, name ∈ names /\ qs !! name = Some q /\ p ∈ Jobs q.
Proof.
  unfold jobsOf. rewrite list_elem_of_In, in_flat_map. split.
  - intros (name & Hname & Hp). apply list_elem_of_In in Hname.
    destruct (qs !! name) as [q|] eqn:E; [|by apply in_nil in Hp].
    apply list_elem_of_In in Hp. eauto.
  - intros (name & q & Hname & E & Hp). exists name.
    split; [by apply list_elem_of_In|]. rewrite E. by apply list_elem_of_In.
Qed.

Lemma Find_Some h l id p :
  Find h l id = Some p -> p ∈ Jobs l /\ Id (h p) = id.
Proof.
  unfold Find. intros H. apply find_some in H as [Hin Hid].
  split; [by apply list_elem_of_In|]. by apply String.eqb_eq.
Qed.

Lemma Find_None h l id p :
  Find h l id = None -> p ∈ Jobs l -> Id (h p) <> id.
Proof.
  unfold Find. intros H Hin Hid.
  apply list_elem_of_In in Hin. apply (find_none _ _ H) in Hin.
  apply String.eqb_neq in Hin. done.
Qed.

Lemma findIn_Some h (qs : gmap string JobQueue) names id p :
  findIn h qs names id = Some p ->
  p ∈ jobsOf qs names /\ Id (h p) = id.
Proof.
  induction names as [|name names IH]; simpl; [done|].
  rewrite elem_of_app.
  destruct (qs !! name) as [q|] eqn:E.
  - destruct (Find h q id) as [x|] eqn:EF.
    + intros [= ->]. apply Find_Some in EF as [Hin Hid]. auto.
    + intros H. destruct (IH H). auto.
  - intros H. destruct (IH H). auto.
Qed.

Lemma findIn_None h (qs : gmap string JobQueue) names id p :
  findIn h qs names id = None -> p ∈ jobsOf qs names -> Id (h p) <> id.
Proof.
  induction names as [|name names IH]; simpl.
  - intros _ H. by apply not_elem_of_nil in H.
  - rewrite elem_of_app. destruct (qs !! name) as [q|] eqn:E.
    + destruct (Find h q id) as [x|] eqn:EF; [done|].
      intros H [Hin|Hin]; [by eapply Find_None|by apply IH].
    + intros H [Hin|Hin]; [by apply not_elem_of_nil in Hin|by apply IH].
Qed.

Lemma find_unique ord m id p :
  queued ord m p -> Id (heap m p) = id ->
  (forall x, queued ord m x -> Id (heap m x) = id -> x = p) ->
  find ord m id = Some p.
Proof.
  intros Hq Hid Huniq. unfold find.
  destruct (findIn (heap m) (queues m) ord id) as [x|] eqn:E.
  - apply findIn_Some in E as [Hx Hidx]. f_equal. by apply Huniq.
  - by destruct (findIn_None _ _ _ _ _ E Hq).
Qed.

Lemma NoDup_fmap_eq {A B} (f : A -> B) (l : list A) x y :
  NoDup (f <$> l) -> x ∈ l -> y ∈ l -> f x = f y -> x = y.
Proof.
  induction l as [|a l IH]; simpl.
  - intros _ H. by apply not_elem_of_nil in H.
  - rewrite NoDup_cons, !elem_of_cons. intros [Hnotin Hnd] Hx Hy Hf.
    destruct Hx as [->|Hx], Hy as [->|Hy]; auto.
    + destruct Hnotin. rewrite Hf. by apply list_elem_of_fmap_2.
    + destruct Hnotin. rewrite <- Hf. by apply list_elem_of_fmap_2.
Qed.

Lemma indexOf_Some h id l i :
  indexOf h id l = Some i -> exists x, l !! i = Some x /\ Id (h x) = id.
Proof.
  revert i. induction l as [|a l IH]; intros i; simpl; [done|].
  destruct (String.eqb_spec (Id (h a)) id) as [Heq|Hne].
  - intros [= <-]. eauto.
  - destruct (indexOf h id l) as [k|]; [|done]. intros [= <-].
    destruct (IH k eq_refl) as (x & Hx & Hid). eauto.
Qed.

Lemma indexOf_None h id l x :
  indexOf h id l = None -> x ∈ l -> Id (h x) <> id.
Proof.
  induction l as [|a l IH]; simpl.
  - intros _ H. by apply not_elem_of_nil in H.
  - destruct (String.eqb_spec (Id (h a)) id) as [Heq|Hne]; [done|].
    destruct (indexOf h id l); [done|].
    intros _. rewrite elem_of_cons. intros [->|Hx]; auto.
Qed.

Lemma indexOf_unique h id l p :
  p ∈ l -> Id (h p) = id ->
  (forall x, x ∈ l -> Id (h x) = id -> x = p) ->
  exists i, indexOf h id l = Some i /\ l !! i = Some p.
Proof.
  intros Hin Hid Huniq. destruct (indexOf h id l) as [i|] eqn:E.
  - destruct (indexOf_Some _ _ _ _ E) as (x & Hx & Hidx).
    exists i. split; [done|]. rewrite Hx. f_equal. apply Huniq; [|done].
    by eapply list_elem_of_lookup_2.
  - by destruct (indexOf_None _ _ _ _ E Hin).
Qed.

Lemma wf_names ord m name q :
  wf ord m -> queues m !! name = Some q -> name ∈ ord.
Proof. intros (H & _) Hq. by apply (map_Forall_lookup_1 _ _ _ _ H Hq). Qed.

Lemma wf_home ord m name q p :
  wf ord m -> queues m !! name = Some q -> p ∈ Jobs q ->
  queueName (heap m p) = name.
Proof.
  intros (_ & H & _) Hq Hp.
  pose proof (map_Forall_lookup_1 _ _ _ _ H Hq) as HF. simpl in HF.
  rewrite Forall_forall in HF. by apply HF.
Qed.

Lemma wf_ids ord m x y :
  wf ord m -> queued ord m x -> queued ord m y ->
  Id (heap m x) = Id (heap m y) -> x = y.
Proof.
  intros (_ & _ & H & _) Hx Hy Hid.
  by apply (NoDup_fmap_eq (fun p => Id (heap m p)) _ x y H).
Qed.

Lemma wf_id_nonempty ord m x :
  wf ord m -> queued ord m x -> Id (heap m x) <> "".
Proof.
  intros (_ & _ & _ & H & _) Hx. rewrite Forall_forall in H. by apply H.
Qed.

Lemma wf_bounds ord m x :
  wf ord m -> queued ord m x ->
  x < brk m /\ forall s, next (heap m x) = Some s -> s < brk m.
Proof.
  intros (_ & _ & _ & _ & H) Hx. rewrite Forall_forall in H. by apply H.
Qed.

Lemma wf_queued ord m name q p :
  wf ord m -> queues m !! name = Some q -> p ∈ Jobs q -> queued ord m p.
Proof.
  intros Hwf Hq Hp. apply jobsOf_spec. exists name, q.
  split; [by eapply wf_names|done].
Qed.

Lemma wf_find ord m p :
  wf ord m -> queued ord m p -> find ord m (Id (heap m p)) = Some p.
Proof.
  intros Hwf Hq. apply find_unique; [done|done|].
  intros x Hx Hid. by eapply wf_ids.
Qed.

Lemma NoDup_flat_map {A B} (f : A -> list B) (l : list A) a :
  NoDup (flat_map f l) -> a ∈ l -> NoDup (f a).
Proof.
  induction l as [|b l IH]; simpl.
  - intros _ H. by apply not_elem_of_nil in H.
  - rewrite NoDup_app, elem_of_cons. intros (H1 & _ & H2) [->|Ha]; auto.
Qed.

Lemma wf_NoDup ord m name q :
  wf ord m -> queues m !! name = Some q -> NoDup (Jobs q).
Proof.
  intros Hwf Hq. pose proof (wf_names _ _ _ _ Hwf Hq) as Hname.
  destruct Hwf as (_ & _ & H & _). apply NoDup_fmap_1 in H.
  unfold jobsOf in H.
  pose proof (NoDup_flat_map _ _ name H Hname) as Hnd.
  cbv beta in Hnd. by rewrite Hq in Hnd.
Qed.

(** ** The promotion of a successor *)

Lemma removeJob_exec m id queue q i :
  queues m !! queue = Some q ->
  indexOf (heap m) id (Jobs q) = Some i ->
  removeJob m id queue
  = (with_changed
       (with_queues m
          (<[queue := with_Jobs q
                        (sort_Sort (Less (heap m))
                           (take i (Jobs q) ++ drop (S i) (Jobs q)))]>
             (queues m)))
       true,
     None).
Proof. intros Hq Hi. unfold removeJob, Remove. by rewrite Hq, Hi. Qed.

Lemma MarkStart_exec_ready ord m id job q :
  find ord m id = Some job ->
  Status_ (heap m job) = ReadyStatus ->
  queues m !! queueName (heap m job) = Some q ->
  MarkStart ord m id
  = (with_queues m
       (<[queueName (heap m job) := fst (Raise (heap m) q id)]> (queues m)),
     snd (Raise (heap m) q id)).
Proof.
  intros Hf HS Hq. unfold MarkStart. rewrite Hf.
  rewrite bool_decide_eq_true_2 by done. rewrite Hq.
  by destruct (Raise (heap m) q id).
Qed.

Lemma take_drop_without {A} (l : list A) i p x :
  NoDup l -> l !! i = Some p ->
  x ∈ take i l ++ drop (S i) l <-> x ∈ l /\ x <> p.
Proof.
  intros Hnd Hi. rewrite <- (take_drop_middle l i p Hi) in Hnd.
  rewrite <- (take_drop_middle l i p Hi) at 3.
  apply NoDup_app in Hnd as (_ & Hdisj & Hnd).
  apply NoDup_cons in Hnd as [Hp _].
  rewrite !elem_of_app, elem_of_cons. split.
  - intros [H|H]; (split; [tauto|]); intros ->.
    + apply (Hdisj p H), list_elem_of_here.
    + done.
  - intros [[H|[->|H]] Hne]; tauto.
Qed.


Lemma PauseJob_queues ord sysAbort m id :
  queues (fst (PauseJob ord sysAbort m id)) = queues m.
Proof.
  unfold PauseJob. destruct (find ord m id) as [job|]; [|done].
  destruct (negb _); [done|]. destruct (sysAbort _); [done|].
  destruct (TransitionJobState _ _ _) as [m' e] eqn:E. simpl.
  by apply TransitionJobState_frame in E as (-> & _).
Qed.

Lemma CleanJob_queues ord sysAbort m id :
  queues (fst (CleanJob ord sysAbort m id)) = queues m.
Proof.
  unfold CleanJob. destruct (find ord m id) as [job|]; [|done].
  set (m1 := if _ && _ then _ else m).
  assert (H1 : queues m1 = queues m).
  { subst m1. destruct (_ && _); [apply PauseJob_queues|done]. }
  set (m2 := if ValidTransitionJobState _ _ then _ else m1).
  assert (H2 : queues m2 = queues m).
  { subst m2. by destruct (ValidTransitionJobState _ _). }
  destruct (TransitionJobState m2 job EndStatus) as [m' e] eqn:E. simpl.
  apply TransitionJobState_frame in E as (-> & _). done.
Qed.

Lemma newJobOfType_spec m s1 s2 jobName jobType packages mb job :
  newJobOfType m s1 s2 jobName jobType packages = Some (mb, job) ->
  job = brk m /\ queues mb = queues m
  /\ (forall x, x < brk m -> heap mb x = heap m x).
Proof.
  unfold newJobOfType, NewJob, shareNextId.
  destruct jobType; intros [= <- <-]; simpl;
    (split; [done|]); (split; [done|]); intros x Hx;
    by rewrite ?set_job_ne by lia.
Qed.





(** ** CreateJob and the scan for a duplicate *)

Lemma guestIn_find h jobType pList l :
  guestIn h jobType pList l
  = match List.find (matchesJob h jobType pList) l with
    | Some x => Id (h x)
    | None => ""
    end.
Proof.
  induction l as [|job rest IH]; simpl; [done|].
  unfold matchesJob at 1.
  destruct (sameWork h job jobType pList); simpl; [done|].
  destruct (next (h job)) as [nx|]; [|done].
  by destruct (sameWork h nx jobType pList).
Qed.

Lemma List_queued ord m x : x ∈ List_ ord m <-> queued ord m x.
Proof. unfold List_, queued. by rewrite sort_Sort_elem. Qed.

Lemma queued_qperm ord m m' x :
  qperm (queues m) (queues m') -> queued ord m' x <-> queued ord m x.
Proof.
  intros HQ. unfold queued. rewrite !jobsOf_spec. split.
  - intros (name & q' & Hname & Hq' & Hx).
    destruct (qperm_members _ _ _ _ _ HQ Hq' Hx) as (q & Hq & Hxq). eauto.
  - intros (name & q & Hname & Hq & Hx).
    destruct (qperm_Some _ _ _ _ HQ Hq) as (q' & Hq' & P & _).
    exists name, q'. by rewrite P.
Qed.

Lemma matchesJob_soft h h' jobType pList x :
  softOnly h h' ->
  matchesJob h' jobType pList x = matchesJob h jobType pList x.
Proof.
  intros HS. unfold matchesJob, sameWork.
  destruct (softOnly_fields _ _ x HS) as (_ & -> & -> & _ & _ & -> & _).
  destruct (next (h x)) as [nx|]; [|done].
  by destruct (softOnly_fields _ _ nx HS) as (_ & -> & -> & _).
Qed.

(** No queued job matches when the scan and the lookup find nothing. *)
Lemma guest_none ord m jobType packages x :
  find ord m (guest ord m jobType packages) = None ->
  queued ord m x ->
  matchesJob (heap m) jobType (fingerprint packages) x = false.
Proof.
  intros Hnone Hx. unfold guest in Hnone. rewrite guestIn_find in Hnone.
  destruct (List.find _ (List_ ord m)) as [y|] eqn:EF.
  - apply find_some in EF as [Hy _].
    apply list_elem_of_In, List_queued in Hy.
    by destruct (findIn_None _ _ _ _ _ Hnone Hy).
  - apply not_true_iff_false. intros Hm.
    apply List_queued, list_elem_of_In in Hx.
    pose proof (find_none _ _ EF x Hx) as Hf. simpl in Hf. congruence.
Qed.

(** The job the scan and the lookup find is a queued job that matches. *)
Lemma guest_some ord m jobType packages p :
  wf ord m ->
  find ord m (guest ord m jobType packages) = Some p ->
  queued ord m p
  /\ matchesJob (heap m) jobType (fingerprint packages) p = true.
Proof.
  intros Hwf Hf. pose proof Hf as Hf'.
  apply findIn_Some in Hf' as [Hq Hid]. split; [done|].
  unfold guest in Hid. rewrite guestIn_find in Hid.
  destruct (List.find _ (List_ ord m)) as [y|] eqn:EF.
  - apply find_some in EF as [Hy Hm].
    apply list_elem_of_In, List_queued in Hy.
    assert (p = y) as -> by by eapply wf_ids. done.
  - by destruct (wf_id_nonempty _ _ _ Hwf Hq).
Qed.

(** With a matching job queued, and every queued match under its id,
    [CreateJob] returns a queued job of that id and does no more than
    [MarkStart] on it. *)
Lemma CreateJob_existing ord m s1 s2 jobName jobType packages p :
  queued ord m p ->
  matchesJob (heap m) jobType (fingerprint packages) p = true ->
  (forall x, queued ord m x ->
     matchesJob (heap m) jobType (fingerprint packages) x = true ->
     Id (heap m x) = Id (heap m p)) ->
  exists p2,
    find ord m (Id (heap m p)) = Some p2
    /\ queued ord m p2
    /\ Id (heap m p2) = Id (heap m p)
    /\ CreateJob ord m s1 s2 jobName jobType packages
       = (fst (MarkStart ord m (Id (heap m p))), Some p2,
          snd (MarkStart ord m (Id (heap m p)))).
Proof.
  intros Hq Hm Huniq.
  assert (Hg : guest ord m jobType packages = Id (heap m p)).
  { unfold guest. rewrite guestIn_find.
    destruct (List.find _ (List_ ord m)) as [y|] eqn:EF.
    - apply find_some in EF as [Hy Hmy].
      apply list_elem_of_In, List_queued in Hy. by apply Huniq.
    - apply List_queued, list_elem_of_In in Hq.
      pose proof (find_none _ _ EF p Hq) as Hf. simpl in Hf. congruence. }
  destruct (find ord m (Id (heap m p))) as [p2|] eqn:EF.
  2:{ by destruct (findIn_None _ _ _ _ _ EF Hq). }
  pose proof EF as EF'. apply findIn_Some in EF' as [Hq2 Hid2].
  exists p2. split; [done|]. split; [done|]. split; [done|].
  unfold CreateJob. rewrite Hg, EF, Hid2.
  by destruct (MarkStart ord m (Id (heap m p))).
Qed.

Lemma Swap_head (l : list ptr) i b :
  l !! i = Some b -> head (Swap l 0 i) = Some b.
Proof.
  unfold Swap. destruct l as [|a l]; [done|]. simpl.
  destruct i as [|i]; simpl.
  - by intros [= ->].
  - by intros ->.
Qed.

(** When [MarkStart] returns no error the first job of the queue of the
    job it found carries the id asked for. *)
Lemma MarkStart_raised ord m id m' :
  MarkStart ord m id = (m', None) ->
  exists job q hd,
    find ord m id = Some job
    /\ queues m' !! queueName (heap m' job) = Some q
    /\ head (Jobs q) = Some hd
    /\ Id (heap m' hd) = id.
Proof.
  unfold MarkStart. destruct (find ord m id) as [job|] eqn:EF; [|done].
  set (r := if bool_decide _ then _ else _).
  destruct r as [m1 [e|]] eqn:Er; [done|].
  destruct (queues m1 !! queueName (heap m1 job)) as [queue|] eqn:EQ; [|done].
  unfold Raise. destruct (indexOf (heap m1) id (Jobs queue)) as [i|] eqn:EI;
    [|done].
  intros [= <-]. simpl.
  destruct (indexOf_Some _ _ _ _ EI) as (x & Hx & Hid).
  exists job, (with_Jobs queue (Swap (Jobs queue) 0 i)), x.
  split; [done|]. rewrite lookup_insert_eq. split; [done|].
  split; [by apply Swap_head|done].
Qed.

Lemma newJobOfType_matches m s1 s2 jobName jobType packages mb job :
  newJobOfType m s1 s2 jobName jobType packages = Some (mb, job) ->
  (jobType = UpdateSourceJobType -> fingerprint packages = "") ->
  matchesJob (heap mb) jobType (fingerprint packages) job = true.
Proof.
  unfold newJobOfType, NewJob, shareNextId, matchesJob, sameWork.
  destruct jobType; intros [= <- <-] HU; simpl;
    repeat first [rewrite set_job_eq
                 |rewrite set_job_ne by lia
                 |progress simpl];
    rewrite ?String.eqb_refl; try done.
  rewrite HU by done. done.
Qed.

Lemma matchesJob_old (h h' : Heap) b jobType pList x :
  (forall y, y < b -> h' y = h y) ->
  x < b -> (forall s, next (h x) = Some s -> s < b) ->
  matchesJob h' jobType pList x = matchesJob h jobType pList x.
Proof.
  intros Hold Hx Hnx. unfold matchesJob, sameWork. rewrite (Hold x Hx).
  destruct (next (h x)) as [nx|]; [|done]. by rewrite (Hold nx (Hnx nx eq_refl)).
Qed.

(** What the first call leaves when the job it returns is queued: that
    job matches the request and is the only queued job that does. *)
Lemma CreateJob_first ord m s1 s2 jobName jobType packages p1 :
  wf ord m ->
  (forall x y, queued ord m x -> queued ord m y ->
     matchesJob (heap m) jobType (fingerprint packages) x = true ->
     matchesJob (heap m) jobType (fingerprint packages) y = true -> x = y) ->
  (jobType = UpdateSourceJobType -> fingerprint packages = "") ->
  snd (fst (CreateJob ord m s1 s2 jobName jobType packages)) = Some p1 ->
  queued ord (fst (fst (CreateJob ord m s1 s2 jobName jobType packages))) p1 ->
  matchesJob
    (heap (fst (fst (CreateJob ord m s1 s2 jobName jobType packages))))
    jobType (fingerprint packages) p1 = true
  /\ (forall x,
        queued ord (fst (fst (CreateJob ord m s1 s2 jobName jobType packages)))
               x ->
        matchesJob
          (heap (fst (fst (CreateJob ord m s1 s2 jobName jobType packages))))
          jobType (fingerprint packages) x = true ->
        x = p1)
  /\ (forall x,
        queued ord m x ->
        matchesJob (heap m) jobType (fingerprint packages) x = true ->
        p1 = x).
Proof.
  intros Hwf Huniq HU. unfold CreateJob.
  destruct (find ord m (guest ord m jobType packages)) as [job|] eqn:EF.
  - destruct (MarkStart ord m (Id (heap m job))) as [m1 e] eqn:EM. simpl.
    intros [= <-] Hq1.
    destruct (guest_some _ _ _ _ _ Hwf EF) as [Hq Hm].
    apply MarkStart_frame in EM as (HQ & HS & _).
    apply statusOnly_soft in HS.
    split; [by rewrite (matchesJob_soft _ _ _ _ _ HS)|]. split.
    + intros x Hx Hmx. rewrite (matchesJob_soft _ _ _ _ _ HS) in Hmx.
      apply (queued_qperm _ _ _ _ HQ) in Hx. by apply Huniq.
    + intros x Hx Hmx. by apply Huniq.
  - destruct (newJobOfType m s1 s2 jobName jobType packages)
      as [[mb job]|] eqn:EN; simpl; [|done].
    destruct (MarkStart ord (fst (addJob mb job)) _) as [m3 e] eqn:EM. simpl.
    intros [= <-] Hq1.
    pose proof (newJobOfType_matches _ _ _ _ _ _ _ _ EN HU) as Hm.
    apply newJobOfType_spec in EN as (-> & Hqs & Hold).
    destruct (addJob mb (brk m)) as [m2 e2] eqn:EA. simpl in EM.
    pose proof (addJob_frame _ _ _ _ EA) as (Hh2 & _).
    apply MarkStart_frame in EM as (HQ & HS & _).
    apply statusOnly_soft in HS. rewrite Hh2 in HS.
    split; [by rewrite (matchesJob_soft _ _ _ _ _ HS)|]. split.
    + intros x Hx Hmx. rewrite (matchesJob_soft _ _ _ _ _ HS) in Hmx.
      destruct (decide (x = brk m)) as [|Hne]; [done|]. exfalso.
      apply (queued_qperm _ _ _ _ HQ) in Hx.
      apply jobsOf_spec in Hx as (name & q2 & Hname & Hq2 & Hx).
      assert (Hadd : (exists q, queues mb !! name = Some q /\ x ∈ Jobs q)
                     \/ x = brk m).
      { apply (addJob_members mb (brk m) name q2 x); [by rewrite EA|done]. }
      destruct Hadd as [(q & Hq & Hxq)|]; [|done].
      rewrite Hqs in Hq.
      assert (Hxm : queued ord m x) by (apply jobsOf_spec; eauto).
      destruct (wf_bounds _ _ _ Hwf Hxm) as [Hlt Hnx].
      rewrite (matchesJob_old (heap m) (heap mb) (brk m)) in Hmx by done.
      by rewrite (guest_none _ _ _ _ _ EF Hxm) in Hmx.
    + intros x Hx Hmx. by rewrite (guest_none _ _ _ _ _ EF Hx) in Hmx.
Qed.

(** ** Idempotent submission *)

(** C4, as the code has it. In a well-formed state where at most one
    queued job matches the request (by its own work or by the work of its
    [next]), and with an empty fingerprint when the type is UpdateSource
    (whose job is built without packages): if the job that the first
    [CreateJob] returns is held by a queue afterwards, then that job is
    the one queued match there was, if there was one (the predecessor,
    when the match is its [next]), the second [CreateJob] with the same
    arguments returns a queued job with the same [Id], the queues keep
    their jobs (so their counts), and when the second call returns no
    error the first job of the returned job's queue carries its id. *)
Theorem CreateJob_twice ord m s1 s2 s3 s4 jobName jobType packages p1 :
  wf ord m ->
  (forall x y, queued ord m x -> queued ord m y ->
     matchesJob (heap m) jobType (fingerprint packages) x = true ->
     matchesJob (heap m) jobType (fingerprint packages) y = true -> x = y) ->
  (jobType = UpdateSourceJobType -> fingerprint packages = "") ->
  let r1 := CreateJob ord m s1 s2 jobName jobType packages in
  let m1 := fst (fst r1) in
  snd (fst r1) = Some p1 ->
  queued ord m1 p1 ->
  let r2 := CreateJob ord m1 s3 s4 jobName jobType packages in
  let m2 := fst (fst r2) in
  (forall x, queued ord m x ->
     matchesJob (heap m) jobType (fingerprint packages) x = true -> p1 = x)
  /\ (exists p2,
        snd (fst r2) = Some p2
        /\ queued ord m1 p2
        /\ Id (heap m2 p2) = Id (heap m1 p1)
        /\ (snd r2 = None ->
            exists q hd,
              queues m2 !! queueName (heap m2 p2) = Some q
              /\ head (Jobs q) = Some hd
              /\ Id (heap m2 hd) = Id (heap m2 p2)))
  /\ qperm (queues m1) (queues m2)
  /\ (forall name q1 q2,
        queues m1 !! name = Some q1 -> queues m2 !! name = Some q2 ->
        length (Jobs q2) = length (Jobs q1)).
Proof.
  intros Hwf Huniq HU r1 m1 Hr1 Hq1 r2 m2.
  destruct (CreateJob_first ord m s1 s2 jobName jobType packages p1
              Hwf Huniq HU Hr1 Hq1) as (Hm1 & Huniq1 & Hfirst).
  fold r1 in Hm1, Huniq1. fold m1 in Hm1, Huniq1.
  destruct (CreateJob_existing ord m1 s3 s4 jobName jobType packages p1
              Hq1 Hm1) as (p2 & Hf2 & Hq2 & Hid2 & E2).
  { intros x Hx Hmx. by rewrite (Huniq1 x Hx Hmx). }
  destruct (MarkStart ord m1 (Id (heap m1 p1))) as [mm e] eqn:EM.
  simpl in E2.
  assert (Em2 : m2 = mm) by (subst m2 r2; by rewrite E2).
  assert (Ee : snd r2 = e) by (subst r2; by rewrite E2).
  assert (Ep : snd (fst r2) = Some p2) by (subst r2; by rewrite E2).
  pose proof (MarkStart_frame _ _ _ _ _ EM) as (HQ & HS & _).
  rewrite <- Em2 in HQ, HS.
  assert (Hids : forall x, Id (heap m2 x) = Id (heap m1 x)).
  { intros x. by destruct (statusOnly_fields _ _ x HS) as (-> & _). }
  split; [done|]. split; [|split; [done|]].
  - exists p2. split; [done|]. split; [done|].
    split; [by rewrite Hids|].
    rewrite Ee. intros ->.
    destruct (MarkStart_raised _ _ _ _ EM) as (job & q & hd & Hf & Hq & Hh & Hi).
    rewrite Hf2 in Hf. injection Hf as <-. rewrite <- Em2 in Hq, Hi.
    exists q, hd. split; [done|]. split; [done|].
    by rewrite Hi, (Hids p2), Hid2.
  - intros name q1 q2 Hn1 Hn2.
    destruct (qperm_Some _ _ _ _ HQ Hn1) as (q2' & Hn2' & P & _).
    rewrite Hn2 in Hn2'. injection Hn2' as <-. by rewrite P.
Qed.

Lemma CreateJob_twice_witness :
  wf Examples.ord3 Examples.installFoo
  /\ snd (fst (CreateJob Examples.ord3 Examples.installFoo
                         (Examples.seed "3" 3) (Examples.seed "4" 4) "job"
                         InstallJobType ["foo"])) = Some 0
  /\ exists p2,
       snd (fst (CreateJob Examples.ord3
                   (fst (fst (CreateJob Examples.ord3 Examples.installFoo
                                (Examples.seed "3" 3) (Examples.seed "4" 4)
                                "job" InstallJobType ["foo"])))
                   (Examples.seed "5" 5) (Examples.seed "6" 6) "job"
                   InstallJobType ["foo"])) = Some p2
       /\ queued Examples.ord3
            (fst (fst (CreateJob Examples.ord3 Examples.installFoo
                         (Examples.seed "3" 3) (Examples.seed "4" 4)
                         "job" InstallJobType ["foo"]))) p2.
Proof.
  assert (Hwf : wf Examples.ord3 Examples.installFoo) by wf_by_evaluation.
  assert (Hr1 : snd (fst (CreateJob Examples.ord3 Examples.installFoo
                            (Examples.seed "3" 3) (Examples.seed "4" 4)
                            "job" InstallJobType ["foo"])) = Some 0)
    by by vm_compute.
  split; [exact Hwf|]. split; [exact Hr1|].
  destruct (CreateJob_twice Examples.ord3 Examples.installFoo
              (Examples.seed "3" 3) (Examples.seed "4" 4)
              (Examples.seed "5" 5) (Examples.seed "6" 6)
              "job" InstallJobType ["foo"] 0 Hwf)
    as (_ & (p2 & Hp2 & Hq2 & _) & _).
  - intros x y Hx Hy _ _. unfold queued in Hx, Hy.
    vm_compute in Hx. vm_compute in Hy.
    apply list_elem_of_singleton in Hx, Hy. congruence.
  - intros H. discriminate H.
  - exact Hr1.
  - unfold queued. vm_compute. apply list_elem_of_here.
  - exists p2. split; [exact Hp2|exact Hq2].
Defined.

(** C4 as stated fails. With a Download job for foo queued, two
    successive [CreateJob] calls of type Install for foo find no duplicate
    (the types differ), build a chain each, lose it to the conflict in
    [JobQueue.Add], and return two different jobs with two different ids.
    And a duplicate that is Running is returned without being raised:
    [MarkStart] stops at the refused transition to Ready, and the queue
    b, a stays as it is. *)
Lemma CreateJob_twice_counterexample :
  (let r1 := CreateJob Examples.ord3 Examples.downloadFoo
                       (Examples.seed "2" 2) (Examples.seed "3" 3) "job"
                       InstallJobType ["foo"] in
   let r2 := CreateJob Examples.ord3 (fst (fst r1))
                       (Examples.seed "4" 4) (Examples.seed "5" 5) "job"
                       InstallJobType ["foo"] in
   snd (fst r1) = Some 1 /\ snd (fst r2) = Some 3
   /\ Id (heap (fst (fst r1)) 1) = "3"
   /\ Id (heap (fst (fst r2)) 3) = "5"
   /\ Id (heap (fst (fst r2)) 3) <> Id (heap (fst (fst r1)) 1))
  /\ (let r := CreateJob Examples.ord3 Examples.twoDownloads
                         (Examples.seed "3" 3) (Examples.seed "4" 4) "job"
                         DownloadJobType ["a"] in
      snd (fst r) = Some 0
      /\ snd r = Some NotSupportError
      /\ Jobs <$> (queues Examples.twoDownloads !! DownloadQueue)
         = Some [1; 0]
      /\ Jobs <$> (queues (fst (fst r)) !! DownloadQueue) = Some [1; 0]).
Proof.
  split.
  - cbv zeta. repeat split; by vm_compute.
  - cbv zeta. repeat split; by vm_compute.
Qed.

(** * Further properties of the code *)

(** ** JobQueue: Add, Remove, Raise, Find *)

Lemma sameWork_key h job j :
  sameWork h job (Typ (h j)) (fingerprint (Packages (h j))) = true
  <-> workKey h job = workKey h j.
Proof.
  unfold sameWork, workKey. rewrite andb_true_iff, bool_decide_eq_true.
  rewrite String.eqb_eq. split; [by intros [-> ->]|by intros [= -> ->]].
Qed.

(** X1. [JobQueue.Add] returns its error exactly when the queue holds a
    job of the same type and package fingerprint as the new one, and then
    leaves the queue as it is; otherwise it returns no error and the job
    list is the old one with the new job, rearranged by the sort. The
    [Cap] of the queue plays no part in the admission. *)
Theorem Add_rejects_same_work h l j :
  (snd (Add h l j) <> None <->
   exists job, job ∈ Jobs l /\ workKey h job = workKey h j)
  /\ (forall e, snd (Add h l j) = Some e -> fst (Add h l j) = l)
  /\ (snd (Add h l j) = None ->
      Jobs (fst (Add h l j)) ≡ₚ Jobs l ++ [j]
      /\ Cap (fst (Add h l j)) = Cap l
      /\ QName (fst (Add h l j)) = QName l).
Proof.
  unfold Add.
  destruct (List.find _ (Jobs l)) as [job|] eqn:EF; simpl.
  - apply find_some in EF as [Hin Hs].
    apply list_elem_of_In in Hin. apply sameWork_key in Hs.
    split; [|split; [done|done]]. split; [eauto|done].
  - split; [|split; [done|]].
    + split; [done|]. intros (job & Hin & Hk).
      apply list_elem_of_In in Hin. apply (find_none _ _ EF) in Hin.
      apply sameWork_key in Hk. congruence.
    + intros _. split; [apply sort_Sort_perm|done].
Qed.

Lemma Remove_delete h l id l' :
  Remove h l id = (l', None) ->
  exists i, indexOf h id (Jobs l) = Some i
            /\ Jobs l' ≡ₚ delete i (Jobs l).
Proof.
  unfold Remove. destruct (indexOf h id (Jobs l)) as [i|]; [|done].
  intros [= <-]. exists i. split; [done|]. simpl.
  by rewrite sort_Sort_perm, delete_take_drop.
Qed.

Lemma NoDup_fmap_delete {A B} (f : A -> B) (l : list A) i :
  NoDup (f <$> l) -> NoDup (f <$> delete i l).
Proof.
  intros H. apply (sublist_NoDup _ _ H).
  apply fmap_sublist, sublist_delete.
Qed.

(** X2. A queue in which no two jobs are of the same type and package
    fingerprint stays so under [Add] (whether it admits the job or not),
    under [Remove] and under [Raise]. *)
Theorem queue_keeps_distinct_work h l :
  distinctWork h l ->
  (forall j, distinctWork h (fst (Add h l j)))
  /\ (forall id, distinctWork h (fst (Remove h l id)))
  /\ (forall id, distinctWork h (fst (Raise h l id))).
Proof.
  unfold distinctWork. intros Hnd. split; [|split].
  - intros j. unfold Add.
    destruct (List.find _ (Jobs l)) as [job|] eqn:EF; simpl; [done|].
    rewrite sort_Sort_perm, fmap_app. simpl.
    apply NoDup_app. split; [done|]. split; [|apply NoDup_singleton].
    intros k Hk Hj. apply list_elem_of_singleton in Hj. subst k.
    apply list_elem_of_fmap in Hk as (job & Hk & Hin).
    apply list_elem_of_In in Hin. apply (find_none _ _ EF) in Hin.
    symmetry in Hk. apply sameWork_key in Hk. congruence.
  - intros id. destruct (Remove h l id) as [l' [e|]] eqn:E; simpl.
    + unfold Remove in E. destruct (indexOf h id (Jobs l)); by simplify_eq.
    + apply Remove_delete in E as (i & _ & P). rewrite P.
      by apply NoDup_fmap_delete.
  - intros id. destruct (Raise h l id) as [l' e] eqn:E. simpl.
    apply Raise_perm in E as (P & _). by rewrite P.
Qed.

Lemma queue_keeps_distinct_work_witness :
  distinctWork Examples.lockHeap Examples.lockQueue
  /\ distinctWork Examples.lockHeap
                  (fst (Add Examples.lockHeap Examples.lockQueue 2)).
Proof.
  assert (H : distinctWork Examples.lockHeap Examples.lockQueue).
  { apply (bool_decide_unpack _). by vm_compute. }
  split; [exact H|].
  exact (proj1 (queue_keeps_distinct_work Examples.lockHeap
                  Examples.lockQueue H) 2).
Defined.

Lemma indexOf_first h id l i :
  indexOf h id l = Some i ->
  forall k x, k < i -> l !! k = Some x -> Id (h x) <> id.
Proof.
  revert i. induction l as [|a l IH]; intros i; simpl; [done|].
  destruct (String.eqb_spec (Id (h a)) id) as [Heq|Hne].
  - intros [= <-] k x Hk. lia.
  - destruct (indexOf h id l) as [i0|]; [|done]. intros [= <-] k x Hk.
    destruct k as [|k]; simpl.
    + by intros [= <-].
    + apply (IH i0 eq_refl). lia.
Qed.

Lemma indexOf_Some_of_elem h id l job :
  job ∈ l -> Id (h job) = id -> exists i, indexOf h id l = Some i.
Proof.
  intros Hin Hid. destruct (indexOf h id l) as [i|] eqn:E; [eauto|].
  by destruct (indexOf_None _ _ _ _ E Hin).
Qed.

Lemma indexOf_None_of_all h id l :
  (forall job, job ∈ l -> Id (h job) <> id) -> indexOf h id l = None.
Proof.
  intros Hall. destruct (indexOf h id l) as [i|] eqn:E; [|done].
  destruct (indexOf_Some _ _ _ _ E) as (x & Hx & Hid).
  destruct (Hall x); [by eapply list_elem_of_lookup_2|done].
Qed.

(** X3. [JobQueue.Remove] returns NotFound and leaves the queue as it is
    when no job of the queue has the id; otherwise it returns no error and
    takes out one job, the first of the list with that id: the list is one
    shorter and holds the other jobs. *)
Theorem Remove_takes_first_of_id h l id :
  ((forall job, job ∈ Jobs l -> Id (h job) <> id) ->
   Remove h l id = (l, Some NotFoundError))
  /\ (forall job,
        job ∈ Jobs l -> Id (h job) = id ->
        exists i first,
          Jobs l !! i = Some first
          /\ Id (h first) = id
          /\ (forall k x, k < i -> Jobs l !! k = Some x -> Id (h x) <> id)
          /\ snd (Remove h l id) = None
          /\ Jobs (fst (Remove h l id)) ≡ₚ delete i (Jobs l)
          /\ length (Jobs (fst (Remove h l id))) + 1 = length (Jobs l)
          /\ Cap (fst (Remove h l id)) = Cap l).
Proof.
  split.
  - intros Hall. unfold Remove. by rewrite indexOf_None_of_all.
  - intros job Hin Hid.
    destruct (indexOf_Some_of_elem _ _ _ _ Hin Hid) as [i Hi].
    destruct (indexOf_Some _ _ _ _ Hi) as (first & Hf & Hidf).
    exists i, first. split; [done|]. split; [done|].
    split; [by apply indexOf_first|].
    unfold Remove. rewrite Hi. simpl. split; [done|].
    rewrite sort_Sort_length, <- delete_take_drop.
    split; [by rewrite sort_Sort_perm|]. split; [|done].
    rewrite length_delete by eauto.
    apply lookup_lt_Some in Hf. lia.
Qed.

Lemma Find_unique h l id job :
  job ∈ Jobs l -> Id (h job) = id ->
  (forall x, x ∈ Jobs l -> Id (h x) = id -> x = job) ->
  Find h l id = Some job.
Proof.
  intros Hin Hid Huniq. destruct (Find h l id) as [x|] eqn:E.
  - apply Find_Some in E as [Hx Hidx]. f_equal. by apply Huniq.
  - by destruct (Find_None _ _ _ _ E Hin).
Qed.

(** X4. When [Add] admits a job whose id no job of the queue has, [Find]
    by that id gives the job, [Remove] by that id succeeds and gives back
    the jobs the queue had before, and [Find] then gives nothing. *)
Theorem Add_Find_Remove h l j :
  snd (Add h l j) = None ->
  (forall job, job ∈ Jobs l -> Id (h job) <> Id (h j)) ->
  Find h (fst (Add h l j)) (Id (h j)) = Some j
  /\ snd (Remove h (fst (Add h l j)) (Id (h j))) = None
  /\ Jobs (fst (Remove h (fst (Add h l j)) (Id (h j)))) ≡ₚ Jobs l
  /\ Find h (fst (Remove h (fst (Add h l j)) (Id (h j)))) (Id (h j)) = None.
Proof.
  intros Hok Hfresh.
  assert (P : Jobs (fst (Add h l j)) ≡ₚ j :: Jobs l).
  { unfold Add in *. destruct (List.find _ (Jobs l)); [done|]. simpl.
    by rewrite sort_Sort_perm, <- Permutation_cons_append. }
  set (l1 := fst (Add h l j)) in *.
  assert (Hj : j ∈ Jobs l1) by (rewrite P; apply list_elem_of_here).
  assert (Huniq : forall x, x ∈ Jobs l1 -> Id (h x) = Id (h j) -> x = j).
  { intros x Hx Hid. rewrite P in Hx.
    apply elem_of_cons in Hx as [|Hx]; [done|]. by destruct (Hfresh x Hx). }
  split; [by apply Find_unique|].
  destruct (indexOf_unique h (Id (h j)) (Jobs l1) j Hj eq_refl Huniq)
    as (i & Hi & Hij).
  assert (Pd : delete i (Jobs l1) ≡ₚ Jobs l).
  { apply (Permutation_cons_inv (a := j)). rewrite <- P.
    rewrite delete_take_drop, Permutation_middle.
    by rewrite take_drop_middle. }
  unfold Remove. rewrite Hi. simpl. split; [done|].
  rewrite <- delete_take_drop.
  split; [by rewrite sort_Sort_perm|].
  unfold Find. simpl. apply find_none_Forall. intros x Hx.
  apply sort_Sort_elem in Hx. rewrite Pd in Hx.
  apply String.eqb_neq. by apply Hfresh.
Qed.

Lemma Add_Find_Remove_witness :
  snd (Add Examples.lockHeap Examples.lockQueue 2) = None
  /\ Find Examples.lockHeap (fst (Add Examples.lockHeap Examples.lockQueue 2))
          (Id (Examples.lockHeap 2)) = Some 2.
Proof.
  assert (H : snd (Add Examples.lockHeap Examples.lockQueue 2) = None)
    by by vm_compute.
  split; [exact H|].
  refine (proj1 (Add_Find_Remove Examples.lockHeap Examples.lockQueue 2 H _)).
  intros job Hin. vm_compute in Hin.
  apply elem_of_cons in Hin as [->|Hin]; [by vm_compute|].
  apply list_elem_of_singleton in Hin as ->. by vm_compute.
Defined.

Lemma indexOf_head h id a l :
  Id (h a) = id -> indexOf h id (a :: l) = Some 0.
Proof. intros Hid. simpl. by rewrite (proj2 (String.eqb_eq _ _) Hid). Qed.

Lemma Swap_same (l : list ptr) : Swap l 0 0 = l.
Proof.
  unfold Swap. destruct l as [|a l]; [done|]. done.
Qed.

Lemma Swap_other (l : list ptr) i k :
  k <> 0 -> k <> i -> Swap l 0 i !! k = l !! k.
Proof.
  intros Hk0 Hki. unfold Swap.
  destruct (l !! 0) as [a|]; [|done]. destruct (l !! i) as [b|]; [|done].
  by rewrite !list_lookup_insert_ne by done.
Qed.

(** X5. [JobQueue.Raise] returns NotFound and leaves the queue as it is
    when no job has the id. Otherwise it returns no error, the first job
    of the list with that id is at the head afterwards, and the positions
    other than the head and the one it came from are untouched. In every
    case the queue holds the same jobs with the same [Cap] and as many
    Running jobs as before, and raising a second time changes nothing. *)
Theorem Raise_is_ordering_only h l id :
  ((forall job, job ∈ Jobs l -> Id (h job) <> id) ->
   Raise h l id = (l, Some NotFoundError))
  /\ (forall job,
        job ∈ Jobs l -> Id (h job) = id ->
        exists i first,
          Jobs l !! i = Some first
          /\ Id (h first) = id
          /\ (forall k x, k < i -> Jobs l !! k = Some x -> Id (h x) <> id)
          /\ snd (Raise h l id) = None
          /\ head (Jobs (fst (Raise h l id))) = Some first
          /\ (forall k, k <> 0 -> k <> i ->
                Jobs (fst (Raise h l id)) !! k = Jobs l !! k))
  /\ Jobs (fst (Raise h l id)) ≡ₚ Jobs l
  /\ Cap (fst (Raise h l id)) = Cap l
  /\ length (RunningJobs h (fst (Raise h l id))) = length (RunningJobs h l)
  /\ Raise h (fst (Raise h l id)) id = Raise h l id.
Proof.
  split; [|split].
  - intros Hall. unfold Raise. by rewrite indexOf_None_of_all.
  - intros job Hin Hid.
    destruct (indexOf_Some_of_elem _ _ _ _ Hin Hid) as [i Hi].
    destruct (indexOf_Some _ _ _ _ Hi) as (first & Hf & Hidf).
    exists i, first. split; [done|]. split; [done|].
    split; [by apply indexOf_first|].
    unfold Raise. rewrite Hi. simpl. split; [done|].
    split; [by apply Swap_head|]. intros k Hk0 Hki. by apply Swap_other.
  - destruct (Raise h l id) as [l' e] eqn:E. simpl.
    pose proof (Raise_perm _ _ _ _ _ E) as (P & HC & _).
    split; [done|]. split; [done|]. split.
    + unfold RunningJobs. by rewrite P.
    + unfold Raise in E |- *.
      destruct (indexOf h id (Jobs l)) as [i|] eqn:Hi.
      * injection E as <- <-. simpl.
        destruct (indexOf_Some _ _ _ _ Hi) as (first & Hf & Hidf).
        pose proof (Swap_head _ _ _ Hf) as Hh.
        destruct (Swap (Jobs l) 0 i) as [|a rest] eqn:ES; [done|].
        simpl in Hh. injection Hh as ->.
        rewrite (indexOf_head h id first rest Hidf). by rewrite Swap_same.
      * injection E as <- <-. by rewrite Hi.
Qed.

(** X6. [JobManager.find] returns nil exactly when no job of the queues it
    visits has the id, and a job it returns is one of those queues with
    that id. *)
Theorem find_returns_queued_job ord m id :
  (find ord m id = None <->
   forall job, queued ord m job -> Id (heap m job) <> id)
  /\ (forall job,
        find ord m id = Some job -> queued ord m job /\ Id (heap m job) = id).
Proof.
  split.
  - split.
    + intros Hn job Hq. by eapply findIn_None.
    + intros Hall. destruct (find ord m id) as [job|] eqn:E; [|done].
      apply findIn_Some in E as [Hq Hid]. by destruct (Hall job Hq).
  - intros job E. by apply findIn_Some in E.
Qed.

(** ** List *)

Lemma jobsOf_Permutation (qs : gmap string JobQueue) ord1 ord2 :
  ord1 ≡ₚ ord2 -> jobsOf qs ord1 ≡ₚ jobsOf qs ord2.
Proof.
  unfold jobsOf. induction 1 as [|x l1 l2 _ IH|x y l|l1 l2 l3 _ IH1 _ IH2];
    simpl.
  - done.
  - by rewrite IH.
  - rewrite !app_assoc. f_equiv. apply Permutation_app_comm.
  - by rewrite IH1.
Qed.

(** X7. When no queued job is an UpdateSource job, [List] returns the
    jobs of the visited queues, each as often as the queues hold it, by
    ascending creation time; and when the creation times of the queued
    jobs are pairwise different the result is the same list for every
    order in which the map of queues is visited. *)
Theorem List_sorted_snapshot ord m :
  Forall (notUpdateSource (heap m)) (jobsOf (queues m) ord) ->
  List_ ord m ≡ₚ jobsOf (queues m) ord
  /\ StronglySorted (byTime (heap m)) (List_ ord m)
  /\ (forall ord',
        ord' ≡ₚ ord ->
        (forall a b, queued ord m a -> queued ord m b ->
           CreateTime (heap m a) = CreateTime (heap m b) -> a = b) ->
        List_ ord' m = List_ ord m).
Proof.
  intros HnoUS.
  assert (HP : List_ ord m ≡ₚ jobsOf (queues m) ord) by apply sort_Sort_perm.
  split; [done|]. split; [by apply sort_Sort_sorted|].
  intros ord' Hord Hinj.
  assert (HP' : List_ ord' m ≡ₚ List_ ord m).
  { unfold List_. rewrite !sort_Sort_perm. by apply jobsOf_Permutation. }
  apply (StronglySorted_unique_strong (byTime (heap m))); [| | |done].
  - intros a b Ha Hb Hab Hba. rewrite HP', HP in Ha. rewrite HP in Hb.
    apply Hinj; [done|done|]. unfold byTime in *. lia.
  - unfold List_. apply sort_Sort_sorted.
    rewrite (jobsOf_Permutation _ _ _ Hord). done.
  - by apply sort_Sort_sorted.
Qed.

Lemma List_sorted_snapshot_witness :
  Forall (notUpdateSource (heap Examples.fourDownloads))
         (jobsOf (queues Examples.fourDownloads) Examples.ord3)
  /\ StronglySorted (byTime (heap Examples.fourDownloads))
                    (List_ Examples.ord3 Examples.fourDownloads).
Proof.
  assert (H : Forall (notUpdateSource (heap Examples.fourDownloads))
                     (jobsOf (queues Examples.fourDownloads) Examples.ord3)).
  { unfold notUpdateSource. apply (bool_decide_unpack _). by vm_compute. }
  split; [exact H|].
  exact (proj1 (proj2 (List_sorted_snapshot Examples.ord3
                         Examples.fourDownloads H))).
Defined.

(** ** Well-formed states are kept *)

Lemma qperm_qsub qs qs' : qperm qs qs' -> qsub qs qs'.
Proof.
  intros H name. specialize (H name).
  destruct (qs !! name), (qs' !! name); try done.
  destruct H as (P & _). by rewrite P.
Qed.

Lemma qsub_refl qs : qsub qs qs.
Proof. intros name. by destruct (qs !! name). Qed.

Lemma qsub_trans qs1 qs2 qs3 : qsub qs1 qs2 -> qsub qs2 qs3 -> qsub qs1 qs3.
Proof.
  intros H12 H23 name. specialize (H12 name). specialize (H23 name).
  destruct (qs1 !! name), (qs2 !! name), (qs3 !! name); try done.
  by etrans.
Qed.

Lemma qsub_insert (qs : gmap string JobQueue) name q q' :
  qs !! name = Some q -> Jobs q' ⊆+ Jobs q -> qsub qs (<[name := q']> qs).
Proof.
  intros Hq Hsub n. destruct (decide (name = n)) as [->|Hne].
  - by rewrite lookup_insert_eq, Hq.
  - rewrite lookup_insert_ne by done. by destruct (qs !! n).
Qed.

Lemma jobsOf_qsub qs qs' names :
  qsub qs qs' -> jobsOf qs' names ⊆+ jobsOf qs names.
Proof.
  intros H. unfold jobsOf. induction names as [|name names IH]; simpl.
  - done.
  - apply submseteq_app; [|done]. specialize (H name).
    destruct (qs !! name), (qs' !! name); done.
Qed.

Lemma jobsOf_qperm qs qs' names :
  qperm qs qs' -> jobsOf qs' names ≡ₚ jobsOf qs names.
Proof.
  intros H. unfold jobsOf. induction names as [|name names IH]; simpl.
  - done.
  - rewrite IH. f_equiv. specialize (H name).
    destruct (qs !! name), (qs' !! name); try done. by destruct H.
Qed.

Lemma submseteq_NoDup {A} (l k : list A) : l ⊆+ k -> NoDup k -> NoDup l.
Proof.
  intros Hsub Hnd. apply submseteq_sublist_l in Hsub as (k' & Hs & P).
  rewrite <- P in Hnd. by eapply sublist_NoDup.
Qed.

Lemma submseteq_Forall {A} (P : A -> Prop) (l k : list A) :
  l ⊆+ k -> Forall P k -> Forall P l.
Proof.
  rewrite !Forall_forall. intros Hsub H x Hx. apply H.
  by eapply elem_of_submseteq.
Qed.

Lemma keepsIdentity_refl h : keepsIdentity h h.
Proof. intros p. auto 10. Qed.

Lemma keepsIdentity_trans h1 h2 h3 :
  keepsIdentity h1 h2 -> keepsIdentity h2 h3 -> keepsIdentity h1 h3.
Proof.
  intros H12 H23 p.
  destruct (H12 p) as (E1 & E2 & E3 & E4 & E5 & E6).
  destruct (H23 p) as (F1 & F2 & F3 & F4 & F5 & F6).
  repeat split; try congruence.
  destruct F6 as [F6|F6]; [|by right]. rewrite F6. done.
Qed.

Lemma softOnly_keepsIdentity h h' : softOnly h h' -> keepsIdentity h h'.
Proof.
  intros H p.
  destruct (softOnly_fields _ _ p H) as (-> & -> & -> & -> & -> & -> & _).
  auto 10.
Qed.

Lemma statusOnly_keepsIdentity h h' : statusOnly h h' -> keepsIdentity h h'.
Proof. intros H. by apply softOnly_keepsIdentity, statusOnly_soft. Qed.

Lemma TransitionJobState_keepsIdentity m job to m' err :
  TransitionJobState m job to = (m', err) ->
  keepsIdentity (heap m) (heap m').
Proof.
  unfold TransitionJobState.
  destruct (ValidTransitionJobState _ _); intros [= <- <-];
    [|apply keepsIdentity_refl].
  intros p. simpl. unfold set_job.
  destruct (Nat.eqb_spec p job) as [->|Hne]; [|auto 10].
  destruct (_ && _); simpl; auto 10.
Qed.

(** A state stays well-formed when the queues lose jobs or shuffle them,
    no address is taken back, and the jobs keep their identity. *)
Lemma wf_preserved ord m m' :
  wf ord m -> qsub (queues m) (queues m') -> brk m <= brk m' ->
  keepsIdentity (heap m) (heap m') -> wf ord m'.
Proof.
  intros (Hn & Hh & Hi & He & Hb) HQ Hbrk HK.
  pose proof (jobsOf_qsub _ _ ord HQ) as Hsub.
  split; [|split; [|split; [|split]]].
  - apply map_Forall_lookup. intros name q' Hq'. specialize (HQ name).
    rewrite Hq' in HQ. destruct (queues m !! name) as [q|] eqn:Hq; [|done].
    by apply (map_Forall_lookup_1 _ _ _ _ Hn Hq).
  - apply map_Forall_lookup. intros name q' Hq'. specialize (HQ name).
    rewrite Hq' in HQ. destruct (queues m !! name) as [q|] eqn:Hq; [|done].
    pose proof (map_Forall_lookup_1 _ _ _ _ Hh Hq) as HF. simpl in HF.
    apply (submseteq_Forall _ _ _ HQ). eapply Forall_impl; [exact HF|].
    intros p Hp. simpl. destruct (HK p) as (_ & -> & _). done.
  - assert (E : (fun p => Id (heap m' p)) <$> jobsOf (queues m') ord
                = (fun p => Id (heap m p)) <$> jobsOf (queues m') ord).
    { apply list_fmap_ext. intros i p _. by destruct (HK p) as (-> & _). }
    rewrite E. eapply submseteq_NoDup; [|exact Hi]. by apply fmap_submseteq.
  - apply (submseteq_Forall _ _ _ Hsub). eapply Forall_impl; [exact He|].
    intros p Hp. simpl. by destruct (HK p) as (-> & _).
  - apply (submseteq_Forall _ _ _ Hsub). eapply Forall_impl; [exact Hb|].
    intros p [Hp Hnx]. simpl. split; [lia|]. intros s Hs.
    destruct (HK p) as (_ & _ & _ & _ & _ & [E|E]); rewrite E in Hs; [|done].
    specialize (Hnx s Hs). lia.
Qed.

Lemma PauseJob_frame ord sysAbort m id :
  statusOnly (heap m) (heap (fst (PauseJob ord sysAbort m id)))
  /\ brk (fst (PauseJob ord sysAbort m id)) = brk m
  /\ (forall p, find ord m id <> Some p ->
                heap (fst (PauseJob ord sysAbort m id)) p = heap m p).
Proof.
  unfold PauseJob. destruct (find ord m id) as [job|];
    [|by split; [apply statusOnly_refl|]].
  destruct (negb _); [by split; [apply statusOnly_refl|]|].
  destruct (sysAbort _); [by split; [apply statusOnly_refl|]|].
  destruct (TransitionJobState _ _ _) as [m' e] eqn:E. simpl.
  pose proof (TransitionJobState_frame _ _ _ _ _ E) as (_ & Hb & _ & _ & Ho).
  split; [|split; [done|]].
  - destruct e as [e|].
    + apply TransitionJobState_error in E as [_ ->]. apply statusOnly_refl.
    + by apply TransitionJobState_ok in E as (_ & _ & H); apply H.
  - intros p Hp. apply Ho. congruence.
Qed.

Lemma CleanJob_frame ord sysAbort m id :
  keepsIdentity (heap m) (heap (fst (CleanJob ord sysAbort m id)))
  /\ brk (fst (CleanJob ord sysAbort m id)) = brk m
  /\ (forall p, find ord m id <> Some p ->
                heap (fst (CleanJob ord sysAbort m id)) p = heap m p).
Proof.
  unfold CleanJob. destruct (find ord m id) as [job|] eqn:EF;
    [|by split; [apply keepsIdentity_refl|]].
  set (m1 := if _ && _ then _ else m).
  assert (H1 : keepsIdentity (heap m) (heap m1) /\ brk m1 = brk m
               /\ forall p, p <> job -> heap m1 p = heap m p).
  { subst m1. destruct (_ && _).
    - destruct (PauseJob_frame ord sysAbort m id) as (HS & Hb & Ho).
      split; [by apply statusOnly_keepsIdentity|]. split; [done|].
      intros p Hp. apply Ho. rewrite EF. congruence.
    - split; [apply keepsIdentity_refl|done]. }
  destruct H1 as (HK1 & Hb1 & Ho1).
  set (m2 := if ValidTransitionJobState _ _ then _ else m1).
  assert (H2 : keepsIdentity (heap m1) (heap m2) /\ brk m2 = brk m1
               /\ forall p, p <> job -> heap m2 p = heap m1 p).
  { subst m2. destruct (ValidTransitionJobState _ _).
    - simpl. split; [|split; [done|]].
      + intros p. unfold set_job.
        destruct (Nat.eqb_spec p job) as [->|Hne]; simpl; auto 10.
      + intros p Hp. by apply set_job_ne.
    - split; [apply keepsIdentity_refl|done]. }
  destruct H2 as (HK2 & Hb2 & Ho2).
  destruct (TransitionJobState m2 job EndStatus) as [m3 e] eqn:E. simpl.
  pose proof (TransitionJobState_keepsIdentity _ _ _ _ _ E) as HK3.
  apply TransitionJobState_frame in E as (_ & Hb3 & _ & _ & Ho3).
  split; [|split; [congruence|]].
  - eapply keepsIdentity_trans; [|exact HK3].
    by eapply keepsIdentity_trans.
  - intros p Hp. assert (p <> job) by congruence.
    by rewrite Ho3, Ho2, Ho1.
Qed.

Lemma schedule_brk ord sysStart names m :
  brk (schedule ord sysStart names m) = brk m.
Proof.
  revert m. induction names as [|name names IH]; intros m; simpl; [done|].
  rewrite IH. by destruct (scheduleQueue_frame ord sysStart m name) as (_ & -> & _).
Qed.

(** X8. A well-formed state (every queue visited, jobs in the queue their
    [queueName] says, queued ids distinct and not empty, addresses handed
    out by [NewJob]) is still well-formed after [MarkStart], [PauseJob],
    [CleanJob] and the scheduling phase of a dispatch tick, whatever the
    backend answers. *)
Theorem operations_keep_wf ord m :
  wf ord m ->
  (forall id, wf ord (fst (MarkStart ord m id)))
  /\ (forall sysAbort id, wf ord (fst (PauseJob ord sysAbort m id)))
  /\ (forall sysAbort id, wf ord (fst (CleanJob ord sysAbort m id)))
  /\ (forall sysStart names, wf ord (schedule ord sysStart names m)).
Proof.
  intros Hwf. split; [|split; [|split]].
  - intros id. destruct (MarkStart ord m id) as [m' e] eqn:E. simpl.
    apply MarkStart_frame in E as (HQ & HS & Hb & _).
    apply (wf_preserved ord m); [done|by apply qperm_qsub|lia|].
    by apply statusOnly_keepsIdentity.
  - intros sysAbort id.
    destruct (PauseJob_frame ord sysAbort m id) as (HS & Hb & _).
    apply (wf_preserved ord m); [done| |lia|by apply statusOnly_keepsIdentity].
    rewrite PauseJob_queues. apply qsub_refl.
  - intros sysAbort id.
    destruct (CleanJob_frame ord sysAbort m id) as (HK & Hb & _).
    apply (wf_preserved ord m); [done| |lia|done].
    rewrite CleanJob_queues. apply qsub_refl.
  - intros sysStart names.
    destruct (schedule_frame ord sysStart names m) as [HQ HS].
    apply (wf_preserved ord m); [done|by apply qperm_qsub| |].
    + rewrite schedule_brk. lia.
    + by apply softOnly_keepsIdentity.
Qed.

Lemma operations_keep_wf_witness :
  wf Examples.ord3 Examples.installFoo
  /\ wf Examples.ord3
        (fst (CleanJob Examples.ord3 Examples.abortOk Examples.installFoo "2")).
Proof.
  assert (Hwf : wf Examples.ord3 Examples.installFoo) by wf_by_evaluation.
  split; [exact Hwf|].
  exact (proj1 (proj2 (proj2 (operations_keep_wf Examples.ord3
                                Examples.installFoo Hwf)))
               Examples.abortOk "2").
Defined.

(** ** MarkStart *)

Lemma wf_queue_of ord m job :
  wf ord m -> queued ord m job ->
  exists q, queues m !! queueName (heap m job) = Some q /\ job ∈ Jobs q.
Proof.
  intros Hwf Hq. apply jobsOf_spec in Hq as (name & q & _ & Hq & Hin).
  exists q. by rewrite (wf_home _ _ _ _ _ Hwf Hq Hin).
Qed.

Lemma TransitionJobState_valid m job to :
  ValidTransitionJobState (Status_ (heap m job)) to = true ->
  snd (TransitionJobState m job to) = None.
Proof. intros HV. unfold TransitionJobState. by rewrite HV. Qed.

Lemma TransitionJobState_invalid m job to :
  ValidTransitionJobState (Status_ (heap m job)) to = false ->
  TransitionJobState m job to = (m, Some NotSupportError).
Proof. intros HV. unfold TransitionJobState. by rewrite HV. Qed.

Lemma Raise_no_error h q id job :
  job ∈ Jobs q -> Id (h job) = id -> snd (Raise h q id) = None.
Proof.
  intros Hin Hid. unfold Raise.
  by destruct (indexOf_Some_of_elem _ _ _ _ Hin Hid) as [i ->].
Qed.

Lemma MarkStart_ok ord m job :
  wf ord m -> queued ord m job ->
  Status_ (heap m job) = ReadyStatus
  \/ ValidTransitionJobState (Status_ (heap m job)) ReadyStatus = true ->
  snd (MarkStart ord m (Id (heap m job))) = None.
Proof.
  intros Hwf Hq Hst. unfold MarkStart. rewrite (wf_find _ _ _ Hwf Hq).
  destruct (wf_queue_of _ _ _ Hwf Hq) as (q & Hqq & Hin).
  destruct (bool_decide_reflect (Status_ (heap m job) = ReadyStatus))
    as [HR|HR].
  - rewrite Hqq.
    pose proof (Raise_no_error (heap m) q _ job Hin eq_refl) as Hr.
    by destruct (Raise (heap m) q (Id (heap m job))).
  - destruct Hst as [|HV]; [done|].
    pose proof (TransitionJobState_valid m job ReadyStatus HV) as Hnone.
    destruct (TransitionJobState m job ReadyStatus) as [m1 e] eqn:ET.
    simpl in Hnone. subst e.
    pose proof (TransitionJobState_frame _ _ _ _ _ ET) as (Hqs & _).
    apply TransitionJobState_ok in ET as (_ & _ & HSO).
    specialize (HSO ltac:(done)).
    destruct (statusOnly_fields _ _ job HSO) as (Hid & _ & _ & _ & Hqn & _).
    rewrite Hqn, Hqs, Hqq.
    assert (Hr : snd (Raise (heap m1) q (Id (heap m job))) = None)
      by by apply (Raise_no_error _ q _ job).
    by destruct (Raise (heap m1) q (Id (heap m job))).
Qed.

Lemma find_None_of_all ord m id :
  (forall p, queued ord m p -> Id (heap m p) <> id) -> find ord m id = None.
Proof.
  intros Hall. destruct (find ord m id) as [job|] eqn:E; [|done].
  apply findIn_Some in E as [Hq Hid]. by destruct (Hall job Hq).
Qed.

(** What a successful [MarkStart] on a queued job of a well-formed state
    leaves: the job Ready, at the head of its queue, the rest as it was. *)
Lemma MarkStart_effect ord m job m' :
  wf ord m -> queued ord m job ->
  MarkStart ord m (Id (heap m job)) = (m', None) ->
  Status_ (heap m' job) = ReadyStatus
  /\ (exists q, queues m' !! queueName (heap m job) = Some q
                /\ head (Jobs q) = Some job)
  /\ (forall p, p <> job -> heap m' p = heap m p)
  /\ qperm (queues m) (queues m')
  /\ statusOnly (heap m) (heap m')
  /\ brk m' = brk m.
Proof.
  intros Hwf Hq E.
  pose proof (MarkStart_frame _ _ _ _ _ E) as (HQ & HS & Hb & _ & Hst).
  destruct (MarkStart_raised _ _ _ _ E) as (job0 & q & hd & Hf & Hqq & Hh & Hid).
  rewrite (wf_find _ _ _ Hwf Hq) in Hf. injection Hf as <-.
  destruct (statusOnly_fields _ _ job HS) as (_ & _ & _ & _ & Hqn & _).
  rewrite Hqn in Hqq.
  assert (hd = job) as ->.
  { destruct (qperm_Some_inv _ _ _ _ HQ Hqq) as (q0 & Hq0 & P & _).
    apply (wf_ids ord m); [done| |done|].
    - eapply wf_queued; [done|exact Hq0|]. rewrite <- P.
      rewrite head_lookup in Hh. by eapply list_elem_of_lookup_2.
    - by destruct (statusOnly_fields _ _ hd HS) as (<- & _). }
  split; [|split; [eauto|split; [|done]]].
  - unfold MarkStart in E. rewrite (wf_find _ _ _ Hwf Hq) in E.
    destruct (bool_decide_reflect (Status_ (heap m job) = ReadyStatus))
      as [HR|HR].
    + destruct (Hst job) as [->|(_ & -> & _)]; done.
    + destruct (Hst job) as [Heq|(_ & -> & _)]; [|done].
      destruct (TransitionJobState m job ReadyStatus) as [m1 [e|]] eqn:ET;
        [by injection E|].
      apply TransitionJobState_ok in ET as (_ & HS1 & _).
      destruct (queues m1 !! _); [|done].
      destruct (Raise _ _ _). injection E as <- _. done.
  - intros p Hp. destruct (Hst p) as [Heq|(Hf & _)].
    + rewrite (HS p). rewrite Heq. by destruct (heap m p).
    + rewrite (wf_find _ _ _ Hwf Hq) in Hf. congruence.
Qed.

(** X9. For a queued job of a well-formed state, [MarkStart] by its id:
    from Running, Succeed or End it returns NotSupport and changes
    nothing; from Ready, Failed or Paused it returns no error, the job is
    Ready and is the first of its queue, and no other job is touched. For
    an id that no queued job has it returns NotFound and changes
    nothing. *)
Theorem MarkStart_readies_and_raises ord m job :
  wf ord m ->
  queued ord m job ->
  (Status_ (heap m job) = RunningStatus
   \/ Status_ (heap m job) = SucceedStatus
   \/ Status_ (heap m job) = EndStatus ->
   MarkStart ord m (Id (heap m job)) = (m, Some NotSupportError))
  /\ (Status_ (heap m job) = ReadyStatus
      \/ Status_ (heap m job) = FailedStatus
      \/ Status_ (heap m job) = PausedStatus ->
      snd (MarkStart ord m (Id (heap m job))) = None
      /\ Status_ (heap (fst (MarkStart ord m (Id (heap m job)))) job)
         = ReadyStatus
      /\ (exists q,
            queues (fst (MarkStart ord m (Id (heap m job))))
            !! queueName (heap m job) = Some q
            /\ head (Jobs q) = Some job)
      /\ (forall p, p <> job ->
            heap (fst (MarkStart ord m (Id (heap m job)))) p = heap m p))
  /\ (forall id,
        (forall p, queued ord m p -> Id (heap m p) <> id) ->
        MarkStart ord m id = (m, Some NotFoundError)).
Proof.
  intros Hwf Hq. split; [|split].
  - intros Hst. unfold MarkStart. rewrite (wf_find _ _ _ Hwf Hq).
    rewrite bool_decide_eq_false_2 by (destruct Hst as [->|[->| ->]]; done).
    rewrite TransitionJobState_invalid; [done|].
    by destruct Hst as [->|[->| ->]].
  - intros Hst.
    assert (Hok : snd (MarkStart ord m (Id (heap m job))) = None).
    { apply MarkStart_ok; [done|done|].
      destruct Hst as [->|[->| ->]]; auto. }
    destruct (MarkStart ord m (Id (heap m job))) as [m' e] eqn:E.
    simpl in Hok. subst e. simpl.
    destruct (MarkStart_effect _ _ _ _ Hwf Hq E) as (H1 & H2 & H3 & _).
    done.
  - intros id Hall. unfold MarkStart. by rewrite find_None_of_all.
Qed.

Lemma MarkStart_readies_and_raises_witness :
  wf Examples.ord3 Examples.installFoo
  /\ queued Examples.ord3 Examples.installFoo 0
  /\ exists q,
       queues (fst (MarkStart Examples.ord3 Examples.installFoo
                              (Id (heap Examples.installFoo 0))))
       !! queueName (heap Examples.installFoo 0) = Some q
       /\ head (Jobs q) = Some 0.
Proof.
  assert (Hwf : wf Examples.ord3 Examples.installFoo)
    by wf_by_evaluation.
  assert (Hq : queued Examples.ord3 Examples.installFoo 0).
  { unfold queued. vm_compute. apply list_elem_of_here. }
  split; [exact Hwf|]. split; [exact Hq|].
  refine (proj1 (proj2 (proj2 (proj1 (proj2
            (MarkStart_readies_and_raises Examples.ord3
               Examples.installFoo 0 Hwf Hq)) _)))).
  left. by vm_compute.
Defined.

(** ** PauseJob followed by MarkStart *)

Lemma PauseJob_pauses ord sysAbort m job :
  find ord m (Id (heap m job)) = Some job ->
  ValidTransitionJobState (Status_ (heap m job)) PausedStatus = true ->
  sysAbort (Id (heap m job)) = None ->
  snd (PauseJob ord sysAbort m (Id (heap m job))) = None
  /\ Status_ (heap (fst (PauseJob ord sysAbort m (Id (heap m job)))) job)
     = PausedStatus.
Proof.
  intros Hf HV HA. unfold PauseJob. rewrite Hf, HV, HA. simpl.
  unfold TransitionJobState. simpl. rewrite HV. simpl.
  by rewrite set_job_eq.
Qed.

(** X10. In a well-formed state, for a queued job that is Running or
    Ready and a backend whose [Abort] succeeds: [PauseJob] by the job's id
    returns no error and leaves the job Paused, and [MarkStart] by the
    same id then returns no error and leaves it Ready at the head of its
    queue, under the same id, every other job being as it was before the
    pause and every queue holding the jobs it held. *)
Theorem Pause_then_Start ord sysAbort m job :
  wf ord m ->
  queued ord m job ->
  Status_ (heap m job) = RunningStatus \/ Status_ (heap m job) = ReadyStatus ->
  sysAbort (Id (heap m job)) = None ->
  let m1 := fst (PauseJob ord sysAbort m (Id (heap m job))) in
  let m2 := fst (MarkStart ord m1 (Id (heap m job))) in
  snd (PauseJob ord sysAbort m (Id (heap m job))) = None
  /\ Status_ (heap m1 job) = PausedStatus
  /\ snd (MarkStart ord m1 (Id (heap m job))) = None
  /\ Status_ (heap m2 job) = ReadyStatus
  /\ Id (heap m2 job) = Id (heap m job)
  /\ (forall p, p <> job -> heap m2 p = heap m p)
  /\ qperm (queues m) (queues m2)
  /\ (exists q, queues m2 !! queueName (heap m job) = Some q
                /\ head (Jobs q) = Some job).
Proof.
  intros Hwf Hq Hst HA m1 m2.
  pose proof (wf_find _ _ _ Hwf Hq) as Hf.
  assert (HV : ValidTransitionJobState (Status_ (heap m job)) PausedStatus
               = true) by by destruct Hst as [-> | ->].
  destruct (PauseJob_pauses ord sysAbort m job Hf HV HA) as [He1 HS1].
  fold m1 in HS1.
  destruct (PauseJob_frame ord sysAbort m (Id (heap m job)))
    as (HSO1 & Hb1 & Ho1). fold m1 in HSO1, Hb1, Ho1.
  assert (Hqs1 : queues m1 = queues m) by apply PauseJob_queues.
  assert (Hwf1 : wf ord m1).
  { apply (wf_preserved ord m); [done| |lia|by apply statusOnly_keepsIdentity].
    rewrite Hqs1. apply qsub_refl. }
  assert (Hq1 : queued ord m1 job) by (unfold queued; by rewrite Hqs1).
  destruct (statusOnly_fields _ _ job HSO1) as (Hid1 & _ & _ & _ & Hqn1 & _).
  assert (Hok : snd (MarkStart ord m1 (Id (heap m1 job))) = None).
  { apply MarkStart_ok; [done|done|]. right. by rewrite HS1. }
  destruct (MarkStart ord m1 (Id (heap m1 job))) as [mm e] eqn:E.
  simpl in Hok. subst e.
  destruct (MarkStart_effect _ _ _ _ Hwf1 Hq1 E)
    as (HS2 & (q & Hqq & Hh) & Ho2 & HQ2 & HSO2 & _).
  rewrite Hid1 in E. subst m2. rewrite E. simpl.
  split; [done|]. split; [done|]. split; [done|]. split; [done|].
  split.
  { destruct (statusOnly_fields _ _ job HSO2) as (-> & _). done. }
  split.
  { intros p Hp. rewrite (Ho2 p Hp). apply Ho1. rewrite Hf. congruence. }
  split; [by rewrite <- Hqs1|].
  exists q. by rewrite <- Hqn1.
Qed.

Lemma Pause_then_Start_witness :
  wf Examples.ord3 Examples.installFoo
  /\ queued Examples.ord3 Examples.installFoo 0
  /\ Status_ (heap (fst (MarkStart Examples.ord3
                           (fst (PauseJob Examples.ord3 Examples.abortOk
                                          Examples.installFoo
                                          (Id (heap Examples.installFoo 0))))
                           (Id (heap Examples.installFoo 0)))) 0)
     = ReadyStatus.
Proof.
  assert (Hwf : wf Examples.ord3 Examples.installFoo)
    by wf_by_evaluation.
  assert (Hq : queued Examples.ord3 Examples.installFoo 0).
  { unfold queued. vm_compute. apply list_elem_of_here. }
  split; [exact Hwf|]. split; [exact Hq|].
  refine (proj1 (proj2 (proj2 (proj2
            (Pause_then_Start Examples.ord3 Examples.abortOk
               Examples.installFoo 0 Hwf Hq _ _))))).
  - right. by vm_compute.
  - reflexivity.
Defined.

(** ** CreateJob: admission of a new job *)

Lemma jobsOf_insert_notin (qs : gmap string JobQueue) n q2 names :
  n ∉ names -> jobsOf (<[n := q2]> qs) names = jobsOf qs names.
Proof.
  unfold jobsOf. induction names as [|name names IH]; simpl; [done|].
  rewrite not_elem_of_cons. intros [Hne Hnotin].
  rewrite lookup_insert_ne by done. by rewrite IH.
Qed.

Lemma jobsOf_insert_cons (qs : gmap string JobQueue) n q q2 job names :
  NoDup names -> n ∈ names -> qs !! n = Some q ->
  Jobs q2 ≡ₚ job :: Jobs q ->
  jobsOf (<[n := q2]> qs) names ≡ₚ job :: jobsOf qs names.
Proof.
  intros Hnd Hin Hq P. induction Hnd as [|name names Hnotin Hnd IH].
  - by apply not_elem_of_nil in Hin.
  - change (jobsOf ?a (name :: names))
      with (match a !! name with Some queue => Jobs queue | None => [] end
            ++ jobsOf a names).
    destruct (decide (n = name)) as [<-|Hne].
    + rewrite lookup_insert_eq, Hq, jobsOf_insert_notin by done.
      by rewrite P.
    + rewrite lookup_insert_ne by done.
      apply elem_of_cons in Hin as [|Hin]; [done|].
      rewrite (IH Hin). by rewrite Permutation_middle.
Qed.

Lemma newJobOfType_new m s1 s2 jobName jobType packages mb job :
  newJobOfType m s1 s2 jobName jobType packages = Some (mb, job) ->
  brk m < brk mb
  /\ (forall s, next (heap mb job) = Some s -> s < brk mb)
  /\ Status_ (heap mb job) = ReadyStatus
  /\ queueName (heap mb job)
     = match jobType with
       | DownloadJobType | InstallJobType => DownloadQueue
       | RemoveJobType | UpdateJobType => SystemChangeQueue
       | _ => LockQueue
       end
  /\ Id (heap mb job)
     = match jobType with
       | InstallJobType => seedId s2
       | _ => seedId s1
       end.
Proof.
  unfold newJobOfType, NewJob, shareNextId.
  destruct jobType; intros [= <- <-]; simpl;
    repeat first [rewrite set_job_eq
                 |rewrite set_job_ne by lia
                 |progress simpl];
    (split; [lia|]); (split; [|done]); intros s; intros [= <-]; lia.
Qed.

(** The state between [addJob] and [MarkStart] in a [CreateJob] that
    admits its job is well-formed and holds the job. *)
Lemma addJob_new_wf ord m mb job q :
  wf ord m -> NoDup ord ->
  brk m < brk mb -> job = brk m -> queues mb = queues m ->
  (forall x, x < brk m -> heap mb x = heap m x) ->
  (forall s, next (heap mb job) = Some s -> s < brk mb) ->
  queues m !! queueName (heap mb job) = Some q ->
  (forall x, x ∈ Jobs q -> workKey (heap m) x <> workKey (heap mb) job) ->
  (forall x, queued ord m x -> Id (heap m x) <> Id (heap mb job)) ->
  Id (heap mb job) <> "" ->
  exists q2,
    addJob mb job
    = (with_changed
         (with_queues mb (<[queueName (heap mb job) := q2]> (queues mb)))
         true, None)
    /\ Jobs q2 ≡ₚ job :: Jobs q
    /\ wf ord (fst (addJob mb job))
    /\ queued ord (fst (addJob mb job)) job.
Proof.
  intros Hwf Hnd Hbrk -> Hqs Hold Hnx Hq Hwork Hfresh Hne.
  remember (queueName (heap mb (brk m))) as n eqn:En.
  assert (Hn : n ∈ ord) by by eapply wf_names.
  assert (Hqueued : forall x, queued ord m x ->
             x < brk m /\ heap mb x = heap m x
             /\ forall s, next (heap mb x) = Some s -> s < brk mb).
  { intros x Hx. destruct (wf_bounds _ _ _ Hwf Hx) as [Hlt Hnxx].
    split; [done|]. split; [by apply Hold|].
    rewrite (Hold x Hlt). intros s Hs. specialize (Hnxx s Hs). lia. }
  destruct (addJob_admits mb (brk m) q) as (q2 & EA & P & _).
  { by rewrite <- En, Hqs. }
  { intros x Hx. apply not_true_iff_false. intros Hs.
    apply sameWork_key in Hs. apply (Hwork x Hx).
    assert (Hxq : queued ord m x) by by eapply wf_queued.
    destruct (Hqueued x Hxq) as (_ & Hhx & _).
    unfold workKey in *. by rewrite <- Hhx. }
  rewrite <- En in EA.
  exists q2. split; [done|]. split; [done|]. rewrite EA. cbn [fst].
  remember (with_changed (with_queues mb (<[n := q2]> (queues mb))) true)
    as m2 eqn:Em2.
  assert (Hq2 : queues m2 = <[n := q2]> (queues m)) by (by subst m2; rewrite <- Hqs).
  assert (Hh2 : heap m2 = heap mb) by by subst m2.
  assert (Hb2 : brk m2 = brk mb) by by subst m2.
  clear Em2 EA.
  assert (HJ : jobsOf (queues m2) ord ≡ₚ brk m :: jobsOf (queues m) ord).
  { rewrite Hq2. by apply (jobsOf_insert_cons _ n q). }
  split.
  2:{ unfold queued. rewrite HJ. apply list_elem_of_here. }
  destruct Hwf as (W1 & W2 & W3 & W4 & W5).
  unfold wf. rewrite Hh2, Hb2.
  split; [|split; [|split; [|split]]].
  - apply map_Forall_lookup. intros name q' Hq'. rewrite Hq2 in Hq'.
    destruct (decide (n = name)) as [<-|Hnn]; [done|].
    rewrite lookup_insert_ne in Hq' by done.
    by apply (map_Forall_lookup_1 _ _ _ _ W1 Hq').
  - apply map_Forall_lookup. intros name q' Hq'. rewrite Hq2 in Hq'.
    destruct (decide (n = name)) as [<-|Hnn].
    + rewrite lookup_insert_eq in Hq'. injection Hq' as <-.
      apply Forall_forall. intros x Hx. rewrite P in Hx.
      apply elem_of_cons in Hx as [->|Hx]; [done|].
      assert (Hxq : queued ord m x)
        by (apply jobsOf_spec; exists n, q; done).
      destruct (Hqueued x Hxq) as (_ & -> & _).
      pose proof (map_Forall_lookup_1 _ _ _ _ W2 Hq) as HF. simpl in HF.
      rewrite Forall_forall in HF. by apply HF.
    + rewrite lookup_insert_ne in Hq' by done.
      pose proof (map_Forall_lookup_1 _ _ _ _ W2 Hq') as HF. simpl in HF.
      apply Forall_forall. intros x Hx.
      assert (Hxq : queued ord m x).
      { apply jobsOf_spec. exists name, q'. split; [|done].
        by apply (map_Forall_lookup_1 _ _ _ _ W1 Hq'). }
      destruct (Hqueued x Hxq) as (_ & -> & _).
      rewrite Forall_forall in HF. by apply HF.
  - rewrite HJ. rewrite fmap_cons. apply NoDup_cons.
    assert (E : (fun p => Id (heap mb p)) <$> jobsOf (queues m) ord
                = (fun p => Id (heap m p)) <$> jobsOf (queues m) ord).
    { apply list_fmap_ext. intros i x Hx.
      apply list_elem_of_lookup_2 in Hx.
      by destruct (Hqueued x Hx) as (_ & -> & _). }
    rewrite E. split; [|done].
    intros Hin. apply list_elem_of_fmap in Hin as (x & Hid & Hx).
    by apply (Hfresh x Hx).
  - rewrite HJ. apply Forall_cons. split; [done|].
    rewrite Forall_forall in W4. apply Forall_forall. intros x Hx.
    destruct (Hqueued x Hx) as (_ & -> & _). by apply W4.
  - rewrite HJ. apply Forall_cons. split; [by split|].
    apply Forall_forall. intros x Hx.
    destruct (Hqueued x Hx) as (Hlt & _ & Hs). split; [lia|done].
Qed.

Lemma Raise_own_id h q job :
  job ∈ Jobs q ->
  (forall x, x ∈ Jobs q -> Id (h x) = Id (h job) -> x = job) ->
  exists i, Raise h q (Id (h job))
            = (with_Jobs q (Swap (Jobs q) 0 i), None)
            /\ head (Swap (Jobs q) 0 i) = Some job.
Proof.
  intros Hin Huniq.
  destruct (indexOf_unique h (Id (h job)) (Jobs q) job Hin eq_refl Huniq)
    as (i & Hi & Hij).
  exists i. unfold Raise. rewrite Hi. split; [done|]. by apply Swap_head.
Qed.

(** X11. [CreateJob] on a well-formed state, for a supported type, when
    the scan finds no duplicate, the queue of the new job holds no job of
    the same work, and the generated id is new and not empty: the job is
    built at a new address, routed by its type (Download and Install to
    the download queue, Remove and Update to the system change queue,
    UpdateSource and DistUpgrade to the lock queue), admitted, Ready and
    first in its queue, and returned without error; the other queues and
    the older jobs are as they were, and the state is well-formed again. *)
Theorem CreateJob_admits_new_job
  ord m s1 s2 jobName jobType packages mb job q :
  wf ord m ->
  NoDup ord ->
  find ord m (guest ord m jobType packages) = None ->
  newJobOfType m s1 s2 jobName jobType packages = Some (mb, job) ->
  queues m !! queueName (heap mb job) = Some q ->
  (forall x, x ∈ Jobs q -> workKey (heap m) x <> workKey (heap mb) job) ->
  (forall x, queued ord m x -> Id (heap m x) <> Id (heap mb job)) ->
  Id (heap mb job) <> "" ->
  let r := CreateJob ord m s1 s2 jobName jobType packages in
  let m' := fst (fst r) in
  snd (fst r) = Some job
  /\ snd r = None
  /\ job = brk m
  /\ queueName (heap mb job)
     = match jobType with
       | DownloadJobType | InstallJobType => DownloadQueue
       | RemoveJobType | UpdateJobType => SystemChangeQueue
       | _ => LockQueue
       end
  /\ Status_ (heap m' job) = ReadyStatus
  /\ (exists q',
        queues m' !! queueName (heap mb job) = Some q'
        /\ head (Jobs q') = Some job
        /\ Jobs q' ≡ₚ job :: Jobs q)
  /\ (forall name,
        name <> queueName (heap mb job) ->
        queues m' !! name = queues m !! name)
  /\ (forall p, p < brk m -> heap m' p = heap m p)
  /\ wf ord m'.
Proof.
  intros Hwf Hnd Hfind EN Hq Hwork Hfresh Hne r m'.
  pose proof (newJobOfType_new _ _ _ _ _ _ _ _ EN)
    as (Hbrk & Hnx & HS & Hroute & _).
  pose proof (newJobOfType_spec _ _ _ _ _ _ _ _ EN) as (Hjob & Hqs & Hold).
  destruct (addJob_new_wf ord m mb job q Hwf Hnd Hbrk Hjob Hqs Hold Hnx Hq
              Hwork Hfresh Hne) as (q2 & EA & P & Hwf2 & Hq2).
  subst r m'. unfold CreateJob. rewrite Hfind, EN.
  rewrite EA in Hwf2, Hq2 |- *. cbn [fst] in *.
  remember (with_changed
              (with_queues mb (<[queueName (heap mb job) := q2]> (queues mb)))
              true) as m2 eqn:Em2.
  assert (Hqm2 : queues m2 = <[queueName (heap mb job) := q2]> (queues m))
    by (by subst m2; rewrite <- Hqs).
  assert (Hh2 : heap m2 = heap mb) by by subst m2.
  assert (Hb2 : brk m2 = brk mb) by by subst m2.
  clear Em2 EA.
  assert (Hf2 : find ord m2 (Id (heap m2 job)) = Some job)
    by by apply wf_find.
  assert (Hl2 : queues m2 !! queueName (heap m2 job) = Some q2)
    by by rewrite Hh2, Hqm2, lookup_insert_eq.
  assert (HS2 : Status_ (heap m2 job) = ReadyStatus) by by rewrite Hh2.
  rewrite (MarkStart_exec_ready ord m2 _ job q2 Hf2 HS2 Hl2).
  destruct (Raise_own_id (heap m2) q2 job) as (i & ER & Hh).
  { rewrite P. apply list_elem_of_here. }
  { intros x Hx Hid. apply (wf_ids ord m2); [done| |done|done].
    eapply wf_queued; [done|exact Hl2|done]. }
  rewrite ER. cbn [fst snd]. rewrite Hh2 in *.
  split; [done|]. split; [done|]. split; [done|]. split; [done|].
  cbn [heap queues with_queues]. rewrite Hh2.
  split; [done|]. split.
  { exists (with_Jobs q2 (Swap (Jobs q2) 0 i)). rewrite lookup_insert_eq.
    split; [done|]. split; [done|]. simpl. by rewrite Swap_head_perm. }
  split.
  { intros name Hname. rewrite lookup_insert_ne by done.
    rewrite Hqm2. by rewrite lookup_insert_ne by done. }
  split; [done|].
  apply (wf_preserved ord m2); [done| |simpl; lia|].
  - simpl. apply (qsub_insert _ _ q2); [done|].
    simpl. by rewrite Swap_head_perm.
  - apply keepsIdentity_refl.
Qed.

Lemma CreateJob_admits_new_job_witness :
  wf Examples.ord3 NewJobManager
  /\ NoDup Examples.ord3
  /\ find Examples.ord3 NewJobManager
          (guest Examples.ord3 NewJobManager InstallJobType ["foo"]) = None
  /\ wf Examples.ord3
        (fst (fst (CreateJob Examples.ord3 NewJobManager
                             (Examples.seed "1" 1) (Examples.seed "2" 2)
                             "job" InstallJobType ["foo"]))).
Proof.
  assert (Hwf : wf Examples.ord3 NewJobManager) by wf_by_evaluation.
  assert (Hnd : NoDup Examples.ord3).
  { apply (bool_decide_unpack _). by vm_compute. }
  assert (Hf : find Examples.ord3 NewJobManager
                    (guest Examples.ord3 NewJobManager InstallJobType ["foo"])
               = None) by by vm_compute.
  split; [exact Hwf|]. split; [exact Hnd|]. split; [exact Hf|].
  refine (proj2 (proj2 (proj2 (proj2 (proj2 (proj2 (proj2 (proj2
            (CreateJob_admits_new_job Examples.ord3 NewJobManager
               (Examples.seed "1" 1) (Examples.seed "2" 2) "job"
               InstallJobType ["foo"] _ 0
               (mkJobQueue DownloadQueue [] DownloadQueueCap)
               Hwf Hnd Hf eq_refl _ _ _ _))))))))).
  - by vm_compute.
  - intros x Hx. by apply not_elem_of_nil in Hx.
  - intros x Hx. unfold queued in Hx. vm_compute in Hx.
    by apply not_elem_of_nil in Hx.
  - by vm_compute.
Defined.

(** ** The scheduling phase and the capacity of a queue *)

Lemma scheduleQueue_wf ord sysStart m name :
  wf ord m -> wf ord (scheduleQueue ord sysStart m name).
Proof.
  intros Hwf.
  destruct (scheduleQueue_frame ord sysStart m name) as (HQ & Hb & HS & _).
  apply (wf_preserved ord m); [done|by apply qperm_qsub|lia|].
  by apply softOnly_keepsIdentity.
Qed.






(** ** The change flag and the notification *)

Lemma flagKept_refl m : flagKept m m.
Proof. by split. Qed.

Lemma flagKept_trans m1 m2 m3 :
  flagKept m1 m2 -> flagKept m2 m3 -> flagKept m1 m3.
Proof. intros [H1 H2] [H3 H4]. split; [congruence|auto]. Qed.

Lemma flagKept_fold {A} (f : JobManager -> A -> JobManager) (l : list A) m :
  (forall m x, flagKept m (f m x)) -> flagKept m (fold_left f l m).
Proof.
  intros Hf. revert m. induction l as [|x l IH]; intros m; simpl.
  - apply flagKept_refl.
  - eapply flagKept_trans; [apply Hf|apply IH].
Qed.

Lemma TransitionJobState_flag m job to :
  flagKept m (fst (TransitionJobState m job to)).
Proof.
  unfold TransitionJobState.
  destruct (ValidTransitionJobState _ _); by split.
Qed.

Lemma MarkStart_flag ord m id : flagKept m (fst (MarkStart ord m id)).
Proof.
  unfold MarkStart. destruct (find ord m id) as [job|]; [|by split].
  destruct (bool_decide _).
  - destruct (queues m !! _) as [queue|]; [|by split].
    destruct (Raise _ _ _). by split.
  - pose proof (TransitionJobState_flag m job ReadyStatus) as HF.
    destruct (TransitionJobState m job ReadyStatus) as [m1 [e|]];
      simpl in HF; [exact HF|].
    destruct (queues m1 !! _) as [queue|]; [|exact HF].
    destruct (Raise _ _ _). simpl. destruct HF. by split.
Qed.

Lemma addJob_flag m j : flagKept m (fst (addJob m j)).
Proof.
  unfold addJob. destruct (queues m !! _) as [queue|]; [|by split].
  destruct (Add _ _ _) as [queue' [e|]]; by split.
Qed.

Lemma removeJob_flag m id queue : flagKept m (fst (removeJob m id queue)).
Proof.
  unfold removeJob. destruct (queues m !! _) as [q|]; [|by split].
  destruct (Remove _ _ _) as [q' [e|]]; by split.
Qed.

Lemma StartSystemJob_flag sysStart m job :
  flagKept m (fst (StartSystemJob sysStart m job)).
Proof.
  unfold StartSystemJob.
  pose proof (TransitionJobState_flag m job RunningStatus) as HF.
  destruct (TransitionJobState m job RunningStatus) as [m1 [e|]];
    simpl in HF; [exact HF|].
  destruct (sysStart _); [|exact HF].
  eapply flagKept_trans; [exact HF|].
  eapply flagKept_trans; [|apply TransitionJobState_flag]. by split.
Qed.

Lemma reapJob_flag ord m job : flagKept m (reapJob ord m job).
Proof.
  unfold reapJob.
  eapply flagKept_trans; [apply (removeJob_flag m)|].
  destruct (next _) as [nx|]; [|apply flagKept_refl].
  eapply flagKept_trans; [apply addJob_flag|apply MarkStart_flag].
Qed.

Lemma startJob_flag ord sysStart m job :
  flagKept m (startJob ord sysStart m job).
Proof.
  unfold startJob.
  eapply flagKept_trans; [|apply StartSystemJob_flag].
  destruct (bool_decide _); [apply MarkStart_flag|apply flagKept_refl].
Qed.

Lemma scheduleQueue_flag ord sysStart m name :
  flagKept m (scheduleQueue ord sysStart m name).
Proof.
  unfold scheduleQueue. destruct (queues m !! name); [|apply flagKept_refl].
  destruct (_ && _); [apply flagKept_refl|].
  destruct (PendingJobs _ _) as [h' jobs].
  eapply flagKept_trans;
    [|apply flagKept_fold; intros; apply startJob_flag]. by split.
Qed.

Lemma removeJob_changed ord m name q job :
  wf ord m -> queues m !! name = Some q -> job ∈ Jobs q ->
  changed (fst (removeJob m (Id (heap m job)) (queueName (heap m job))))
  = true.
Proof.
  intros Hwf Hq Hin. rewrite (wf_home _ _ _ _ _ Hwf Hq Hin).
  destruct (indexOf_Some_of_elem (heap m) (Id (heap m job)) (Jobs q) job)
    as [i Hi]; [done|done|].
  by rewrite (removeJob_exec m _ name q i Hq Hi).
Qed.

(** X13. A dispatch tick leaves the [changed] flag cleared and calls
    [notify] at most once; it calls it when the flag was set before the
    tick, and, in a well-formed state, when a queue holds a job in
    EndStatus, which the tick removes. *)
Theorem dispatch_notifies_once ord sysStart ordReap ordSched m :
  let m' := dispatch ord sysStart ordReap ordSched m in
  changed m' = false
  /\ (notified m' = notified m \/ notified m' = S (notified m))
  /\ (changed m = true -> notified m' = S (notified m))
  /\ (wf ord m -> endJobs m ordReap <> [] ->
      notified m' = S (notified m)).
Proof.
  intros m'. subst m'. unfold dispatch.
  set (m1 := reap ord ordReap m).
  set (m2 := schedule ord sysStart ordSched m1).
  assert (H2 : flagKept m1 m2).
  { apply flagKept_fold. intros. apply scheduleQueue_flag. }
  assert (H1 : flagKept m m1).
  { apply flagKept_fold. intros. apply reapJob_flag. }
  destruct (flagKept_trans _ _ _ H1 H2) as [Hn Hc].
  assert (Hset : changed m2 = true ->
                 notified (notifyChanged m2) = S (notified m)).
  { intros E. unfold notifyChanged. rewrite E. simpl. by rewrite Hn. }
  split; [|split; [|split]].
  - unfold notifyChanged. by destruct (changed m2) eqn:E.
  - unfold notifyChanged. destruct (changed m2); simpl; rewrite Hn; auto.
  - auto.
  - intros Hwf Hend. apply Hset, (proj2 H2).
    subst m1. unfold reap.
    destruct (endJobs m ordReap) as [|job jobs] eqn:E; [done|]. simpl.
    assert (Hjob : job ∈ endJobs m ordReap)
      by (rewrite E; apply list_elem_of_here).
    apply endJobs_spec in Hjob as (name & q & _ & Hq & Hin & _).
    pose proof (removeJob_changed ord m name q job Hwf Hq Hin) as Hch.
    assert (Hr : changed (reapJob ord m job) = true).
    { unfold reapJob. destruct (next _) as [nx|]; [|done].
      eapply (proj2 (flagKept_trans _ _ _ (addJob_flag _ nx)
                       (MarkStart_flag ord _ _))). exact Hch. }
    assert (HF : flagKept (reapJob ord m job)
                          (fold_left (reapJob ord) jobs (reapJob ord m job))).
    { apply flagKept_fold. intros. apply reapJob_flag. }
    by apply (proj2 HF).
Qed.

(** ** The reap phase: jobs in EndStatus leave their queue *)

Lemma filter_all {A} (P : A -> Prop) `{forall x, Decision (P x)}
  (l : list A) :
  (forall x, x ∈ l -> P x) -> filter P l = l.
Proof.
  induction l as [|x l IH]; intros HP; [done|].
  rewrite filter_cons_True by (apply HP, list_elem_of_here).
  f_equal. apply IH. intros y Hy. by apply HP, list_elem_of_further.
Qed.

Lemma filter_ne_delete (l : list ptr) i x :
  NoDup l -> l !! i = Some x ->
  take i l ++ drop (S i) l ≡ₚ filter (fun p => p <> x) l.
Proof.
  intros Hnd Hi. apply NoDup_Permutation.
  - rewrite <- delete_take_drop. apply (sublist_NoDup _ _ Hnd).
    apply sublist_delete.
  - by apply NoDup_filter.
  - intros y. rewrite (take_drop_without l i x y Hnd Hi).
    rewrite list_elem_of_filter. tauto.
Qed.

Lemma reapJob_removes ord m job :
  wf ord m -> next (heap m job) = None ->
  (forall x, queued ord m x -> Id (heap m x) = Id (heap m job) -> x = job) ->
  let m' := reapJob ord m job in
  heap m' = heap m /\ brk m' = brk m
  /\ forall name,
       match queues m !! name, queues m' !! name with
       | Some q, Some q' => Jobs q' ≡ₚ filter (fun p => p <> job) (Jobs q)
       | None, None => True
       | _, _ => False
       end.
Proof.
  intros Hwf Hnext Huniq. unfold reapJob.
  destruct (removeJob m _ _) as [m1 e1] eqn:E1. simpl.
  pose proof (removeJob_frame _ _ _ _ _ E1) as (Hh1 & Hb1 & _).
  rewrite Hh1, Hnext. split; [done|]. split; [done|].
  assert (Hout : forall name q,
             queues m !! name = Some q -> job ∉ Jobs q ->
             Jobs q ≡ₚ filter (fun p => p <> job) (Jobs q)).
  { intros name q Hq Hnin. rewrite filter_all; [done|]. by intros x Hx ->. }
  assert (Hsame : (forall q, queues m !! queueName (heap m job) = Some q ->
                             job ∉ Jobs q) ->
                  m1 = m ->
                  forall name,
                    match queues m !! name, queues m1 !! name with
                    | Some q, Some q' =>
                      Jobs q' ≡ₚ filter (fun p => p <> job) (Jobs q)
                    | None, None => True
                    | _, _ => False
                    end).
  { intros Hnin -> name. destruct (queues m !! name) as [q|] eqn:Hq; [|done].
    apply (Hout name q Hq). intros Hin.
    pose proof (wf_home _ _ _ _ _ Hwf Hq Hin) as Hn. subst name.
    by apply (Hnin q). }
  unfold removeJob in E1.
  destruct (queues m !! queueName (heap m job)) as [q0|] eqn:E0.
  2:{ injection E1 as <- <-. by apply Hsame. }
  unfold Remove in E1.
  destruct (indexOf (heap m) (Id (heap m job)) (Jobs q0)) as [i|] eqn:Ei.
  2:{ injection E1 as <- <-. apply Hsame; [|done].
      intros q [= <-] Hin. by apply (indexOf_None _ _ _ _ Ei Hin). }
  injection E1 as <- <-. simpl.
  destruct (indexOf_Some _ _ _ _ Ei) as (x & Hx & Hid).
  assert (x = job) as ->.
  { apply Huniq; [|done]. eapply wf_queued; [done|exact E0|].
    by eapply list_elem_of_lookup_2. }
  intros name. destruct (decide (name = queueName (heap m job))) as [->|Hne].
  - rewrite E0, lookup_insert_eq. simpl. rewrite sort_Sort_perm.
    apply filter_ne_delete; [|done]. by eapply wf_NoDup.
  - rewrite lookup_insert_ne by done.
    destruct (queues m !! name) as [q|] eqn:Hq; [|done].
    apply (Hout name q Hq). intros Hin.
    by pose proof (wf_home _ _ _ _ _ Hwf Hq Hin).
Qed.

Lemma reapJobs_removes ord jobs m :
  wf ord m ->
  (forall p, p ∈ jobs -> next (heap m p) = None) ->
  (forall p x, p ∈ jobs -> queued ord m x ->
               Id (heap m x) = Id (heap m p) -> x = p) ->
  let m' := fold_left (reapJob ord) jobs m in
  heap m' = heap m /\ brk m' = brk m
  /\ forall name,
       match queues m !! name, queues m' !! name with
       | Some q, Some q' => Jobs q' ≡ₚ filter (fun p => p ∉ jobs) (Jobs q)
       | None, None => True
       | _, _ => False
       end.
Proof.
  revert m. induction jobs as [|job jobs IH]; intros m Hwf Hnext Huniq; simpl.
  - split; [done|]. split; [done|]. intros name.
    destruct (queues m !! name) as [q|]; [|done].
    rewrite filter_all; [done|]. intros x _. apply not_elem_of_nil.
  - destruct (reapJob_removes ord m job Hwf) as (Hh & Hb & HQ).
    { apply Hnext, list_elem_of_here. }
    { intros x. apply Huniq, list_elem_of_here. }
    set (m1 := reapJob ord m job) in *.
    assert (Hsub : qsub (queues m) (queues m1)).
    { intros name. specialize (HQ name).
      destruct (queues m !! name) as [q|], (queues m1 !! name) as [q'|];
        try done.
      rewrite HQ. apply sublist_submseteq, sublist_filter. }
    assert (Hwf1 : wf ord m1).
    { apply (wf_preserved ord m); [done|done|lia|].
      rewrite Hh. apply keepsIdentity_refl. }
    destruct (IH m1 Hwf1) as (Hh' & Hb' & HQ').
    { intros p Hp. rewrite Hh. by apply Hnext, list_elem_of_further. }
    { intros p x Hp Hx. rewrite Hh.
      apply Huniq; [by apply list_elem_of_further|].
      unfold queued in *. eapply elem_of_submseteq; [exact Hx|].
      by apply jobsOf_qsub. }
    split; [congruence|]. split; [congruence|]. intros name.
    specialize (HQ name). specialize (HQ' name).
    destruct (queues m !! name) as [q|], (queues m1 !! name) as [q1|];
      try done.
    destruct (queues (fold_left (reapJob ord) jobs m1) !! name) as [q2|];
      [|done].
    rewrite HQ', HQ, list_filter_filter.
    erewrite filter_ext_elem; [done|].
    intros x _. simpl. rewrite not_elem_of_cons. tauto.
Qed.

Lemma TransitionJobState_noEnd m job to p :
  to <> EndStatus ->
  Status_ (heap (fst (TransitionJobState m job to)) p) = EndStatus ->
  Status_ (heap m p) = EndStatus.
Proof.
  intros Hto. destruct (TransitionJobState m job to) as [m1 [e|]] eqn:E; simpl.
  - by apply TransitionJobState_error in E as [_ ->].
  - pose proof (TransitionJobState_frame _ _ _ _ _ E) as (_ & _ & _ & _ & Ho).
    apply TransitionJobState_ok in E as (_ & HS & _).
    destruct (decide (p = job)) as [->|Hne]; [congruence|].
    by rewrite Ho.
Qed.

Lemma startJob_noEnd ord sysStart m job p :
  Status_ (heap (startJob ord sysStart m job) p) = EndStatus ->
  Status_ (heap m p) = EndStatus.
Proof.
  unfold startJob. set (m1 := if bool_decide _ then _ else m).
  assert (H1 : Status_ (heap m1 p) = EndStatus ->
               Status_ (heap m p) = EndStatus).
  { subst m1. destruct (bool_decide _); [|done].
    destruct (MarkStart ord m (Id (heap m job))) as [mm e] eqn:EM. simpl.
    apply MarkStart_frame in EM as (_ & _ & _ & _ & H).
    destruct (H p) as [->|(_ & -> & _)]; done. }
  intros HE. apply H1. clear H1. revert HE. unfold StartSystemJob.
  pose proof (TransitionJobState_noEnd m1 job RunningStatus p) as HR.
  destruct (TransitionJobState m1 job RunningStatus) as [m2 [e|]];
    simpl in *; [by auto|].
  destruct (sysStart _); simpl; [|by auto].
  intros HE. apply HR; [done|].
  by apply (TransitionJobState_noEnd
              (with_call m2 (StartCall job)) job FailedStatus p) in HE.
Qed.

Lemma schedule_noEnd ord sysStart names m p :
  Status_ (heap (schedule ord sysStart names m) p) = EndStatus ->
  Status_ (heap m p) = EndStatus.
Proof.
  revert m. induction names as [|name names IH]; intros m; simpl; [done|].
  intros HE. apply IH in HE. revert HE. unfold scheduleQueue.
  destruct (queues m !! name) as [queue|]; [|done].
  destruct (_ && _); [done|].
  destruct (PendingJobs (heap m) queue) as [h' jobs] eqn:EP.
  apply PendingJobs_frame in EP as [Hr _].
  rewrite <- (retryOnly_Status _ _ p Hr).
  change (h' p) with (heap (with_heap m h') p).
  generalize (with_heap m h'). clear. induction jobs as [|job jobs IH];
    intros m0; simpl; [done|].
  intros HE. by apply IH, startJob_noEnd in HE.
Qed.

Lemma dispatch_without_successors ord sysStart ordReap ordSched m :
  wf ord m ->
  map_Forall (fun name _ => name ∈ ordReap) (queues m) ->
  (forall p, queued ord m p -> Status_ (heap m p) = EndStatus ->
             next (heap m p) = None) ->
  let m' := dispatch ord sysStart ordReap ordSched m in
  softOnly (heap m) (heap m')
  /\ (forall p, Status_ (heap m' p) = EndStatus ->
                Status_ (heap m p) = EndStatus)
  /\ forall name,
       match queues m !! name, queues m' !! name with
       | Some q, Some q' =>
         Jobs q'
         ≡ₚ filter (fun p => Status_ (heap m p) <> EndStatus) (Jobs q)
       | None, None => True
       | _, _ => False
       end.
Proof.
  intros Hwf Hall Hnone m'.
  assert (Hend : forall p, p ∈ endJobs m ordReap ->
                           queued ord m p /\ Status_ (heap m p) = EndStatus).
  { intros p (n & q0 & _ & Hq0 & Hin & HS)%endJobs_spec.
    split; [by eapply wf_queued|done]. }
  destruct (reapJobs_removes ord (endJobs m ordReap) m Hwf)
    as (Hh & _ & HQ).
  { intros p [Hp HS]%Hend. by apply Hnone. }
  { intros p x [Hp _]%Hend Hx Hid. by apply (wf_ids ord m). }
  fold (reap ord ordReap m) in Hh, HQ.
  set (m1 := reap ord ordReap m) in *.
  destruct (schedule_frame ord sysStart ordSched m1) as [HP HS].
  assert (Hqs : queues m' = queues (schedule ord sysStart ordSched m1)
                /\ heap m' = heap (schedule ord sysStart ordSched m1)).
  { subst m'. unfold dispatch, notifyChanged. fold m1.
    by destruct (changed _). }
  destruct Hqs as [Hqs Hhs]. rewrite Hqs, Hhs.
  split; [by rewrite <- Hh|]. split.
  { intros p HE. apply schedule_noEnd in HE. by rewrite <- Hh. }
  intros name. specialize (HQ name). specialize (HP name).
  destruct (queues m !! name) as [q|] eqn:Hq,
           (queues m1 !! name) as [q1|] eqn:Hq1; try done.
  - destruct (queues (schedule ord sysStart ordSched m1) !! name) as [q2|];
      [|done].
    destruct HP as (P2 & _). rewrite P2, HQ.
    erewrite filter_ext_elem; [done|].
    intros x Hx. simpl. split.
    + intros Hnin HE. apply Hnin, endJobs_spec. exists name, q.
      split; [|done]. by apply (map_Forall_lookup_1 _ _ _ _ Hall Hq).
    + intros HE [_ HE']%Hend. done.
Qed.

(** X14. A dispatch tick, from a well-formed state whose queues are all
    visited by the first loop and in which no queued job in EndStatus has
    a successor: every queue keeps exactly its jobs that were not in
    EndStatus, and no queued job is in EndStatus after the tick. *)
Theorem dispatch_reaps_End ord sysStart ordReap ordSched m name q :
  wf ord m ->
  map_Forall (fun name _ => name ∈ ordReap) (queues m) ->
  (forall p, queued ord m p -> Status_ (heap m p) = EndStatus ->
             next (heap m p) = None) ->
  queues m !! name = Some q ->
  let m' := dispatch ord sysStart ordReap ordSched m in
  exists q',
    queues m' !! name = Some q'
    /\ Jobs q' ≡ₚ filter (fun p => Status_ (heap m p) <> EndStatus) (Jobs q)
    /\ Forall (fun p => Status_ (heap m' p) <> EndStatus) (Jobs q').
Proof.
  intros Hwf Hall Hnone Hq m'.
  destruct (dispatch_without_successors ord sysStart ordReap ordSched m
              Hwf Hall Hnone) as (_ & HE & HQ).
  fold m' in HE, HQ. specialize (HQ name). rewrite Hq in HQ.
  destruct (queues m' !! name) as [q'|]; [|done].
  exists q'. split; [done|]. split; [done|].
  apply Forall_forall. intros p Hp HS. apply HE in HS.
  rewrite HQ in Hp. by apply list_elem_of_filter in Hp as [Hp _].
Qed.

Lemma dispatch_reaps_End_witness :
  let m := fst (CleanJob Examples.ord3 Examples.abortOk
                         Examples.installFoo "2") in
  wf Examples.ord3 m
  /\ exists q',
       queues (dispatch Examples.ord3 Examples.startOk Examples.ord3
                        Examples.ord3 m) !! DownloadQueue = Some q'
       /\ Jobs q' ≡ₚ [].
Proof.
  intros m.
  assert (Hwf : wf Examples.ord3 m) by (subst m; wf_by_evaluation).
  split; [exact Hwf|].
  destruct (dispatch_reaps_End Examples.ord3 Examples.startOk Examples.ord3
              Examples.ord3 m DownloadQueue
              (mkJobQueue DownloadQueue [0] DownloadQueueCap) Hwf)
    as (q' & Hq' & HP & _).
  - apply (bool_decide_unpack _). by vm_compute.
  - intros p Hp _. unfold queued in Hp. vm_compute in Hp.
    apply list_elem_of_singleton in Hp as ->. by vm_compute.
  - by vm_compute.
  - exists q'. split; [exact Hq'|]. exact HP.
Defined.

(** ** CleanJob, then a tick *)

Lemma find_Some_queued ord m id job :
  find ord m id = Some job -> queued ord m job /\ Id (heap m job) = id.
Proof.
  unfold find, queued. intros H. by apply findIn_Some in H.
Qed.

(** X15. In a well-formed state in which no queued job in EndStatus has a
    successor, [CleanJob] of a queued job that is not in EndStatus,
    followed by a dispatch tick that visits every queue: [CleanJob]
    returns no error, after the tick the job is in no queue and its id is
    not found any more, so that a second [CleanJob] returns NotFound; the
    other queued jobs that were not in EndStatus are still queued. *)
Theorem CleanJob_then_dispatch
  ord sysAbort sysStart ordReap ordSched m id job :
  wf ord m ->
  map_Forall (fun name _ => name ∈ ordReap) (queues m) ->
  (forall p, queued ord m p -> Status_ (heap m p) = EndStatus ->
             next (heap m p) = None) ->
  find ord m id = Some job ->
  Status_ (heap m job) <> EndStatus ->
  let m1 := fst (CleanJob ord sysAbort m id) in
  let m2 := dispatch ord sysStart ordReap ordSched m1 in
  snd (CleanJob ord sysAbort m id) = None
  /\ ~ queued ord m2 job
  /\ find ord m2 id = None
  /\ snd (CleanJob ord sysAbort m2 id) = Some NotFoundError
  /\ (forall p, queued ord m p -> p <> job ->
                Status_ (heap m p) <> EndStatus -> queued ord m2 p).
Proof.
  intros Hwf Hall Hnone Hfind HS m1 m2.
  destruct (CleanJob_ends ord sysAbort m id job Hfind HS)
    as (Herr & HE & Hnx & Hqs & Hoth).
  fold m1 in HE, Hnx, Hqs, Hoth.
  destruct (find_Some_queued _ _ _ _ Hfind) as [Hjob Hid].
  destruct (CleanJob_frame ord sysAbort m id) as (HK & Hb & _).
  fold m1 in HK, Hb.
  assert (Hwf1 : wf ord m1).
  { apply (wf_preserved ord m); [done| |lia|done].
    rewrite Hqs. apply qsub_refl. }
  assert (Hq1 : forall p, queued ord m1 p <-> queued ord m p).
  { intros p. unfold queued. by rewrite Hqs. }
  destruct (dispatch_without_successors ord sysStart ordReap ordSched m1 Hwf1)
    as (Hsoft & _ & HQ).
  { by rewrite Hqs. }
  { intros p Hp HEp. destruct (decide (p = job)) as [->|Hne]; [done|].
    rewrite Hoth in * by done. apply Hnone; [by apply Hq1|done]. }
  fold m2 in Hsoft, HQ.
  assert (Hq2 : forall p, queued ord m2 p <->
                          queued ord m1 p
                          /\ Status_ (heap m1 p) <> EndStatus).
  { intros p. unfold queued. rewrite !jobsOf_spec. split.
    - intros (name & q2 & Hname & Hl2 & Hin). specialize (HQ name).
      rewrite Hl2 in HQ.
      destruct (queues m1 !! name) as [q1|] eqn:Hl1; [|done].
      rewrite HQ in Hin. apply list_elem_of_filter in Hin as [Hp Hin].
      split; [|done]. exists name, q1. done.
    - intros [(name & q1 & Hname & Hl1 & Hin) Hp]. specialize (HQ name).
      rewrite Hl1 in HQ.
      destruct (queues m2 !! name) as [q2|] eqn:Hl2; [|done].
      exists name, q2. split; [done|]. split; [done|].
      rewrite HQ. by apply list_elem_of_filter. }
  assert (Hgone : ~ queued ord m2 job).
  { intros [_ H]%Hq2. done. }
  assert (Hnone2 : find ord m2 id = None).
  { apply find_None_of_all. intros p Hp Hidp.
    pose proof Hp as [Hp1 _]%Hq2.
    assert (Hne : p <> job) by (by intros ->).
    apply Hne. apply (wf_ids ord m); [done|by apply Hq1|done|].
    rewrite Hid, <- Hidp.
    destruct (softOnly_fields _ _ p Hsoft) as (-> & _).
    by rewrite Hoth. }
  split; [done|]. split; [done|]. split; [done|]. split.
  { unfold CleanJob. by rewrite Hnone2. }
  intros p Hp Hne HSp. apply Hq2. split; [by apply Hq1|].
  by rewrite Hoth.
Qed.

Lemma CleanJob_then_dispatch_witness :
  wf Examples.ord3 Examples.installFoo
  /\ find Examples.ord3
          (dispatch Examples.ord3 Examples.startOk Examples.ord3
             Examples.ord3
             (fst (CleanJob Examples.ord3 Examples.abortOk
                            Examples.installFoo "2"))) "2" = None.
Proof.
  assert (Hwf : wf Examples.ord3 Examples.installFoo) by wf_by_evaluation.
  split; [exact Hwf|].
  refine (proj1 (proj2 (proj2
            (CleanJob_then_dispatch Examples.ord3 Examples.abortOk
               Examples.startOk Examples.ord3 Examples.ord3
               Examples.installFoo "2" 0 Hwf _ _ eq_refl _)))).
  - apply (bool_decide_unpack _). by vm_compute.
  - intros p Hp. unfold queued in Hp. vm_compute in Hp.
    apply list_elem_of_singleton in Hp as ->. by vm_compute.
  - by vm_compute.
Defined.

(** ** One round of the scheduling loop *)

Lemma StartSystemJob_ready sysStart m job :
  Status_ (heap m job) = ReadyStatus ->
  let m' := fst (StartSystemJob sysStart m job) in
  heap m' job = with_Status (heap m job) (startOutcome sysStart (heap m job))
  /\ (forall p, p <> job -> heap m' p = heap m p)
  /\ calls m' = StartCall job :: calls m
  /\ queues m' = queues m /\ brk m' = brk m.
Proof.
  intros HS. unfold StartSystemJob, TransitionJobState, startOutcome.
  rewrite HS. simpl. rewrite set_job_eq.
  destruct (sysStart _) as [e|]; simpl; rewrite ?set_job_eq; simpl.
  - split; [done|]. split; [|done].
    intros p Hp. by rewrite !set_job_ne.
  - split; [done|]. split; [|done].
    intros p Hp. by rewrite set_job_ne.
Qed.

Lemma startJob_spec ord sysStart m job :
  wf ord m -> queued ord m job ->
  Status_ (heap m job) = ReadyStatus \/ Status_ (heap m job) = FailedStatus ->
  let m' := startJob ord sysStart m job in
  heap m' job = with_Status (heap m job) (startOutcome sysStart (heap m job))
  /\ (forall p, p <> job -> heap m' p = heap m p)
  /\ calls m' = StartCall job :: calls m.
Proof.
  intros Hwf Hq HS. unfold startJob.
  destruct HS as [HS|HS]; rewrite HS.
  - rewrite bool_decide_eq_false_2 by done.
    destruct (StartSystemJob_ready sysStart m job HS) as (H1 & H2 & H3 & _).
    done.
  - rewrite bool_decide_eq_true_2 by done.
    pose proof (MarkStart_ok ord m job Hwf Hq) as Hok.
    destruct (MarkStart ord m (Id (heap m job))) as [m1 e] eqn:EM.
    simpl in Hok. rewrite Hok in EM by (right; by rewrite HS).
    pose proof (MarkStart_frame _ _ _ _ _ EM) as (_ & _ & _ & Hc & _).
    destruct (MarkStart_effect ord m job m1 Hwf Hq EM)
      as (HR & _ & Ho & _ & HSO & _).
    simpl.
    destruct (StartSystemJob_ready sysStart m1 job HR) as (H1 & H2 & H3 & _).
    assert (Hj : heap m1 job = with_Status (heap m job) ReadyStatus).
    { by rewrite (HSO job), HR. }
    split; [|split].
    + rewrite H1, Hj. unfold startOutcome. simpl. done.
    + intros p Hp. by rewrite H2, Ho.
    + by rewrite H3, Hc.
Qed.

Lemma startJobs_spec ord sysStart jobs m :
  wf ord m -> NoDup jobs ->
  (forall p, p ∈ jobs ->
             queued ord m p
             /\ (Status_ (heap m p) = ReadyStatus
                 \/ Status_ (heap m p) = FailedStatus)) ->
  let m' := fold_left (startJob ord sysStart) jobs m in
  (forall p, p ∈ jobs ->
             heap m' p
             = with_Status (heap m p) (startOutcome sysStart (heap m p)))
  /\ (forall p, p ∉ jobs -> heap m' p = heap m p)
  /\ calls m' = rev (StartCall <$> jobs) ++ calls m.
Proof.
  revert m. induction jobs as [|job jobs IH]; intros m Hwf Hnd Hall; simpl.
  - split; [by intros p Hp%not_elem_of_nil|]. done.
  - apply NoDup_cons in Hnd as [Hnin Hnd].
    destruct (Hall job) as [Hq HS]; [apply list_elem_of_here|].
    destruct (startJob_spec ord sysStart m job Hwf Hq HS) as (H1 & H2 & H3).
    destruct (startJob_frame ord sysStart m job) as (HQ & Hb & HSO & _).
    set (m1 := startJob ord sysStart m job) in *.
    assert (Hwf1 : wf ord m1).
    { apply (wf_preserved ord m); [done|by apply qperm_qsub|lia|].
      by apply statusOnly_keepsIdentity. }
    destruct (IH m1 Hwf1 Hnd) as (H1' & H2' & H3').
    { intros p Hp. assert (p <> job) by (by intros ->).
      rewrite H2 by done. destruct (Hall p) as [Hqp HSp].
      { by apply list_elem_of_further. }
      split; [by apply (queued_qperm ord m m1)|done]. }
    split; [|split].
    + intros p [->|Hp]%elem_of_cons.
      * by rewrite H2', H1.
      * assert (p <> job) by (by intros ->).
        by rewrite H1', H2.
    + intros p [Hne Hp]%not_elem_of_cons. by rewrite H2', H2.
    + rewrite H3', H3. simpl. by rewrite <- app_assoc.
Qed.

(** X16. One round of the scheduling loop of [dispatch], in a well-formed
    state, for a queue that is not held back by the lock queue: every job
    [PendingJobs] returns is handed to the backend once, in the order of
    the returned list, and is Running after the round, or Failed when the
    backend refused it; no other job changes but for the [retry] that
    [PendingJobs] took, and the queues keep their jobs. *)
Theorem scheduleQueue_starts_pending ord sysStart m name queue h' jobs :
  wf ord m ->
  queues m !! name = Some queue ->
  name = LockQueue \/ lockRunning m = 0 ->
  PendingJobs (heap m) queue = (h', jobs) ->
  let m' := scheduleQueue ord sysStart m name in
  (forall p, p ∈ jobs ->
             heap m' p = with_Status (h' p) (startOutcome sysStart (h' p)))
  /\ (forall p, p ∉ jobs -> heap m' p = h' p)
  /\ calls m' = rev (StartCall <$> jobs) ++ calls m
  /\ qperm (queues m) (queues m').
Proof.
  intros Hwf Hq Hgo EP m'.
  destruct (scheduleQueue_frame ord sysStart m name) as (HQ & _).
  fold m' in HQ. subst m'. unfold scheduleQueue in *. rewrite Hq in *.
  assert (Hskip : negb (name =? LockQueue)%string
                  && negb (lockRunning m =? 0) = false).
  { apply andb_false_iff. destruct Hgo as [-> | ->].
    - left. by rewrite String.eqb_refl.
    - by right. }
  rewrite Hskip, EP in *.
  pose proof (wf_NoDup _ _ _ _ Hwf Hq) as Hnd.
  destruct (PendingJobs_unfold (heap m) queue Hnd) as (h1 & E1 & Hh1).
  rewrite EP in E1. injection E1 as <- Ejobs.
  pose proof (PendingJobs_frame _ _ _ _ EP) as [Hr Hin].
  assert (Hwf1 : wf ord (with_heap m h')).
  { apply (wf_preserved ord m); [done|apply qsub_refl|done|].
    by apply softOnly_keepsIdentity, retryOnly_soft. }
  destruct (startJobs_spec ord sysStart jobs (with_heap m h') Hwf1)
    as (H1 & H2 & H3).
  { rewrite Ejobs. rewrite sort_Sort_perm.
    apply (sublist_NoDup _ (Jobs queue)); [done|].
    etrans; [apply sublist_take|apply sublist_filter]. }
  { intros p Hp. split.
    - apply (wf_queued ord (with_heap m h') name queue); [done|done|auto].
    - simpl. rewrite (retryOnly_Status _ _ p Hr).
      rewrite Ejobs in Hp. apply sort_Sort_elem in Hp.
      apply elem_of_take in Hp as (i & Hi & _).
      apply list_elem_of_lookup_2, list_elem_of_filter in Hi as [Hc _].
      unfold candidate in Hc.
      destruct (Status_ (heap m p)); try done; auto. }
  done.
Qed.

Lemma scheduleQueue_starts_pending_witness :
  wf Examples.ord3 Examples.installFoo
  /\ Status_ (heap (scheduleQueue Examples.ord3 Examples.startOk
                                  Examples.installFoo DownloadQueue) 0)
     = RunningStatus.
Proof.
  assert (Hwf : wf Examples.ord3 Examples.installFoo) by wf_by_evaluation.
  split; [exact Hwf|].
  rewrite (proj1 (scheduleQueue_starts_pending Examples.ord3 Examples.startOk
                    Examples.installFoo DownloadQueue
                    (mkJobQueue DownloadQueue [0] DownloadQueueCap)
                    (heap Examples.installFoo) [0] Hwf eq_refl
                    (or_intror eq_refl) eq_refl) 0).
  - reflexivity.
  - apply list_elem_of_here.
Defined.

(** ** Raise and the sort of Add and Remove *)

Lemma sort_Sort_order_free h (l l' : list ptr) :
  l' ≡ₚ l -> Forall (notUpdateSource h) l ->
  NoDup ((fun p => CreateTime (h p)) <$> l) ->
  sort_Sort (Less h) l' = sort_Sort (Less h) l.
Proof.
  intros HP HU Hnd.
  apply (StronglySorted_unique_strong (byTime h)).
  - intros a b Ha Hb Hab Hba. rewrite sort_Sort_elem in Ha, Hb.
    rewrite HP in Ha.
    apply (NoDup_fmap_eq (fun p => CreateTime (h p)) l); [done..|].
    unfold byTime in *. simpl. lia.
  - apply sort_Sort_sorted. by rewrite HP.
  - by apply sort_Sort_sorted.
  - by rewrite !sort_Sort_perm.
Qed.

(** X17. What [Raise] does to a queue does not outlast the next [Add] or
    [Remove] that succeeds: when no job concerned is an UpdateSource job
    and the creation times are pairwise different (for [Remove], the ids
    of the queue as well), [Add] and [Remove] after a [Raise] return the
    queue they return without it. *)
Theorem Raise_forgotten_by_resort h l id :
  Forall (notUpdateSource h) (Jobs l) ->
  NoDup ((fun p => CreateTime (h p)) <$> Jobs l) ->
  let l1 := fst (Raise h l id) in
  (forall j,
      notUpdateSource h j ->
      NoDup ((fun p => CreateTime (h p)) <$> j :: Jobs l) ->
      snd (Add h l j) = None ->
      Add h l1 j = Add h l j)
  /\ (forall id2,
        NoDup ((fun p => Id (h p)) <$> Jobs l) ->
        snd (Remove h l id2) = None ->
        Remove h l1 id2 = Remove h l id2).
Proof.
  intros HU Hnd l1.
  assert (Hl1 : exists jobs, l1 = with_Jobs l jobs /\ jobs ≡ₚ Jobs l).
  { subst l1. unfold Raise. destruct (indexOf h id (Jobs l)) as [p|]; simpl.
    - eexists. split; [done|]. apply Swap_head_perm.
    - exists (Jobs l). by destruct l. }
  destruct Hl1 as (jobs & -> & HP). split.
  - intros j Hj Hndj Hok. unfold Add in *. simpl.
    destruct (List.find _ (Jobs l)) as [x|] eqn:EF; [done|].
    rewrite find_none_Forall.
    2:{ intros x Hx. rewrite HP in Hx. apply list_elem_of_In in Hx.
        by apply (find_none _ _ EF). }
    unfold with_Jobs. simpl. do 2 f_equal.
    apply sort_Sort_order_free.
    + by rewrite HP.
    + apply Forall_app. split; [done|]. by apply Forall_singleton.
    + assert (HPj : Jobs l ++ [j] ≡ₚ j :: Jobs l)
        by (by rewrite Permutation_app_comm).
      by rewrite HPj.
  - intros id2 Hids Hok. unfold Remove in *. simpl.
    destruct (indexOf h id2 (Jobs l)) as [i|] eqn:Ei; [|done].
    destruct (indexOf_Some _ _ _ _ Ei) as (x & Hx & Hid).
    destruct (indexOf_unique h id2 jobs x) as (i' & Ei' & Hx').
    { rewrite HP. by eapply list_elem_of_lookup_2. }
    { done. }
    { intros y Hy Hidy. rewrite HP in Hy.
      apply (NoDup_fmap_eq (fun p => Id (h p)) (Jobs l));
        [done|done|by eapply list_elem_of_lookup_2|]. simpl. congruence. }
    rewrite Ei'. unfold with_Jobs. simpl. do 2 f_equal.
    rewrite <- !delete_take_drop.
    apply sort_Sort_order_free.
    + apply (Permutation_cons_inv (a := x)).
      by rewrite <- (delete_Permutation jobs i' x),
                 <- (delete_Permutation (Jobs l) i x).
    + by apply Forall_delete.
    + by apply NoDup_fmap_delete.
Qed.

Lemma Raise_forgotten_by_resort_witness :
  let h := heap Examples.twoDownloads in
  let l := mkJobQueue DownloadQueue [1; 0] DownloadQueueCap in
  Forall (notUpdateSource h) (Jobs l)
  /\ NoDup ((fun p => CreateTime (h p)) <$> Jobs l)
  /\ Remove h (fst (Raise h l "1")) "2" = Remove h l "2".
Proof.
  intros h l.
  assert (HU : Forall (notUpdateSource h) (Jobs l)).
  { unfold notUpdateSource. apply (bool_decide_unpack _). by vm_compute. }
  assert (Hnd : NoDup ((fun p => CreateTime (h p)) <$> Jobs l)).
  { apply (bool_decide_unpack _). by vm_compute. }
  split; [exact HU|]. split; [exact Hnd|].
  apply (proj2 (Raise_forgotten_by_resort h l "1" HU Hnd) "2").
  - apply (bool_decide_unpack _). by vm_compute.
  - by vm_compute.
Defined.

(** ** The head of a queue is served first *)

Lemma scheduleQueue_exec ord sysStart m name queue h' jobs :
  wf ord m ->
  queues m !! name = Some queue ->
  name = LockQueue \/ lockRunning m = 0 ->
  PendingJobs (heap m) queue = (h', jobs) ->
  scheduleQueue ord sysStart m name
  = fold_left (startJob ord sysStart) jobs (with_heap m h')
  /\ wf ord (with_heap m h')
  /\ NoDup jobs
  /\ (forall p, p ∈ jobs ->
                queued ord (with_heap m h') p
                /\ (Status_ (h' p) = ReadyStatus
                    \/ Status_ (h' p) = FailedStatus)).
Proof.
  intros Hwf Hq Hgo EP. unfold scheduleQueue. rewrite Hq.
  assert (Hskip : negb (name =? LockQueue)%string
                  && negb (lockRunning m =? 0) = false).
  { apply andb_false_iff. destruct Hgo as [-> | ->].
    - left. by rewrite String.eqb_refl.
    - by right. }
  rewrite Hskip, EP. split; [done|].
  pose proof (wf_NoDup _ _ _ _ Hwf Hq) as Hnd.
  destruct (PendingJobs_unfold (heap m) queue Hnd) as (h1 & E1 & Hh1).
  rewrite EP in E1. injection E1 as <- Ejobs.
  pose proof (PendingJobs_frame _ _ _ _ EP) as [Hr Hin].
  assert (Hwf1 : wf ord (with_heap m h')).
  { apply (wf_preserved ord m); [done|apply qsub_refl|done|].
    by apply softOnly_keepsIdentity, retryOnly_soft. }
  split; [done|]. split.
  { rewrite Ejobs. rewrite sort_Sort_perm.
    apply (sublist_NoDup _ (Jobs queue)); [done|].
    etrans; [apply sublist_take|apply sublist_filter]. }
  intros p Hp. split.
  - apply (wf_queued ord (with_heap m h') name queue); [done|done|auto].
  - rewrite (retryOnly_Status _ _ p Hr).
    rewrite Ejobs in Hp. apply sort_Sort_elem in Hp.
    apply elem_of_take in Hp as (i & Hi & _).
    apply list_elem_of_lookup_2, list_elem_of_filter in Hi as [Hc _].
    unfold candidate in Hc.
    destruct (Status_ (heap m p)); try done; auto.
Qed.

(** X18. The job at the head of a queue, when it is Ready, is started by
    the next scheduling round of its queue, provided the queue has fewer
    Running jobs than its [Cap] and the round is not held back by the
    lock queue: the job is handed to the backend and is Running after the
    round, or Failed when the backend refused it. *)
Theorem head_Ready_job_is_started ord sysStart m name queue job :
  wf ord m ->
  queues m !! name = Some queue ->
  name = LockQueue \/ lockRunning m = 0 ->
  head (Jobs queue) = Some job ->
  Status_ (heap m job) = ReadyStatus ->
  (Z.of_nat (length (RunningJobs (heap m) queue)) < Cap queue)%Z ->
  let m' := scheduleQueue ord sysStart m name in
  heap m' job
  = with_Status (heap m job) (startOutcome sysStart (heap m job))
  /\ StartCall job ∈ calls m'.
Proof.
  intros Hwf Hq Hgo Hhead HS Hcap m'.
  destruct (PendingJobs (heap m) queue) as [h' jobs] eqn:EP.
  destruct (scheduleQueue_exec ord sysStart m name queue h' jobs
              Hwf Hq Hgo EP) as (Eexec & Hwf1 & Hndj & Hall).
  destruct (startJobs_spec ord sysStart jobs (with_heap m h') Hwf1 Hndj Hall)
    as (H1 & _ & H3).
  rewrite <- Eexec in H1, H3. fold m' in H1, H3. simpl in H1.
  pose proof (wf_NoDup _ _ _ _ Hwf Hq) as Hnd.
  destruct (PendingJobs_unfold (heap m) queue Hnd) as (h1 & E1 & Hh1).
  rewrite EP in E1. injection E1 as <- Ejobs.
  assert (Hin : job ∈ jobs).
  { rewrite Ejobs, sort_Sort_elem.
    destruct (Jobs queue) as [|x rest] eqn:EJ; [done|].
    injection Hhead as ->.
    assert (Hc : candidate (heap m) job = true)
      by (unfold candidate; by rewrite HS).
    rewrite filter_cons_True by done.
    match goal with
    | |- _ ∈ take ?n _ => destruct n as [|n'] eqn:En
    end.
    - cbn [length] in En. lia.
    - simpl. apply list_elem_of_here. }
  assert (Hh'job : h' job = heap m job).
  { rewrite Hh1. unfold retriable. rewrite HS. simpl.
    by rewrite andb_false_r. }
  split.
  - by rewrite (H1 job Hin), Hh'job.
  - rewrite H3. apply elem_of_app. left.
    apply list_elem_of_In. rewrite <- in_rev.
    apply list_elem_of_In, list_elem_of_fmap. eauto.
Qed.

Lemma head_Ready_job_is_started_witness :
  wf Examples.ord3 Examples.installFoo
  /\ StartCall 0 ∈ calls (scheduleQueue Examples.ord3 Examples.startOk
                                        Examples.installFoo DownloadQueue).
Proof.
  assert (Hwf : wf Examples.ord3 Examples.installFoo) by wf_by_evaluation.
  split; [exact Hwf|].
  refine (proj2 (head_Ready_job_is_started Examples.ord3 Examples.startOk
                   Examples.installFoo DownloadQueue
                   (mkJobQueue DownloadQueue [0] DownloadQueueCap) 0
                   Hwf eq_refl (or_intror eq_refl) eq_refl eq_refl _)).
  by vm_compute.
Defined.

(** ** Jobs a tick leaves alone *)

Lemma candidate_retriable h p : candidate h p = false -> retriable h p = false.
Proof.
  unfold candidate, retriable.
  destruct (Status_ (h p)); try done; intros ->; apply andb_false_r.
Qed.

Lemma scheduleQueue_untouched ord sysStart m name p :
  wf ord m -> candidate (heap m) p = false ->
  heap (scheduleQueue ord sysStart m name) p = heap m p.
Proof.
  intros Hwf Hc.
  destruct (queues m !! name) as [queue|] eqn:Hq.
  2:{ unfold scheduleQueue. by rewrite Hq. }
  destruct (negb (name =? LockQueue)%string && negb (lockRunning m =? 0))
    eqn:Eskip.
  { unfold scheduleQueue. by rewrite Hq, Eskip. }
  assert (Hgo : name = LockQueue \/ lockRunning m = 0).
  { apply andb_false_iff in Eskip as [H|H]; apply negb_false_iff in H.
    - left. by apply String.eqb_eq.
    - right. by apply Nat.eqb_eq. }
  destruct (PendingJobs (heap m) queue) as [h' jobs] eqn:EP.
  destruct (scheduleQueue_exec ord sysStart m name queue h' jobs
              Hwf Hq Hgo EP) as (-> & Hwf1 & Hndj & Hall).
  destruct (startJobs_spec ord sysStart jobs (with_heap m h') Hwf1 Hndj Hall)
    as (_ & H2 & _).
  pose proof (wf_NoDup _ _ _ _ Hwf Hq) as Hnd.
  destruct (PendingJobs_unfold (heap m) queue Hnd) as (h1 & E1 & Hh1).
  rewrite EP in E1. injection E1 as <- Ejobs.
  rewrite H2; simpl.
  - rewrite Hh1, (candidate_retriable _ _ Hc). by rewrite andb_false_r.
  - rewrite Ejobs, sort_Sort_elem. intros Hp.
    apply elem_of_take in Hp as (i & Hi & _).
    apply list_elem_of_lookup_2, list_elem_of_filter in Hi as [Hc' _].
    congruence.
Qed.

Lemma reap_without_successors ord ordReap m :
  wf ord m ->
  (forall e, queued ord m e -> Status_ (heap m e) = EndStatus ->
             next (heap m e) = None) ->
  heap (reap ord ordReap m) = heap m /\ wf ord (reap ord ordReap m).
Proof.
  intros Hwf Hnone.
  assert (Hend : forall p, p ∈ endJobs m ordReap ->
                           queued ord m p /\ Status_ (heap m p) = EndStatus).
  { intros p (n & q0 & _ & Hq0 & Hin & HS)%endJobs_spec.
    split; [by eapply wf_queued|done]. }
  destruct (reapJobs_removes ord (endJobs m ordReap) m Hwf)
    as (Hh & Hb & HQ).
  { intros p [Hp HS]%Hend. by apply Hnone. }
  { intros p x [Hp _]%Hend Hx Hid. by apply (wf_ids ord m). }
  fold (reap ord ordReap m) in Hh, Hb, HQ. split; [done|].
  apply (wf_preserved ord m); [done| |lia|].
  - intros name. specialize (HQ name).
    destruct (queues m !! name) as [q|],
             (queues (reap ord ordReap m) !! name) as [q'|]; try done.
    rewrite HQ. apply sublist_submseteq, sublist_filter.
  - rewrite Hh. apply keepsIdentity_refl.
Qed.

(** X19. A dispatch tick, from a well-formed state in which no queued job
    in EndStatus has a successor, leaves every job alone that is neither
    Ready nor Failed with retries left: a job that is Paused, Running,
    Succeed or in EndStatus, or Failed with no retry left, is after the
    tick what it was before. *)
Theorem dispatch_leaves_non_candidates ord sysStart ordReap ordSched m p :
  wf ord m ->
  (forall e, queued ord m e -> Status_ (heap m e) = EndStatus ->
             next (heap m e) = None) ->
  candidate (heap m) p = false ->
  heap (dispatch ord sysStart ordReap ordSched m) p = heap m p.
Proof.
  intros Hwf Hnone Hc.
  destruct (reap_without_successors ord ordReap m Hwf Hnone) as [Hh Hwf1].
  assert (HE : heap (dispatch ord sysStart ordReap ordSched m)
               = heap (schedule ord sysStart ordSched (reap ord ordReap m))).
  { unfold dispatch, notifyChanged. by destruct (changed _). }
  rewrite HE, <- Hh. rewrite <- Hh in Hc.
  revert Hwf1 Hc. generalize (reap ord ordReap m). clear.
  induction ordSched as [|name names IH]; intros m Hwf Hc; simpl; [done|].
  rewrite IH.
  - by apply scheduleQueue_untouched.
  - by apply scheduleQueue_wf.
  - unfold candidate in *. by rewrite scheduleQueue_untouched.
Qed.

Lemma dispatch_leaves_non_candidates_witness :
  let m := fst (PauseJob Examples.ord3 Examples.abortOk
                         Examples.installFoo "2") in
  wf Examples.ord3 m
  /\ Status_ (heap (dispatch Examples.ord3 Examples.startOk Examples.ord3
                             Examples.ord3 m) 0) = PausedStatus.
Proof.
  intros m.
  assert (Hwf : wf Examples.ord3 m) by (subst m; wf_by_evaluation).
  split; [exact Hwf|].
  rewrite (dispatch_leaves_non_candidates Examples.ord3 Examples.startOk
             Examples.ord3 Examples.ord3 m 0 Hwf).
  - reflexivity.
  - intros e He. unfold queued in He. vm_compute in He.
    apply list_elem_of_singleton in He as ->. by vm_compute.
  - by vm_compute.
Defined.

(** ** Chains of jobs: an invariant of every operation *)

Lemma keepsIdentity_below n h h' : keepsIdentity h h' -> keepsBelow n h h'.
Proof.
  intros HK p _. destruct (HK p) as (H1 & H2 & _ & _ & _ & H3). done.
Qed.

Lemma keepsBelow_eq n (h h' : Heap) :
  (forall p, p < n -> h' p = h p) -> keepsBelow n h h'.
Proof. intros H p Hp. rewrite (H p Hp). auto. Qed.

Lemma queued_qsub ord m m' x :
  qsub (queues m) (queues m') -> queued ord m' x -> queued ord m x.
Proof.
  intros HQ Hx. unfold queued in *.
  eapply elem_of_submseteq; [exact Hx|]. by apply jobsOf_qsub.
Qed.

Lemma wf_preserved_below ord m m' :
  wf ord m -> qsub (queues m) (queues m') -> brk m <= brk m' ->
  keepsBelow (brk m) (heap m) (heap m') -> wf ord m'.
Proof.
  intros Hwf HQ Hbrk HK.
  assert (HKq : forall p, queued ord m' p ->
             queued ord m p /\ p < brk m
             /\ Id (heap m' p) = Id (heap m p)
             /\ queueName (heap m' p) = queueName (heap m p)
             /\ (next (heap m' p) = next (heap m p)
                 \/ next (heap m' p) = None)).
  { intros p Hp. apply (queued_qsub _ _ _ _ HQ) in Hp.
    destruct (wf_bounds _ _ _ Hwf Hp) as [Hlt _].
    destruct (HK p Hlt) as (H1 & H2 & H3). done. }
  pose proof (jobsOf_qsub _ _ ord HQ) as Hsub.
  pose proof Hwf as (Hn & Hh & Hi & He & Hb).
  assert (Hname : forall name q', queues m' !! name = Some q' ->
             name ∈ ord /\ exists q, queues m !! name = Some q
                                     /\ Jobs q' ⊆+ Jobs q).
  { intros name q' Hq'. specialize (HQ name). rewrite Hq' in HQ.
    destruct (queues m !! name) as [q|] eqn:Hq; [|done].
    split; [by apply (map_Forall_lookup_1 _ _ _ _ Hn Hq)|eauto]. }
  split; [|split; [|split; [|split]]].
  - apply map_Forall_lookup. intros name q' Hq'.
    by destruct (Hname name q' Hq').
  - apply map_Forall_lookup. intros name q' Hq'.
    destruct (Hname name q' Hq') as (Hin & q & Hq & Hs).
    apply Forall_forall. intros p Hp.
    assert (Hpq : queued ord m' p).
    { apply jobsOf_spec. exists name, q'. done. }
    destruct (HKq p Hpq) as (_ & _ & _ & -> & _).
    apply (wf_home ord m name q); [done|done|].
    eapply elem_of_submseteq; [exact Hp|exact Hs].
  - assert (E : (fun p => Id (heap m' p)) <$> jobsOf (queues m') ord
                = (fun p => Id (heap m p)) <$> jobsOf (queues m') ord).
    { apply list_fmap_ext. intros i p Hp.
      apply list_elem_of_lookup_2 in Hp.
      by destruct (HKq p Hp) as (_ & _ & -> & _). }
    rewrite E. eapply submseteq_NoDup; [|exact Hi]. by apply fmap_submseteq.
  - apply Forall_forall. intros p Hp.
    destruct (HKq p Hp) as (Hpm & _ & -> & _).
    by apply (wf_id_nonempty ord m).
  - apply Forall_forall. intros p Hp.
    destruct (HKq p Hp) as (Hpm & Hlt & _ & _ & Hnx).
    split; [lia|]. intros s Hs.
    destruct (wf_bounds _ _ _ Hwf Hpm) as [_ Hb'].
    destruct Hnx as [E|E]; rewrite E in Hs; [|done].
    specialize (Hb' s Hs). lia.
Qed.

Lemma chained_preserved ord m m' :
  chained ord m -> qsub (queues m) (queues m') -> brk m <= brk m' ->
  keepsBelow (brk m) (heap m) (heap m') -> chained ord m'.
Proof.
  intros (Hwf & Hsucc & Hinj) HQ Hbrk HK.
  assert (Hnext : forall p s,
             queued ord m' p -> next (heap m' p) = Some s ->
             queued ord m p /\ next (heap m p) = Some s /\ s < brk m
             /\ Id (heap m' p) = Id (heap m p)).
  { intros p s Hp Hs. apply (queued_qsub _ _ _ _ HQ) in Hp.
    destruct (wf_bounds _ _ _ Hwf Hp) as [Hlt Hb].
    destruct (HK p Hlt) as (Hid & _ & [E|E]); rewrite E in Hs; [|done].
    split; [done|]. split; [done|]. split; [by apply Hb|done]. }
  split; [by apply (wf_preserved_below ord m)|]. split.
  - intros p s Hp Hs.
    destruct (Hnext p s Hp Hs) as (Hpm & Hsm & Hlt & Hid).
    destruct (Hsucc p s Hpm Hsm) as (Hnq & Hids & Hnone).
    destruct (HK s Hlt) as (Hid' & _ & Hnx').
    split; [|split].
    + intros Hq. by apply Hnq, (queued_qsub _ _ _ _ HQ).
    + congruence.
    + destruct Hnx' as [E|E]; congruence.
  - intros p p' s Hp Hp' Hs Hs'.
    destruct (Hnext p s Hp Hs) as (Hpm & Hsm & _).
    destruct (Hnext p' s Hp' Hs') as (Hpm' & Hsm' & _).
    by apply (Hinj p p' s).
Qed.

Lemma chained_insert_job ord m m2 n q q2 job :
  chained ord m -> NoDup ord ->
  queues m !! n = Some q ->
  queues m2 = <[n := q2]> (queues m) ->
  Jobs q2 ≡ₚ job :: Jobs q ->
  brk m <= brk m2 ->
  keepsBelow (brk m) (heap m) (heap m2) ->
  queueName (heap m2 job) = n ->
  job < brk m2 ->
  ~ queued ord m job ->
  Id (heap m2 job) <> "" ->
  (forall x, queued ord m x -> Id (heap m x) <> Id (heap m2 job)) ->
  (forall p, queued ord m p -> next (heap m p) <> Some job) ->
  (forall t,
      next (heap m2 job) = Some t ->
      t < brk m2 /\ t <> job /\ ~ queued ord m t
      /\ Id (heap m2 t) = Id (heap m2 job) /\ next (heap m2 t) = None
      /\ forall p, queued ord m p -> next (heap m p) <> Some t) ->
  chained ord m2
  /\ (forall x, queued ord m2 x <-> x = job \/ queued ord m x).
Proof.
  intros (Hwf & Hsucc & Hinj) Hnd Hq Hq2 P Hbrk HK Hhome Hlt Hnq Hne Hfresh
         Hnosucc Hjob.
  assert (Hn : n ∈ ord) by by eapply wf_names.
  assert (HJ : jobsOf (queues m2) ord ≡ₚ job :: jobsOf (queues m) ord).
  { rewrite Hq2. by apply (jobsOf_insert_cons _ n q). }
  assert (Hiff : forall x, queued ord m2 x <-> x = job \/ queued ord m x).
  { intros x. unfold queued. rewrite HJ. apply elem_of_cons. }
  assert (Hold : forall x, queued ord m x ->
             x < brk m
             /\ Id (heap m2 x) = Id (heap m x)
             /\ queueName (heap m2 x) = queueName (heap m x)
             /\ (next (heap m2 x) = next (heap m x)
                 \/ next (heap m2 x) = None)
             /\ forall s, next (heap m x) = Some s -> s < brk m).
  { intros x Hx. destruct (wf_bounds _ _ _ Hwf Hx) as [Hx1 Hx2].
    destruct (HK x Hx1) as (H1 & H2 & H3). done. }
  split; [|done]. split; [|split].
  - pose proof Hwf as (W1 & W2 & W3 & W4 & W5).
    split; [|split; [|split; [|split]]].
    + apply map_Forall_lookup. intros name q' Hq'. rewrite Hq2 in Hq'.
      destruct (decide (n = name)) as [<-|Hnn]; [done|].
      rewrite lookup_insert_ne in Hq' by done.
      by apply (map_Forall_lookup_1 _ _ _ _ W1 Hq').
    + apply map_Forall_lookup. intros name q' Hq'. rewrite Hq2 in Hq'.
      apply Forall_forall. intros x Hx.
      destruct (decide (n = name)) as [<-|Hnn].
      * rewrite lookup_insert_eq in Hq'. injection Hq' as <-.
        rewrite P in Hx. apply elem_of_cons in Hx as [->|Hx]; [done|].
        assert (Hxq : queued ord m x) by by eapply wf_queued.
        destruct (Hold x Hxq) as (_ & _ & -> & _).
        by apply (wf_home ord m n q).
      * rewrite lookup_insert_ne in Hq' by done.
        assert (Hxq : queued ord m x) by by eapply wf_queued.
        destruct (Hold x Hxq) as (_ & _ & -> & _).
        by apply (wf_home ord m name q').
    + rewrite HJ, fmap_cons. apply NoDup_cons.
      assert (E : (fun p => Id (heap m2 p)) <$> jobsOf (queues m) ord
                  = (fun p => Id (heap m p)) <$> jobsOf (queues m) ord).
      { apply list_fmap_ext. intros i x Hx.
        apply list_elem_of_lookup_2 in Hx.
        by destruct (Hold x Hx) as (_ & -> & _). }
      rewrite E. split; [|done].
      intros Hin. apply list_elem_of_fmap in Hin as (x & Hid & Hx).
      by apply (Hfresh x Hx).
    + rewrite HJ. apply Forall_cons. split; [done|].
      apply Forall_forall. intros x Hx.
      destruct (Hold x Hx) as (_ & -> & _). by apply (wf_id_nonempty ord m).
    + rewrite HJ. apply Forall_cons. split.
      * split; [done|]. intros s Hs. by destruct (Hjob s Hs).
      * apply Forall_forall. intros x Hx.
        destruct (Hold x Hx) as (Hx1 & _ & _ & Hnx & Hb).
        split; [lia|]. intros s Hs.
        destruct Hnx as [E|E]; rewrite E in Hs; [|done].
        specialize (Hb s Hs). lia.
  - intros p s [->|Hp]%Hiff Hs.
    + destruct (Hjob s Hs) as (_ & Hsj & Hsq & Hid & Hnx & _).
      split; [|done]. intros [?|?]%Hiff; done.
    + destruct (Hold p Hp) as (_ & Hid & _ & Hnx & Hb).
      destruct Hnx as [E|E]; rewrite E in Hs; [|done].
      destruct (Hsucc p s Hp Hs) as (Hsq & Hids & Hsn).
      destruct (HK s (Hb s Hs)) as (Hid' & _ & Hnx').
      split; [|split].
      * intros [->|?]%Hiff; [|done]. by apply (Hnosucc p Hp).
      * congruence.
      * destruct Hnx' as [E'|E']; congruence.
  - assert (Hone : forall p s, queued ord m p ->
               next (heap m2 p) = Some s -> next (heap m p) = Some s).
    { intros p s Hp Hs. destruct (Hold p Hp) as (_ & _ & _ & Hnx & _).
      destruct Hnx as [E|E]; rewrite E in Hs; done. }
    intros p p' s [->|Hp]%Hiff [->|Hp']%Hiff Hs Hs'; [done| | |].
    + destruct (Hjob s Hs) as (_ & _ & _ & _ & _ & Hno).
      by destruct (Hno p' Hp' (Hone p' s Hp' Hs')).
    + destruct (Hjob s Hs') as (_ & _ & _ & _ & _ & Hno).
      by destruct (Hno p Hp (Hone p s Hp Hs)).
    + apply (Hinj p p' s); auto.
Qed.

Lemma removeJob_queued_job ord m e :
  wf ord m -> queued ord m e ->
  let m1 := fst (removeJob m (Id (heap m e)) (queueName (heap m e))) in
  heap m1 = heap m /\ brk m1 = brk m
  /\ qsub (queues m) (queues m1)
  /\ (forall x, queued ord m1 x <-> queued ord m x /\ x <> e).
Proof.
  intros Hwf He.
  destruct (wf_queue_of _ _ _ Hwf He) as (q & Hq & Hin).
  destruct (indexOf_unique (heap m) (Id (heap m e)) (Jobs q) e Hin eq_refl)
    as (i & Hi & Hie).
  { intros x Hx Hid. apply (wf_ids ord m); [done| |done|done].
    by eapply wf_queued. }
  rewrite (removeJob_exec m _ _ q i Hq Hi). cbv zeta.
  cbn [fst heap brk queues with_changed with_queues].
  pose proof (wf_NoDup _ _ _ _ Hwf Hq) as Hnd.
  set (q' := with_Jobs q _).
  assert (Hq' : forall x, x ∈ Jobs q' <-> x ∈ Jobs q /\ x <> e).
  { intros x. subst q'. simpl. rewrite sort_Sort_elem.
    by apply take_drop_without. }
  split; [done|]. split; [done|]. split.
  { apply (qsub_insert _ _ q); [done|]. subst q'. simpl.
    rewrite sort_Sort_perm, <- delete_take_drop. apply submseteq_delete. }
  intros x. unfold queued. cbn [queues with_changed with_queues].
  rewrite !jobsOf_spec. split.
  - intros (name & qx & Hname & Hl & Hx).
    destruct (decide (name = queueName (heap m e))) as [->|Hne].
    + rewrite lookup_insert_eq in Hl. injection Hl as <-.
      apply Hq' in Hx as [Hx Hxe]. split; [|done]. eauto.
    + rewrite lookup_insert_ne in Hl by done. split; [eauto|].
      intros ->. apply Hne. symmetry. by apply (wf_home ord m name qx).
  - intros [(name & qx & Hname & Hl & Hx) Hxe].
    destruct (decide (name = queueName (heap m e))) as [->|Hne].
    + exists (queueName (heap m e)), q'. rewrite lookup_insert_eq.
      split; [done|]. split; [done|]. apply Hq'.
      assert (qx = q) as -> by congruence. done.
    + exists name, qx. rewrite lookup_insert_ne by done. done.
Qed.

Lemma addJob_chained ord m s :
  chained ord m -> NoDup ord ->
  s < brk m -> ~ queued ord m s -> next (heap m s) = None ->
  Id (heap m s) <> "" ->
  (forall x, queued ord m x -> Id (heap m x) <> Id (heap m s)) ->
  (forall p, queued ord m p -> next (heap m p) <> Some s) ->
  chained ord (fst (addJob m s))
  /\ (forall x, queued ord m x -> queued ord (fst (addJob m s)) x).
Proof.
  intros Hch Hnd Hlt Hnq Hnx Hne Hfresh Hnosucc. unfold addJob.
  destruct (queues m !! queueName (heap m s)) as [q|] eqn:Hq; [|done].
  unfold Add. destruct (List.find _ (Jobs q)) as [x|]; [done|].
  cbn [fst].
  destruct (chained_insert_job ord m
              (with_changed
                 (with_queues m
                    (<[queueName (heap m s)
                       := with_Jobs q (sort_Sort (Less (heap m))
                                                 (Jobs q ++ [s]))]>
                       (queues m))) true)
              (queueName (heap m s)) q
              (with_Jobs q (sort_Sort (Less (heap m)) (Jobs q ++ [s]))) s)
    as [H1 H2]; try done.
  - simpl. by rewrite sort_Sort_perm, Permutation_app_comm.
  - by apply keepsBelow_eq.
  - simpl. intros t Ht. congruence.
  - split; [done|]. intros x Hx. apply H2. by right.
Qed.

Lemma reapJob_chained ord m e :
  chained ord m -> NoDup ord -> queued ord m e ->
  chained ord (reapJob ord m e)
  /\ (forall x, queued ord m x -> x <> e -> queued ord (reapJob ord m e) x).
Proof.
  intros Hch Hnd He. pose proof Hch as (Hwf & Hsucc & Hinj).
  destruct (removeJob_queued_job ord m e Hwf He) as (Hh & Hb & HQ & Hiff).
  unfold reapJob.
  set (m1 := fst (removeJob m (Id (heap m e)) (queueName (heap m e)))) in *.
  assert (Hch1 : chained ord m1).
  { apply (chained_preserved ord m); [done|done|lia|].
    apply keepsBelow_eq. intros p _. by rewrite Hh. }
  rewrite Hh. destruct (next (heap m e)) as [s|] eqn:Hs.
  2:{ split; [done|]. intros x Hx Hxe. by apply Hiff. }
  destruct (Hsucc e s He Hs) as (Hsq & Hid & Hsn).
  destruct (wf_bounds _ _ _ Hwf He) as [_ Hsb].
  destruct (addJob_chained ord m1 s Hch1 Hnd) as [Hch2 Hq2].
  { rewrite Hb. by apply Hsb. }
  { intros [Hq _]%Hiff. done. }
  { by rewrite Hh. }
  { rewrite Hh, Hid. by apply (wf_id_nonempty ord m). }
  { intros x [Hx Hxe]%Hiff. rewrite Hh, Hid. intros Hidx.
    apply Hxe. by apply (wf_ids ord m). }
  { intros p [Hp Hpe]%Hiff. rewrite Hh. intros Hps.
    apply Hpe. by apply (Hinj p e s). }
  set (m2 := fst (addJob m1 s)) in *.
  destruct (MarkStart ord m2 (Id (heap m2 s))) as [m3 e3] eqn:E3.
  pose proof (MarkStart_frame _ _ _ _ _ E3) as (HQ3 & HS3 & Hb3 & _).
  cbn [fst]. split.
  - apply (chained_preserved ord m2); [done|by apply qperm_qsub|lia|].
    by apply keepsIdentity_below, statusOnly_keepsIdentity.
  - intros x Hx Hxe. apply (queued_qperm ord m2 m3); [done|].
    apply Hq2, Hiff. done.
Qed.

Lemma endJobs_NoDup ord m names :
  wf ord m -> NoDup names -> NoDup (endJobs m names).
Proof.
  intros Hwf Hnd. induction Hnd as [|name names Hnotin Hnd IH].
  - apply NoDup_nil_2.
  - change (endJobs m (name :: names))
      with (match queues m !! name with
            | Some queue =>
              filter (fun job => Status_ (heap m job) = EndStatus)
                     (Jobs queue)
            | None => []
            end ++ endJobs m names).
    apply NoDup_app. split; [|split; [|done]].
    + destruct (queues m !! name) as [q|] eqn:Hq; [|apply NoDup_nil_2].
      apply NoDup_filter. by eapply wf_NoDup.
    + intros x Hx Hx'.
      destruct (queues m !! name) as [q|] eqn:Hq;
        [|by apply not_elem_of_nil in Hx].
      apply list_elem_of_filter in Hx as [_ Hx].
      apply endJobs_spec in Hx' as (name' & q' & Hname' & Hq' & Hxq' & _).
      apply Hnotin.
      rewrite <- (wf_home _ _ _ _ _ Hwf Hq Hx).
      by rewrite (wf_home _ _ _ _ _ Hwf Hq' Hxq').
Qed.

Lemma reapJobs_chained ord jobs m :
  chained ord m -> NoDup ord -> NoDup jobs ->
  (forall e, e ∈ jobs -> queued ord m e) ->
  chained ord (fold_left (reapJob ord) jobs m).
Proof.
  intros Hch Hnd Hndj. revert m Hch.
  induction Hndj as [|e jobs Hnotin Hndj IH]; intros m Hch Hall; simpl;
    [done|].
  destruct (reapJob_chained ord m e Hch Hnd) as [Hch1 Hq1].
  { apply Hall, list_elem_of_here. }
  apply IH; [done|]. intros x Hx. apply Hq1.
  - by apply Hall, list_elem_of_further.
  - by intros ->.
Qed.

Lemma MarkStart_chained ord m id :
  chained ord m -> chained ord (fst (MarkStart ord m id)).
Proof.
  intros Hch. destruct (MarkStart ord m id) as [m' e] eqn:E. simpl.
  apply MarkStart_frame in E as (HQ & HS & Hb & _).
  apply (chained_preserved ord m); [done|by apply qperm_qsub|lia|].
  by apply keepsIdentity_below, statusOnly_keepsIdentity.
Qed.

Lemma PauseJob_chained ord sysAbort m id :
  chained ord m -> chained ord (fst (PauseJob ord sysAbort m id)).
Proof.
  intros Hch. destruct (PauseJob_frame ord sysAbort m id) as (HS & Hb & _).
  apply (chained_preserved ord m); [done| |lia|].
  - rewrite PauseJob_queues. apply qsub_refl.
  - by apply keepsIdentity_below, statusOnly_keepsIdentity.
Qed.

Lemma CleanJob_chained ord sysAbort m id :
  chained ord m -> chained ord (fst (CleanJob ord sysAbort m id)).
Proof.
  intros Hch. destruct (CleanJob_frame ord sysAbort m id) as (HK & Hb & _).
  apply (chained_preserved ord m); [done| |lia|].
  - rewrite CleanJob_queues. apply qsub_refl.
  - by apply keepsIdentity_below.
Qed.

Lemma dispatch_chained ord sysStart ordReap ordSched m :
  chained ord m -> NoDup ord -> NoDup ordReap ->
  chained ord (dispatch ord sysStart ordReap ordSched m).
Proof.
  intros Hch Hnd HndR.
  assert (Hch1 : chained ord (reap ord ordReap m)).
  { apply reapJobs_chained; [done|done| |].
    - apply (endJobs_NoDup ord); [by destruct Hch|done].
    - intros e (name & q & _ & Hq & Hin & _)%endJobs_spec.
      eapply wf_queued; [by destruct Hch|exact Hq|done]. }
  set (m1 := reap ord ordReap m) in *.
  destruct (schedule_frame ord sysStart ordSched m1) as [HQ HS].
  pose proof (schedule_brk ord sysStart ordSched m1) as Hb.
  set (m2 := schedule ord sysStart ordSched m1) in *.
  assert (Hch2 : chained ord m2).
  { apply (chained_preserved ord m1); [done|by apply qperm_qsub|lia|].
    by apply keepsIdentity_below, softOnly_keepsIdentity. }
  unfold dispatch. fold m1. fold m2.
  apply (chained_preserved ord m2); [done| | |].
  - unfold notifyChanged. destruct (changed m2); apply qsub_refl.
  - unfold notifyChanged. by destruct (changed m2).
  - apply keepsBelow_eq. intros p _. unfold notifyChanged.
    by destruct (changed m2).
Qed.

Lemma newJobOfType_chain m s1 s2 jobName jobType packages mb job :
  newJobOfType m s1 s2 jobName jobType packages = Some (mb, job) ->
  (Id (heap mb job) = seedId s1 \/ Id (heap mb job) = seedId s2)
  /\ forall t,
       next (heap mb job) = Some t ->
       brk m < t /\ t < brk mb /\ Id (heap mb t) = Id (heap mb job)
       /\ next (heap mb t) = None.
Proof.
  unfold newJobOfType, NewJob, shareNextId.
  destruct jobType; intros [= <- <-]; simpl;
    repeat first [rewrite set_job_eq
                 |rewrite set_job_ne by lia
                 |progress simpl];
    (split; [auto|]); intros t; intros [= <-];
    repeat first [rewrite set_job_eq
                 |rewrite set_job_ne by lia
                 |progress simpl];
    (split; [lia|]); (split; [lia|]); done.
Qed.

Lemma CreateJob_chained ord m s1 s2 jobName jobType packages :
  chained ord m -> NoDup ord ->
  seedId s1 <> "" -> seedId s2 <> "" ->
  (forall x, queued ord m x ->
             Id (heap m x) <> seedId s1 /\ Id (heap m x) <> seedId s2) ->
  chained ord (fst (fst (CreateJob ord m s1 s2 jobName jobType packages))).
Proof.
  intros Hch Hnd Hne1 Hne2 Hfresh. unfold CreateJob.
  destruct (find ord m (guest ord m jobType packages)) as [found|].
  { pose proof (MarkStart_chained ord m (Id (heap m found)) Hch) as H.
    by destruct (MarkStart ord m (Id (heap m found))). }
  destruct (newJobOfType m s1 s2 jobName jobType packages) as [[mb job]|]
    eqn:EN; [|done].
  pose proof (newJobOfType_spec _ _ _ _ _ _ _ _ EN) as (Hjob & Hqs & Hold).
  pose proof (newJobOfType_new _ _ _ _ _ _ _ _ EN) as (Hbrk & _).
  pose proof (newJobOfType_chain _ _ _ _ _ _ _ _ EN) as (Hid & Hnx).
  pose proof Hch as (Hwf & _).
  assert (Hlow : forall x, queued ord m x ->
             x < brk m /\ forall s, next (heap m x) = Some s -> s < brk m).
  { intros x Hx. by apply (wf_bounds ord m). }
  assert (Hchb : chained ord mb).
  { apply (chained_preserved ord m); [done| |lia|by apply keepsBelow_eq].
    rewrite Hqs. apply qsub_refl. }
  assert (Hch2 : chained ord (fst (addJob mb job))).
  { unfold addJob.
    destruct (queues mb !! queueName (heap mb job)) as [q|] eqn:Hq; [|done].
    unfold Add. destruct (List.find _ (Jobs q)) as [x|]; [done|].
    cbn [fst]. rewrite Hqs in Hq.
    apply (chained_insert_job ord m _ (queueName (heap mb job)) q
             (with_Jobs q (sort_Sort (Less (heap mb)) (Jobs q ++ [job])))
             job); try done.
    - simpl. by rewrite Hqs.
    - simpl. by rewrite sort_Sort_perm, Permutation_app_comm.
    - simpl. lia.
    - by apply keepsBelow_eq.
    - simpl. lia.
    - intros Hq'. destruct (Hlow job Hq'). lia.
    - simpl. by destruct Hid as [-> | ->].
    - simpl. intros x Hx. destruct (Hfresh x Hx).
      by destruct Hid as [-> | ->].
    - intros p Hp Hs. destruct (Hlow p Hp) as [_ Hb].
      specialize (Hb job Hs). lia.
    - simpl. intros t Ht. destruct (Hnx t Ht) as (H1 & H2 & H3 & H4).
      split; [done|]. split; [lia|]. split.
      { intros Hq'. destruct (Hlow t Hq'). lia. }
      split; [done|]. split; [done|].
      intros p Hp Hs. destruct (Hlow p Hp) as [_ Hb].
      specialize (Hb t Hs). lia. }
  set (m2 := fst (addJob mb job)) in *.
  pose proof (MarkStart_chained ord m2 (Id (heap m2 job)) Hch2) as H.
  by destruct (MarkStart ord m2 (Id (heap m2 job))).
Qed.

Lemma queued_Permutation ord o m x :
  o ≡ₚ ord -> queued o m x <-> queued ord m x.
Proof.
  intros HP. unfold queued. by rewrite (jobsOf_Permutation _ _ _ HP).
Qed.

Lemma wf_Permutation ord o m : o ≡ₚ ord -> wf ord m -> wf o m.
Proof.
  intros HP (W1 & W2 & W3 & W4 & W5).
  pose proof (jobsOf_Permutation (queues m) _ _ HP) as HJ.
  split; [|split; [done|split; [|split]]].
  - eapply map_Forall_impl; [exact W1|]. intros name q Hn. simpl in *.
    by rewrite HP.
  - by rewrite HJ.
  - by rewrite HJ.
  - by rewrite HJ.
Qed.

Lemma chained_Permutation ord o m : o ≡ₚ ord -> chained ord m -> chained o m.
Proof.
  intros HP (Hwf & Hsucc & Hinj).
  pose proof (fun x => queued_Permutation ord o m x HP) as Hq.
  split; [by apply (wf_Permutation ord)|]. split.
  - intros p s Hp%Hq Hs. destruct (Hsucc p s Hp Hs) as (H1 & H2 & H3).
    split; [|done]. by intros H%Hq.
  - intros p p' s Hp%Hq Hp'%Hq. by apply Hinj.
Qed.

Lemma NewJobManager_queues name q :
  queues NewJobManager !! name = Some q ->
  Jobs q = []
  /\ name ∈ [DownloadQueue; SystemChangeQueue; LockQueue].
Proof.
  unfold NewJobManager, createJobList. simpl.
  intros [[<- <-]|[_ H]]%lookup_insert_Some.
  { split; [done|]. repeat constructor. }
  apply lookup_insert_Some in H as [[<- <-]|[_ H]].
  { split; [done|]. repeat constructor. }
  apply lookup_insert_Some in H as [[<- <-]|[_ H]].
  { split; [done|]. repeat constructor. }
  by rewrite lookup_empty in H.
Qed.

Lemma NewJobManager_chained ord :
  ord ≡ₚ [DownloadQueue; SystemChangeQueue; LockQueue] ->
  chained ord NewJobManager.
Proof.
  intros HP.
  assert (HJ : jobsOf (queues NewJobManager) ord = []).
  { clear HP. unfold jobsOf. induction ord as [|name names IH]; [done|].
    cbn [flat_map]. rewrite IH.
    destruct (queues NewJobManager !! name) as [q|] eqn:Hq; [|done].
    by destruct (NewJobManager_queues name q Hq) as [-> _]. }
  split; [|split].
  - split; [|split; [|split; [|split]]].
    + apply map_Forall_lookup. intros name q Hq.
      destruct (NewJobManager_queues name q Hq) as [_ Hn]. by rewrite HP.
    + apply map_Forall_lookup. intros name q Hq.
      by destruct (NewJobManager_queues name q Hq) as [-> _].
    + rewrite HJ. apply NoDup_nil_2.
    + by rewrite HJ.
    + by rewrite HJ.
  - intros p s Hp. unfold queued in Hp. rewrite HJ in Hp.
    by apply not_elem_of_nil in Hp.
  - intros p p' s Hp. unfold queued in Hp. rewrite HJ in Hp.
    by apply not_elem_of_nil in Hp.
Qed.

Lemma TransitionJobState_chained ord m job to :
  chained ord m -> chained ord (fst (TransitionJobState m job to)).
Proof.
  intros Hch. destruct (TransitionJobState m job to) as [m' e] eqn:E.
  pose proof (TransitionJobState_frame _ _ _ _ _ E) as (Hq & Hb & _).
  pose proof (TransitionJobState_keepsIdentity _ _ _ _ _ E) as HK.
  simpl. apply (chained_preserved ord m); [done| |lia|].
  - rewrite Hq. apply qsub_refl.
  - by apply keepsIdentity_below.
Qed.

(** X20. The chains of jobs are an invariant of every operation of the
    manager. In a state that is well-formed and in which every successor
    of a queued job is outside the queues, has the id of its predecessor
    and no successor of its own, and belongs to one queued job only, the
    same holds after [MarkStart], [PauseJob] and [CleanJob], after a whole
    dispatch tick (the successors it promotes included) whatever the
    backend answers, and after [CreateJob] when the ids [NewJob] draws are
    not empty and not the id of a queued job. *)
Theorem operations_keep_chained ord m :
  chained ord m ->
  NoDup ord ->
  (forall id, chained ord (fst (MarkStart ord m id)))
  /\ (forall sysAbort id, chained ord (fst (PauseJob ord sysAbort m id)))
  /\ (forall sysAbort id, chained ord (fst (CleanJob ord sysAbort m id)))
  /\ (forall sysStart ordReap ordSched,
        NoDup ordReap ->
        chained ord (dispatch ord sysStart ordReap ordSched m))
  /\ (forall s1 s2 jobName jobType packages,
        freshSeed ord m s1 -> freshSeed ord m s2 ->
        chained ord
          (fst (fst (CreateJob ord m s1 s2 jobName jobType packages)))).
Proof.
  intros Hch Hnd. split; [|split; [|split; [|split]]].
  - intros id. by apply MarkStart_chained.
  - intros sysAbort id. by apply PauseJob_chained.
  - intros sysAbort id. by apply CleanJob_chained.
  - intros sysStart ordReap ordSched HndR. by apply dispatch_chained.
  - intros s1 s2 jobName jobType packages [Hne1 Hf1] [Hne2 Hf2].
    apply CreateJob_chained; try done.
    intros x Hx. split; [by apply Hf1|by apply Hf2].
Qed.

Lemma operations_keep_chained_witness :
  chained Examples.ord3 Examples.chainEnded
  /\ NoDup Examples.ord3
  /\ chained Examples.ord3
       (dispatch Examples.ord3 Examples.startOk Examples.ord3 Examples.ord3
                 Examples.chainEnded).
Proof.
  assert (Hch : chained Examples.ord3 Examples.chainEnded)
    by chained_by_evaluation.
  assert (Hnd : NoDup Examples.ord3).
  { apply (bool_decide_unpack _). by vm_compute. }
  split; [exact Hch|]. split; [exact Hnd|].
  exact (proj1 (proj2 (proj2 (proj2
           (operations_keep_chained Examples.ord3 Examples.chainEnded
              Hch Hnd))))
           Examples.startOk Examples.ord3 Examples.ord3 Hnd).
Defined.

(** X21. Every state the manager gets into is well-formed, with chains as
    [CreateJob] makes them: starting from [NewJobManager], after any
    number of calls of [CreateJob] (with new ids), [MarkStart], [PauseJob]
    and [CleanJob], of dispatch ticks and of status changes reported by
    the backend, whatever the orders are in which the map of the three
    queues is visited. *)
Theorem reachable_chained ord m :
  ord ≡ₚ [DownloadQueue; SystemChangeQueue; LockQueue] ->
  reachable ord m ->
  chained ord m.
Proof.
  intros HP Hreach.
  assert (Hnd : NoDup ord).
  { rewrite HP. apply (bool_decide_unpack _). by vm_compute. }
  assert (Hback : forall o m', o ≡ₚ ord -> chained o m' -> chained ord m').
  { intros o m' Ho. by apply chained_Permutation. }
  induction Hreach
    as [|m o s1 s2 jobName jobType packages _ IH Ho [Hne1 Hf1] [Hne2 Hf2]
        |m o id _ IH Ho
        |m o sysAbort id _ IH Ho
        |m o sysAbort id _ IH Ho
        |m o sysStart ordReap ordSched _ IH Ho HoR HoS
        |m o jobId c to _ IH Ho].
  - by apply NewJobManager_chained.
  - apply (Hback o); [done|].
    apply CreateJob_chained; try done.
    + by apply (chained_Permutation ord).
    + by rewrite Ho.
    + intros x Hx%(queued_Permutation ord o m x Ho).
      split; [by apply Hf1|by apply Hf2].
  - apply (Hback o); [done|].
    by apply MarkStart_chained, (chained_Permutation ord).
  - apply (Hback o); [done|].
    by apply PauseJob_chained, (chained_Permutation ord).
  - apply (Hback o); [done|].
    by apply CleanJob_chained, (chained_Permutation ord).
  - apply (Hback o); [done|].
    apply dispatch_chained.
    + by apply (chained_Permutation ord).
    + by rewrite Ho.
    + by rewrite HoR.
  - unfold handleJobProgressInfo.
    destruct (find o m jobId) as [j|]; [|by apply IH].
    unfold UpdateInfo.
    set (m1 := with_heap m _).
    assert (Hch1 : chained ord m1).
    { apply (chained_preserved ord m); [by apply IH|apply qsub_refl|done|].
      intros p _. subst m1. simpl. destruct (decide (p = j)) as [->|Hne].
      - rewrite set_job_eq. simpl. auto.
      - rewrite set_job_ne by done. auto. }
    pose proof (TransitionJobState_chained ord m1 j to Hch1) as Hch2.
    destruct (TransitionJobState m1 j to) as [m2 err]. simpl in Hch2.
    destruct (_ || _); [|done].
    apply (chained_preserved ord m2); [done|apply qsub_refl|done|].
    by apply keepsBelow_eq.
Qed.

Lemma reachable_chained_witness :
  reachable Examples.ord3 Examples.installFoo
  /\ chained Examples.ord3 Examples.installFoo.
Proof.
  assert (Hr : reachable Examples.ord3 Examples.installFoo).
  { apply (reach_CreateJob Examples.ord3 NewJobManager Examples.ord3
             (Examples.seed "1" 1) (Examples.seed "2" 2) "job"
             InstallJobType ["foo"]).
    - apply reach_NewJobManager.
    - reflexivity.
    - split; [done|]. intros x Hx. unfold queued in Hx. vm_compute in Hx.
      by apply not_elem_of_nil in Hx.
    - split; [done|]. intros x Hx. unfold queued in Hx. vm_compute in Hx.
      by apply not_elem_of_nil in Hx. }
  split; [exact Hr|].
  apply reachable_chained; [reflexivity|exact Hr].
Defined.

(** ** Who calls the backend and the notification *)

Lemma MarkStart_calls ord m id :
  calls (fst (MarkStart ord m id)) = calls m.
Proof.
  destruct (MarkStart ord m id) as [m' e] eqn:E.
  by apply MarkStart_frame in E as (_ & _ & _ & Hc & _).
Qed.

Lemma TransitionJobState_calls m job to :
  calls (fst (TransitionJobState m job to)) = calls m.
Proof.
  destruct (TransitionJobState m job to) as [m' e] eqn:E.
  by apply TransitionJobState_frame in E as (_ & _ & Hc & _).
Qed.

Lemma addJob_calls m j : calls (fst (addJob m j)) = calls m.
Proof.
  destruct (addJob m j) as [m' e] eqn:E.
  by apply addJob_frame in E as (_ & _ & Hc).
Qed.

Lemma removeJob_calls m id queue :
  calls (fst (removeJob m id queue)) = calls m.
Proof.
  destruct (removeJob m id queue) as [m' e] eqn:E.
  by apply removeJob_frame in E as (_ & _ & Hc).
Qed.

Lemma newJobOfType_quiet m s1 s2 jobName jobType packages mb job :
  newJobOfType m s1 s2 jobName jobType packages = Some (mb, job) ->
  calls mb = calls m /\ flagKept m mb.
Proof.
  unfold newJobOfType, NewJob, shareNextId.
  destruct jobType; intros [= <- <-]; by split.
Qed.

Lemma PauseJob_quiet ord sysAbort m id :
  flagKept m (fst (PauseJob ord sysAbort m id))
  /\ exists ids,
       calls (fst (PauseJob ord sysAbort m id)) = (AbortCall <$> ids) ++ calls m
       /\ length ids <= 1.
Proof.
  unfold PauseJob. destruct (find ord m id) as [job|].
  2:{ split; [apply flagKept_refl|]. exists []. simpl. auto. }
  destruct (negb _).
  { split; [apply flagKept_refl|]. exists []. simpl. auto. }
  destruct (sysAbort _).
  { split; [by split|]. exists [Id (heap m job)]. simpl. auto. }
  split.
  - eapply flagKept_trans; [|apply TransitionJobState_flag]. by split.
  - exists [Id (heap m job)]. rewrite TransitionJobState_calls. simpl. auto.
Qed.

Lemma CleanJob_quiet ord sysAbort m id :
  flagKept m (fst (CleanJob ord sysAbort m id))
  /\ exists ids,
       calls (fst (CleanJob ord sysAbort m id)) = (AbortCall <$> ids) ++ calls m
       /\ length ids <= 1.
Proof.
  unfold CleanJob. destruct (find ord m id) as [job|].
  2:{ split; [apply flagKept_refl|]. exists []. simpl. auto. }
  set (m1 := if _ && _ then _ else m).
  assert (H1 : flagKept m m1
               /\ exists ids, calls m1 = (AbortCall <$> ids) ++ calls m
                              /\ length ids <= 1).
  { subst m1. destruct (_ && _); [apply PauseJob_quiet|].
    split; [apply flagKept_refl|]. exists []. simpl. auto. }
  destruct H1 as (HF1 & ids & Hc1 & Hlen).
  set (m2 := if ValidTransitionJobState _ _ then _ else m1).
  assert (H2 : flagKept m1 m2 /\ calls m2 = calls m1).
  { subst m2. destruct (ValidTransitionJobState _ _); by split. }
  destruct H2 as [HF2 Hc2]. split.
  - eapply flagKept_trans; [exact HF1|].
    eapply flagKept_trans; [exact HF2|apply TransitionJobState_flag].
  - exists ids. by rewrite TransitionJobState_calls, Hc2.
Qed.

Lemma StartSystemJob_calls sysStart m job :
  exists l, calls (fst (StartSystemJob sysStart m job))
            = (StartCall <$> l) ++ calls m.
Proof.
  unfold StartSystemJob.
  pose proof (TransitionJobState_calls m job RunningStatus) as Hc.
  destruct (TransitionJobState m job RunningStatus) as [m1 [e|]];
    simpl in Hc.
  { exists []. done. }
  destruct (sysStart _).
  - exists [job]. cbn [fst]. rewrite TransitionJobState_calls. simpl.
    by rewrite Hc.
  - exists [job]. simpl. by rewrite Hc.
Qed.

Lemma starts_fold {A} (f : JobManager -> A -> JobManager) (l : list A) m :
  (forall m x, exists k, calls (f m x) = (StartCall <$> k) ++ calls m) ->
  exists k, calls (fold_left f l m) = (StartCall <$> k) ++ calls m.
Proof.
  intros Hf. revert m. induction l as [|x l IH]; intros m; simpl.
  - by exists [].
  - destruct (IH (f m x)) as [k2 H2]. destruct (Hf m x) as [k1 H1].
    exists (k2 ++ k1). by rewrite H2, H1, fmap_app, app_assoc.
Qed.

Lemma startJob_calls ord sysStart m job :
  exists k, calls (startJob ord sysStart m job) = (StartCall <$> k) ++ calls m.
Proof.
  unfold startJob. set (m1 := if bool_decide _ then _ else m).
  assert (H1 : calls m1 = calls m).
  { subst m1. destruct (bool_decide _); [apply MarkStart_calls|done]. }
  destruct (StartSystemJob_calls sysStart m1 job) as [k Hk].
  exists k. by rewrite Hk, H1.
Qed.

Lemma scheduleQueue_calls ord sysStart m name :
  exists k,
    calls (scheduleQueue ord sysStart m name) = (StartCall <$> k) ++ calls m.
Proof.
  unfold scheduleQueue. destruct (queues m !! name); [|by exists []].
  destruct (_ && _); [by exists []|].
  destruct (PendingJobs _ _) as [h' jobs].
  apply (starts_fold (startJob ord sysStart) jobs (with_heap m h')).
  intros. apply startJob_calls.
Qed.

Lemma reapJob_calls ord m job : calls (reapJob ord m job) = calls m.
Proof.
  unfold reapJob. destruct (next _) as [nx|].
  - by rewrite MarkStart_calls, addJob_calls, removeJob_calls.
  - apply removeJob_calls.
Qed.

(** X22. Who reaches the backend and the notification. [MarkStart] and
    [CreateJob] call neither the backend nor [notify]: they only prepare
    what a later tick starts. [PauseJob] and [CleanJob] call [notify]
    never and the backend once at most, for an [Abort]. A dispatch tick
    calls the backend for starts only, never for an [Abort]. None of the
    four methods clears a [changed] flag that is set. *)
Theorem backend_call_discipline ord m :
  (forall id,
      calls (fst (MarkStart ord m id)) = calls m
      /\ flagKept m (fst (MarkStart ord m id)))
  /\ (forall s1 s2 jobName jobType packages,
        calls (fst (fst (CreateJob ord m s1 s2 jobName jobType packages)))
        = calls m
        /\ flagKept m
             (fst (fst (CreateJob ord m s1 s2 jobName jobType packages))))
  /\ (forall sysAbort id,
        flagKept m (fst (PauseJob ord sysAbort m id))
        /\ exists ids,
             calls (fst (PauseJob ord sysAbort m id))
             = (AbortCall <$> ids) ++ calls m
             /\ length ids <= 1)
  /\ (forall sysAbort id,
        flagKept m (fst (CleanJob ord sysAbort m id))
        /\ exists ids,
             calls (fst (CleanJob ord sysAbort m id))
             = (AbortCall <$> ids) ++ calls m
             /\ length ids <= 1)
  /\ (forall sysStart ordReap ordSched,
        exists started,
          calls (dispatch ord sysStart ordReap ordSched m)
          = (StartCall <$> started) ++ calls m).
Proof.
  split; [|split; [|split; [|split]]].
  - intros id. split; [apply MarkStart_calls|apply MarkStart_flag].
  - intros s1 s2 jobName jobType packages. unfold CreateJob.
    destruct (find ord m (guest ord m jobType packages)) as [found|].
    { pose proof (MarkStart_calls ord m (Id (heap m found))) as Hc.
      pose proof (MarkStart_flag ord m (Id (heap m found))) as HF.
      by destruct (MarkStart ord m (Id (heap m found))). }
    destruct (newJobOfType m s1 s2 jobName jobType packages) as [[mb job]|]
      eqn:EN; [|split; [done|apply flagKept_refl]].
    apply newJobOfType_quiet in EN as [Hcb HFb].
    set (m2 := fst (addJob mb job)).
    pose proof (MarkStart_calls ord m2 (Id (heap m2 job))) as Hc.
    pose proof (MarkStart_flag ord m2 (Id (heap m2 job))) as HF.
    destruct (MarkStart ord m2 (Id (heap m2 job))) as [m3 e3]. simpl in *.
    split.
    + subst m2. by rewrite Hc, addJob_calls.
    + eapply flagKept_trans; [exact HFb|].
      eapply flagKept_trans; [apply addJob_flag|exact HF].
  - intros sysAbort id. apply PauseJob_quiet.
  - intros sysAbort id. apply CleanJob_quiet.
  - intros sysStart ordReap ordSched.
    assert (H1 : calls (reap ord ordReap m) = calls m).
    { unfold reap. generalize (endJobs m ordReap). intros jobs. revert m.
      induction jobs as [|job jobs IH]; intros m; simpl; [done|].
      by rewrite IH, reapJob_calls. }
    destruct (starts_fold (scheduleQueue ord sysStart) ordSched
                (reap ord ordReap m)) as [k Hk].
    { intros. apply scheduleQueue_calls. }
    exists k. unfold dispatch, notifyChanged.
    fold (schedule ord sysStart ordSched (reap ord ordReap m)) in Hk.
    destruct (changed _); simpl; by rewrite Hk, H1.
Qed.
